(** * Referral loop closure: matching, task lifecycle and consent routing

    A shallow embedding of the referral-matching and consent-routing core
    (matching/fuzzy.ts, matching/engine.ts, store.ts and portal/routing.ts),
    followed by the properties established about it.

    Modelling conventions.
    - A JavaScript string is a [string]: a sequence of code units.  The model
      covers the code units 0..255 (Basic Latin and Latin-1), on which
      [toLowerCase] and the whitespace class of regular expressions are the
      per-character functions given below.
    - The name similarity of matching/fuzzy.ts is given a second time on
      sequences of 16-bit code units ([Utf16]), where [toLowerCase] is the
      default case conversion of Unicode with its rules for the capital
      sigma and the capital I with dot above; the case data cover
      U+0000..U+03FF.  On Latin-1 strings the two models compute the same
      ([fuzzyNameMatch_on_latin1]).
    - A JavaScript number that carries a similarity or a score is an exact
      rational ([Q]); rounding of IEEE doubles is not modelled.
    - A JavaScript [Map] is an insertion-ordered association list with
      unique keys ([JsMap.t]), because several functions iterate a map and
      return at the first hit.
    - The wall clock ([Date.now()], [new Date().toISOString()]) is an
      explicit argument. *)

From Stdlib Require Import List String Ascii Bool Arith ZArith QArith Lia.
From Stdlib Require Import NArith Lqa Sorted.
Import ListNotations.
Local Open Scope string_scope.
Local Open Scope list_scope.
Local Open Scope nat_scope.

(* ------------------------------------------------------------------ *)
(** ** JavaScript string primitives *)
(* ------------------------------------------------------------------ *)

Module Text.

Definition code (c : ascii) : nat := nat_of_ascii c.

Definition in_range (lo hi n : nat) : bool := (lo <=? n) && (n <=? hi).

(** Code units that have a distinct lower-case form: A-Z, and the
    Latin-1 capitals U+00C0..U+00DE except the multiplication sign. *)
Definition isUpper (c : ascii) : bool :=
  let n := code c in
  in_range 65 90 n || in_range 192 214 n || in_range 216 222 n.

Definition toLowerChar (c : ascii) : ascii :=
  if isUpper c then ascii_of_nat (code c + 32) else c.

(** [s.toLowerCase()] *)
Fixpoint toLowerCase (s : string) : string :=
  match s with
  | EmptyString => EmptyString
  | String c r => String (toLowerChar c) (toLowerCase r)
  end.

(** The class [\s]: TAB, LF, VT, FF, CR, SPACE and NBSP. *)
Definition isSpace (c : ascii) : bool :=
  let n := code c in in_range 9 13 n || (n =? 32) || (n =? 160).

(** [s.replace(/[...]/g, " ")] for a character class given as a predicate. *)
Fixpoint replaceClass (p : ascii -> bool) (s : string) : string :=
  match s with
  | EmptyString => EmptyString
  | String c r => String (if p c then " "%char else c) (replaceClass p r)
  end.

(** [s.split(/\s+/).filter(Boolean)]: the maximal runs of characters
    that are not whitespace, in order. *)
Fixpoint splitWords (s : string) : list string :=
  match s with
  | EmptyString => []
  | String c r =>
      if isSpace c then splitWords r
      else
        match r with
        | EmptyString => [String c EmptyString]
        | String d _ =>
            if isSpace d then String c EmptyString :: splitWords r
            else
              match splitWords r with
              | t :: ts => String c t :: ts
              | [] => [String c EmptyString]
              end
        end
  end.

(** [l.join(sep)] *)
Fixpoint join (sep : string) (l : list string) : string :=
  match l with
  | [] => EmptyString
  | [x] => x
  | x :: r => String.append x (String.append sep (join sep r))
  end.

(** [l.includes(x)] and [set.has(x)] on strings. *)
Definition includes (l : list string) (x : string) : bool :=
  existsb (String.eqb x) l.

(** [new Set(l)]: the distinct elements, in order of first insertion. *)
Fixpoint addAll (acc l : list string) : list string :=
  match l with
  | [] => acc
  | x :: r => addAll (if includes acc x then acc else acc ++ [x]) r
  end.

Definition newSet (l : list string) : list string := addAll [] l.

(** Truthiness of a string: non-empty. *)
Definition truthy (s : string) : bool :=
  match s with EmptyString => false | _ => true end.

(** Truthiness of [string | undefined]. *)
Definition truthyOpt (o : option string) : bool :=
  match o with Some s => truthy s | None => false end.

(** [s.replace(pat, "")] with a string pattern: the first occurrence of
    [pat] is removed, the rest is kept. *)
Fixpoint removeFirst (pat s : string) : string :=
  if String.prefix pat s
  then substring (String.length pat) (String.length s - String.length pat) s
  else
    match s with
    | EmptyString => EmptyString
    | String c r => String c (removeFirst pat r)
    end.

(** Relational operators on strings compare code units
    lexicographically. *)
Definition gt (a b : string) : bool := String.ltb b a.
Definition ge (a b : string) : bool := String.leb b a.
Definition le (a b : string) : bool := String.leb a b.

(** Decimal rendering of a non-negative integer, as template literals
    and [toFixed] print it. *)
Definition digitChar (d : N) : ascii := ascii_of_N (48 + d)%N.

Fixpoint decimalFuel (fuel : nat) (n : N) (acc : string) : string :=
  match fuel with
  | O => acc
  | S f =>
      let acc' := String (digitChar (n mod 10)%N) acc in
      if (n / 10 =? 0)%N then acc' else decimalFuel f (n / 10)%N acc'
  end.

(** A number has no more decimal digits than binary ones. *)
Definition decimal (n : N) : string :=
  decimalFuel (S (N.to_nat (N.log2 n))) n EmptyString.

End Text.

(* ------------------------------------------------------------------ *)
(** ** matching/fuzzy.ts *)
(* ------------------------------------------------------------------ *)

Module Fuzzy.
Import Text.

Definition STRIP_TERMS : list string :=
  [ "llc"; "inc"; "corp"; "corporation"; "associates"; "assoc";
    "group"; "medical"; "med"; "center"; "centre"; "clinic";
    "pa"; "pc"; "md"; "do"; "dds"; "dpm"; "healthcare";
    "health"; "services"; "practice"; "partners"; "pllc"; "ltd" ].

(** The character class [[.'',\-\/\\()]]. *)
Definition isPunct (c : ascii) : bool :=
  existsb (Ascii.eqb c)
    [ "."%char; "'"%char; ","%char; "-"%char; "/"%char; "\"%char;
      "("%char; ")"%char ].

Definition normalizeName (name : string) : string :=
  let n := replaceClass isPunct (toLowerCase name) in
  let tokens := splitWords n in
  let filtered := filter (fun t => negb (includes STRIP_TERMS t)) tokens in
  join " " (if 0 <? List.length filtered then filtered else tokens).

(** One pass of the inner loop of [levenshteinDistance]: [prev] holds
    [prev[j-1], prev[j], ...], [left] is [curr[j-1]], and the result is
    [curr[j], ..., curr[n]]. *)
Fixpoint fillRow (ai : ascii) (b : string) (prev : list nat) (left : nat)
  : list nat :=
  match b, prev with
  | String bj b', diag :: ((up :: _) as prev') =>
      let v := if Ascii.eqb ai bj then diag
               else 1 + Nat.min diag (Nat.min up left) in
      v :: fillRow ai b' prev' v
  | _, _ => []
  end.

(** The outer loop: row [i] is computed from row [i-1]. *)
Fixpoint rows (a b : string) (i : nat) (prev : list nat) : list nat :=
  match a with
  | EmptyString => prev
  | String ai a' => rows a' b (S i) (i :: fillRow ai b prev i)
  end.

Definition levenshteinDistance (a b : string) : nat :=
  let m := String.length a in
  let n := String.length b in
  if m =? 0 then n
  else if n =? 0 then m
  else nth n (rows a b 1 (seq 0 (S n))) 0%nat.

Definition ofNat (n : nat) : Q := inject_Z (Z.of_nat n).

Definition tokenJaccard (a b : string) : Q :=
  let tokensA := splitWords a in
  let tokensB := splitWords b in
  let setA := newSet tokensA in
  let setB := newSet tokensB in
  if (List.length setA =? 0) && (List.length setB =? 0) then 0%Q
  else
    let intersection := newSet (filter (includes setB) setA) in
    let union := newSet (setA ++ setB) in
    if List.length union =? 0 then 0%Q
    else (ofNat (List.length intersection) / ofNat (List.length union))%Q.

(** [Math.max] on two numbers. *)
Definition mathMax (x y : Q) : Q := if Qle_bool x y then y else x.

Definition fuzzyNameMatch (a b : string) : Q :=
  let na := normalizeName a in
  let nb := normalizeName b in
  if String.eqb na nb then 1%Q
  else
    let jaccard := tokenJaccard na nb in
    let maxLen := Nat.max (String.length na) (String.length nb) in
    let levenSim :=
      if maxLen =? 0 then 1%Q
      else (1 - ofNat (levenshteinDistance na nb) / ofNat maxLen)%Q in
    mathMax jaccard levenSim.

End Fuzzy.

(* ------------------------------------------------------------------ *)
(** ** matching/fuzzy.ts on strings of UTF-16 code units *)
(* ------------------------------------------------------------------ *)

Module Utf16.

(** A string as the engine holds it: a sequence of 16-bit code units.
    The functions of fuzzy.ts are given here a second time, on this
    type, with [toLowerCase] as the default case conversion of Unicode:
    a capital sigma is lower-cased by its position in the word, and a
    capital I with dot above becomes two code units. *)
Definition wstring : Type := list N.

(** The code units of a Latin-1 literal. *)
Fixpoint units (s : string) : wstring :=
  match s with
  | EmptyString => []
  | String c r => N_of_ascii c :: units r
  end.

(** [a === b] on strings. *)
Fixpoint eqb (a b : wstring) : bool :=
  match a, b with
  | [], [] => true
  | x :: a', y :: b' => N.eqb x y && eqb a' b'
  | _, _ => false
  end.

Definition within (lo hi u : N) : bool := N.leb lo u && N.leb u hi.

(** *** Case data of the Unicode character database, U+0000..U+03FF

    Basic Latin, Latin-1, Latin Extended-A and B, IPA, the modifier
    letters, the combining marks, Greek and Coptic.  A code unit above
    U+03FF has no entry: it is neither cased nor case-ignorable here and
    lower-cases to itself.  The model is exact on strings of code units
    up to U+03FF; what is stated about longer alphabets below does not
    depend on the case data. *)

(** Simple lower-case mappings [(first, last, to)]: the code points
    [first..last] map to [to, to + 1, ...]. *)
Definition LOWER_RUNS : list (N * N * N) :=
  [
   (0x0041, 0x005A, 0x0061); (0x00C0, 0x00D6, 0x00E0); (0x00D8, 0x00DE, 0x00F8);
   (0x0130, 0x0130, 0x0069); (0x0178, 0x0178, 0x00FF); (0x0181, 0x0181, 0x0253);
   (0x0186, 0x0186, 0x0254); (0x0187, 0x0187, 0x0188); (0x0189, 0x018A, 0x0256);
   (0x018B, 0x018B, 0x018C); (0x018E, 0x018E, 0x01DD); (0x018F, 0x018F, 0x0259);
   (0x0190, 0x0190, 0x025B); (0x0191, 0x0191, 0x0192); (0x0193, 0x0193, 0x0260);
   (0x0194, 0x0194, 0x0263); (0x0196, 0x0196, 0x0269); (0x0197, 0x0197, 0x0268);
   (0x0198, 0x0198, 0x0199); (0x019C, 0x019C, 0x026F); (0x019D, 0x019D, 0x0272);
   (0x019F, 0x019F, 0x0275); (0x01A6, 0x01A6, 0x0280); (0x01A7, 0x01A7, 0x01A8);
   (0x01A9, 0x01A9, 0x0283); (0x01AC, 0x01AC, 0x01AD); (0x01AE, 0x01AE, 0x0288);
   (0x01AF, 0x01AF, 0x01B0); (0x01B1, 0x01B2, 0x028A); (0x01B7, 0x01B7, 0x0292);
   (0x01B8, 0x01B8, 0x01B9); (0x01BC, 0x01BC, 0x01BD); (0x01C4, 0x01C4, 0x01C6);
   (0x01C5, 0x01C5, 0x01C6); (0x01C7, 0x01C7, 0x01C9); (0x01C8, 0x01C8, 0x01C9);
   (0x01CA, 0x01CA, 0x01CC); (0x01F1, 0x01F1, 0x01F3); (0x01F6, 0x01F6, 0x0195);
   (0x01F7, 0x01F7, 0x01BF); (0x0220, 0x0220, 0x019E); (0x023A, 0x023A, 0x2C65);
   (0x023B, 0x023B, 0x023C); (0x023D, 0x023D, 0x019A); (0x023E, 0x023E, 0x2C66);
   (0x0241, 0x0241, 0x0242); (0x0243, 0x0243, 0x0180); (0x0244, 0x0244, 0x0289);
   (0x0245, 0x0245, 0x028C); (0x0376, 0x0376, 0x0377); (0x037F, 0x037F, 0x03F3);
   (0x0386, 0x0386, 0x03AC); (0x0388, 0x038A, 0x03AD); (0x038C, 0x038C, 0x03CC);
   (0x038E, 0x038F, 0x03CD); (0x0391, 0x03A1, 0x03B1); (0x03A3, 0x03AB, 0x03C3);
   (0x03CF, 0x03CF, 0x03D7); (0x03F4, 0x03F4, 0x03B8); (0x03F7, 0x03F7, 0x03F8);
   (0x03F9, 0x03F9, 0x03F2); (0x03FA, 0x03FA, 0x03FB); (0x03FD, 0x03FF, 0x037B) ]%N.

(** Simple lower-case mappings [(first, last)]: every second code point
    from [first] up to [last] maps to its successor. *)
Definition LOWER_PAIRS : list (N * N) :=
  [
   (0x0100, 0x012E); (0x0132, 0x0136); (0x0139, 0x0147); (0x014A, 0x0176);
   (0x0179, 0x017D); (0x0182, 0x0184); (0x01A0, 0x01A4); (0x01B3, 0x01B5);
   (0x01CB, 0x01DB); (0x01DE, 0x01EE); (0x01F2, 0x01F4); (0x01F8, 0x021E);
   (0x0222, 0x0232); (0x0246, 0x024E); (0x0370, 0x0372); (0x03D8, 0x03EE) ]%N.

(** The property Cased. *)
Definition CASED : list (N * N) :=
  [
   (0x0041, 0x005A); (0x0061, 0x007A); (0x00AA, 0x00AA); (0x00B5, 0x00B5);
   (0x00BA, 0x00BA); (0x00C0, 0x00D6); (0x00D8, 0x00F6); (0x00F8, 0x01BA);
   (0x01BC, 0x01BF); (0x01C4, 0x0293); (0x0295, 0x02B8); (0x02C0, 0x02C1);
   (0x02E0, 0x02E4); (0x0345, 0x0345); (0x0370, 0x0373); (0x0376, 0x0377);
   (0x037A, 0x037D); (0x037F, 0x037F); (0x0386, 0x0386); (0x0388, 0x038A);
   (0x038C, 0x038C); (0x038E, 0x03A1); (0x03A3, 0x03F5); (0x03F7, 0x03FF) ]%N.

(** The property Case_Ignorable. *)
Definition CASE_IGNORABLE : list (N * N) :=
  [
   (0x0027, 0x0027); (0x002E, 0x002E); (0x003A, 0x003A); (0x005E, 0x005E);
   (0x0060, 0x0060); (0x00A8, 0x00A8); (0x00AD, 0x00AD); (0x00AF, 0x00AF);
   (0x00B4, 0x00B4); (0x00B7, 0x00B8); (0x02B0, 0x036F); (0x0374, 0x0375);
   (0x037A, 0x037A); (0x0384, 0x0385); (0x0387, 0x0387) ]%N.

Definition inRanges (table : list (N * N)) (u : N) : bool :=
  existsb (fun r => within (fst r) (snd r) u) table.

Definition cased (u : N) : bool := inRanges CASED u.

Definition caseIgnorable (u : N) : bool := inRanges CASE_IGNORABLE u.

Definition simpleLower (u : N) : N :=
  match find (fun r => within (fst (fst r)) (snd (fst r)) u) LOWER_RUNS with
  | Some r => (snd r + (u - fst (fst r)))%N
  | None =>
      if existsb (fun r => within (fst r) (snd r) u && N.even (u - fst r))
           LOWER_PAIRS
      then (u + 1)%N
      else u
  end.

Definition CAPITAL_SIGMA : N := 0x03A3%N.
Definition SMALL_SIGMA : N := 0x03C3%N.
Definition FINAL_SIGMA : N := 0x03C2%N.
Definition CAPITAL_I_WITH_DOT : N := 0x0130%N.
Definition SMALL_I : N := 0x0069%N.
Definition COMBINING_DOT_ABOVE : N := 0x0307%N.

(** In the direction of [s], a cased letter comes next, after any
    number of case-ignorable code units. *)
Fixpoint casedNext (s : wstring) : bool :=
  match s with
  | [] => false
  | u :: r => if caseIgnorable u then casedNext r else cased u
  end.

(** Lower-casing of [s], with the code units already read in [before],
    most recent first.  A capital sigma becomes the final sigma when a
    cased letter precedes it and none follows. *)
Fixpoint lowerFrom (before s : wstring) : wstring :=
  match s with
  | [] => []
  | u :: r =>
      (if N.eqb u CAPITAL_SIGMA then
         if negb (casedNext r) && casedNext before
         then [FINAL_SIGMA] else [SMALL_SIGMA]
       else if N.eqb u CAPITAL_I_WITH_DOT then [SMALL_I; COMBINING_DOT_ABOVE]
       else [simpleLower u])
      ++ lowerFrom (u :: before) r
  end.

(** [s.toLowerCase()] *)
Definition toLowerCase (s : wstring) : wstring := lowerFrom [] s.

(** The class [\s]: TAB, LF, VT, FF, CR, the line and paragraph
    separators, the byte order mark and the space separators. *)
Definition isSpace (u : N) : bool :=
  (within 9 13 u || N.eqb u 32 || N.eqb u 160 || N.eqb u 0x1680
   || within 0x2000 0x200A u || within 0x2028 0x2029 u
   || N.eqb u 0x202F || N.eqb u 0x205F || N.eqb u 0x3000
   || N.eqb u 0xFEFF)%N.

Definition SPACE : N := 32%N.

(** [s.replace(/[...]/g, " ")] for a character class given as a predicate. *)
Definition replaceClass (p : N -> bool) (s : wstring) : wstring :=
  map (fun u => if p u then SPACE else u) s.

(** [s.split(/\s+/).filter(Boolean)] *)
Fixpoint splitWords (s : wstring) : list wstring :=
  match s with
  | [] => []
  | c :: r =>
      if isSpace c then splitWords r
      else
        match r with
        | [] => [[c]]
        | d :: _ =>
            if isSpace d then [c] :: splitWords r
            else
              match splitWords r with
              | t :: ts => (c :: t) :: ts
              | [] => [[c]]
              end
        end
  end.

(** [l.join(" ")] *)
Fixpoint join (l : list wstring) : wstring :=
  match l with
  | [] => []
  | [x] => x
  | x :: r => x ++ SPACE :: join r
  end.

(** [l.includes(x)] and [set.has(x)] *)
Definition includes (l : list wstring) (x : wstring) : bool :=
  existsb (eqb x) l.

(** [new Set(l)] *)
Fixpoint addAll (acc l : list wstring) : list wstring :=
  match l with
  | [] => acc
  | x :: r => addAll (if includes acc x then acc else acc ++ [x]) r
  end.

Definition newSet (l : list wstring) : list wstring := addAll [] l.

Definition STRIP_TERMS : list wstring := map units Fuzzy.STRIP_TERMS.

(** The character class [[.'',\-\/\\()]]. *)
Definition isPunct (u : N) : bool :=
  existsb (N.eqb u) (units ".',-/\()").

Definition normalizeName (name : wstring) : wstring :=
  let n := replaceClass isPunct (toLowerCase name) in
  let tokens := splitWords n in
  let filtered := filter (fun t => negb (includes STRIP_TERMS t)) tokens in
  join (if 0 <? List.length filtered then filtered else tokens).

Fixpoint fillRow (ai : N) (b : wstring) (prev : list nat) (left : nat)
  : list nat :=
  match b, prev with
  | bj :: b', diag :: ((up :: _) as prev') =>
      let v := if N.eqb ai bj then diag
               else 1 + Nat.min diag (Nat.min up left) in
      v :: fillRow ai b' prev' v
  | _, _ => []
  end.

Fixpoint rows (a b : wstring) (i : nat) (prev : list nat) : list nat :=
  match a with
  | [] => prev
  | ai :: a' => rows a' b (S i) (i :: fillRow ai b prev i)
  end.

Definition levenshteinDistance (a b : wstring) : nat :=
  let m := List.length a in
  let n := List.length b in
  if m =? 0 then n
  else if n =? 0 then m
  else nth n (rows a b 1 (seq 0 (S n))) 0%nat.

Definition tokenJaccard (a b : wstring) : Q :=
  let tokensA := splitWords a in
  let tokensB := splitWords b in
  let setA := newSet tokensA in
  let setB := newSet tokensB in
  if (List.length setA =? 0) && (List.length setB =? 0) then 0%Q
  else
    let intersection := newSet (filter (includes setB) setA) in
    let union := newSet (setA ++ setB) in
    if List.length union =? 0 then 0%Q
    else (Fuzzy.ofNat (List.length intersection)
          / Fuzzy.ofNat (List.length union))%Q.

Definition fuzzyNameMatch (a b : wstring) : Q :=
  let na := normalizeName a in
  let nb := normalizeName b in
  if eqb na nb then 1%Q
  else
    let jaccard := tokenJaccard na nb in
    let maxLen := Nat.max (List.length na) (List.length nb) in
    let levenSim :=
      if maxLen =? 0 then 1%Q
      else (1 - Fuzzy.ofNat (levenshteinDistance na nb)
                / Fuzzy.ofNat maxLen)%Q in
    Fuzzy.mathMax jaccard levenSim.

(** *** Letter case *)






End Utf16.

(* ------------------------------------------------------------------ *)
(** ** JavaScript [Map]: insertion-ordered, unique keys *)
(* ------------------------------------------------------------------ *)

Module JsMap.

Definition t (V : Type) : Type := list (string * V).

Definition empty {V : Type} : t V := [].

(** [m.get(k)] *)
Fixpoint get {V : Type} (m : t V) (k : string) : option V :=
  match m with
  | [] => None
  | (k', v) :: r => if String.eqb k' k then Some v else get r k
  end.

(** [m.has(k)] *)
Definition has {V : Type} (m : t V) (k : string) : bool :=
  match get m k with Some _ => true | None => false end.

(** [m.set(k, v)]: an existing key keeps its position, a new key goes
    to the end. *)
Fixpoint set {V : Type} (m : t V) (k : string) (v : V) : t V :=
  match m with
  | [] => [(k, v)]
  | (k', v') :: r =>
      if String.eqb k' k then (k', v) :: r else (k', v') :: set r k v
  end.

End JsMap.

(* ------------------------------------------------------------------ *)
(** ** fhir/types.ts *)
(* ------------------------------------------------------------------ *)

Module Fhir.

Record Identifier := mkIdentifier {
  idSystem : string;
  idValue : string
}.

Record Reference := mkReference {
  reference : string;
  refDisplay : option string;
  refIdentifier : option Identifier
}.

Record Coding := mkCoding {
  codSystem : option string;
  code : string;
  codDisplay : option string
}.

Record CodeableConcept := mkCodeableConcept {
  coding : option (list Coding);
  ccText : option string
}.

Record Period := mkPeriod {
  periodStart : option string;
  periodEnd : option string
}.

#[warnings="-register-all"]
Inductive Extension :=
| mkExtension (url : string) (valueCode valueString : option string)
    (valueCoding : option Coding) (extension : option (list Extension)).

Definition extUrl (e : Extension) : string :=
  match e with mkExtension u _ _ _ _ => u end.
Definition extValueString (e : Extension) : option string :=
  match e with mkExtension _ _ s _ _ => s end.
Definition extValueCoding (e : Extension) : option Coding :=
  match e with mkExtension _ _ _ c _ => c end.
Definition extExtension (e : Extension) : option (list Extension) :=
  match e with mkExtension _ _ _ _ l => l end.

(** Resources that the pipeline only reads carry the fields it reads. *)
Record Practitioner := mkPractitioner {
  prId : string;
  prIdentifier : option (list Identifier)
}.

Record Organization := mkOrganization {
  orgId : string;
  orgIdentifier : option (list Identifier);
  orgName : string
}.

Record PractitionerRole := mkPractitionerRole {
  roleId : string;
  rolePractitioner : Reference;
  roleOrganization : Reference;
  roleSpecialty : option (list CodeableConcept)
}.

Record ServiceRequest := mkServiceRequest {
  srId : string;
  srSubject : Reference;
  srRequester : option Reference;
  srAuthoredOn : option string;
  srOccurrencePeriod : option Period;
  srExtension : option (list Extension)
}.

Inductive TaskStatus :=
| TRequested | TReceived | TAccepted | TInProgress
| TCompleted | TFailed | TCancelled.

Inductive TaskIntent := IOrder | IProposal | IPlan.

Record TaskOutput := mkTaskOutput {
  outType : CodeableConcept;
  outValueReference : option Reference
}.

Record Restriction := mkRestriction {
  restrPeriod : option Period
}.

Record Task := mkTask {
  taskId : string;
  status : TaskStatus;
  intent : TaskIntent;
  taskCode : option CodeableConcept;
  focus : option Reference;
  for_ : option Reference;
  taskRequester : option Reference;
  owner : option Reference;
  authoredOn : option string;
  lastModified : option string;
  restriction : option Restriction;
  businessStatus : option CodeableConcept;
  output : option (list TaskOutput)
}.

Inductive EncounterStatus :=
| EPlanned | EArrived | ETriaged | EInProgress
| EOnleave | EFinished | ECancelled.

Record Meta := mkMeta {
  profile : option (list string)
}.

Record Participant := mkParticipant {
  individual : option Reference
}.

Record Encounter := mkEncounter {
  encId : string;
  encMeta : option Meta;
  encStatus : EncounterStatus;
  class : Coding;
  encType : option (list CodeableConcept);
  subject : Reference;
  participant : option (list Participant);
  period : option Period;
  reasonCode : option (list CodeableConcept);
  serviceProvider : option Reference
}.

Inductive SharingMode := ReferralsOnly | AllEncounters.

Record SharingPreference := mkSharingPreference {
  spPatientId : string;
  spPhysicianRef : string;
  mode : SharingMode;
  grantedAt : string;
  active : bool
}.

Record RoutedEvent := mkRoutedEvent {
  reId : string;
  reEncounterId : string;
  rePatientId : string;
  rePhysicianRef : string;
  reTaskId : option string;
  reMatchScore : option Q;
  routedAt : string;
  reEncounter : Encounter
}.

Definition taskStatusEqb (a b : TaskStatus) : bool :=
  match a, b with
  | TRequested, TRequested | TReceived, TReceived | TAccepted, TAccepted
  | TInProgress, TInProgress | TCompleted, TCompleted | TFailed, TFailed
  | TCancelled, TCancelled => true
  | _, _ => false
  end.

End Fhir.

(* ------------------------------------------------------------------ *)
(** ** matching/engine.ts *)
(* ------------------------------------------------------------------ *)

Module Engine.
Import Text Fhir.

Record Weights := mkWeights {
  wOrgNpi : Q;
  wOrgName : Q;
  wPractitionerNpi : Q;
  wSpecialty : Q;
  wDateInWindow : Q
}.

Definition WEIGHTS : Weights :=
  mkWeights (35 # 100) (20 # 100) (25 # 100) (10 # 100) (10 # 100).

Definition MIN_SCORE_THRESHOLD : Q := 10 # 100.
Definition HIGH_CONFIDENCE : Q := 70 # 100.
Definition MEDIUM_CONFIDENCE : Q := 40 # 100.

(** [x >= y] on numbers. *)
Definition geq (x y : Q) : bool := Qle_bool y x.

Inductive Confidence := High | Medium | Low.

Record Signals := mkSignals {
  sigOrgNpi : bool;
  sigOrgName : Q;
  sigPractitionerNpi : bool;
  sigSpecialty : bool;
  sigDateInWindow : bool
}.

Record MatchResult := mkMatchResult {
  serviceRequestId : string;
  mrTaskId : string;
  score : Q;
  confidence : Confidence;
  signals : Signals
}.

Record OpenReferral := mkOpenReferral {
  serviceRequest : ServiceRequest;
  task : Task
}.

(** The three lookups of a match context are optional. *)
Record MatchContext := mkMatchContext {
  orgNpiLookup : option (string -> option string);
  practitionerNpiLookup : option (string -> option string);
  specialtyLookup : option (string -> option string)
}.

Definition emptyContext : MatchContext := mkMatchContext None None None.

(** [f?.(x)] *)
Definition callOpt (f : option (string -> option string)) (x : string)
  : option string :=
  match f with Some g => g x | None => None end.

(** [o?.field] *)
Definition andThen {A B : Type} (o : option A) (f : A -> option B)
  : option B :=
  match o with Some a => f a | None => None end.

Record Targets := mkTargets {
  tOrgNpi : option string;
  tOrgName : option string;
  tPractitionerNpi : option string;
  tSpecialtyCode : option string
}.

Definition TARGET_URL : string :=
  "http://example.org/fhir/StructureDefinition/referral-target-identifiers".

Definition NPI_SYSTEM : string := "http://hl7.org/fhir/sid/us-npi".

Definition findExt (u : string) (l : list Extension) : option Extension :=
  find (fun e => String.eqb (extUrl e) u) l.

Definition getTargetIdentifiers (sr : ServiceRequest) : Targets :=
  let targetExt := andThen (srExtension sr) (findExt TARGET_URL) in
  match andThen targetExt extExtension with
  | None => mkTargets None None None None
  | Some exts =>
      mkTargets
        (andThen (findExt "organizationNpi" exts) extValueString)
        (andThen (findExt "organizationName" exts) extValueString)
        (andThen (findExt "practitionerNpi" exts) extValueString)
        (andThen (andThen (findExt "specialty" exts) extValueCoding)
                 (fun c => Some (code c)))
  end.

(** [a && b && a === b] on two optional strings. *)
Definition sameTruthy (a b : option string) : bool :=
  match a, b with
  | Some x, Some y => truthy x && truthy y && String.eqb x y
  | _, _ => false
  end.

(** What the loop reads from the encounter before it starts. *)
Record EncounterInfo := mkEncounterInfo {
  encOrgName : string;
  encOrgNpi : option string;
  encPractNpi : option string;
  encSpecialty : option string;
  encDate : option string
}.

Definition firstIndividual (encounter : Encounter) : option Reference :=
  andThen (andThen (participant encounter) (@hd_error Participant))
          individual.

Definition encounterInfo (encounter : Encounter) (sp : Reference)
    (context : MatchContext) : EncounterInfo :=
  let encOrgRef := reference sp in
  let encOrgName :=
    match refDisplay sp with
    | Some d => if truthy d then d else EmptyString
    | None => EmptyString
    end in
  let encOrgNpi :=
    if truthy encOrgRef then callOpt (orgNpiLookup context) encOrgRef
    else None in
  let encPractRef :=
    andThen (firstIndividual encounter) (fun r => Some (reference r)) in
  let participantId := andThen (firstIndividual encounter) refIdentifier in
  let embeddedNpi :=
    match participantId with
    | Some i =>
        if String.eqb (idSystem i) NPI_SYSTEM then Some (idValue i)
        else None
    | None => None
    end in
  let looked :=
    match encPractRef with
    | Some r =>
        if truthy r then callOpt (practitionerNpiLookup context) r
        else None
    | None => None
    end in
  let encPractNpi := if truthyOpt looked then looked else embeddedNpi in
  let encSpecialty :=
    match encPractRef with
    | Some r =>
        if truthy r then callOpt (specialtyLookup context) r else None
    | None => None
    end in
  let encDate := andThen (period encounter) periodStart in
  mkEncounterInfo encOrgName encOrgNpi encPractNpi encSpecialty encDate.

(** [(!windowStart || encDate >= windowStart) &&
     (!windowEnd || encDate <= windowEnd)] *)
Definition inWindow (encDate : string) (w : Period) : bool :=
  (negb (truthyOpt (periodStart w))
   || match periodStart w with Some s => ge encDate s | None => false end)
  &&
  (negb (truthyOpt (periodEnd w))
   || match periodEnd w with Some e => le encDate e | None => false end).

Definition confidenceOf (score : Q) : Confidence :=
  if geq score HIGH_CONFIDENCE then High
  else if geq score MEDIUM_CONFIDENCE then Medium
  else Low.

(** The body of the loop for one referral: [None] when the referral is
    skipped or scores below the minimum, the pushed result otherwise. *)
Definition scoreReferral (info : EncounterInfo) (referral : OpenReferral)
  : option MatchResult :=
  let targets := getTargetIdentifiers (serviceRequest referral) in
  if negb (truthyOpt (tOrgNpi targets))
     && negb (truthyOpt (tOrgName targets))
     && negb (truthyOpt (tPractitionerNpi targets))
  then None
  else
    let score := 0%Q in
    (* Organization NPI *)
    let hitOrgNpi := sameTruthy (tOrgNpi targets) (encOrgNpi info) in
    let score := if hitOrgNpi then (score + wOrgNpi WEIGHTS)%Q else score in
    (* Organization name *)
    let nameSim :=
      match tOrgName targets with
      | Some tn =>
          if truthy tn && truthy (encOrgName info)
          then Some (Fuzzy.fuzzyNameMatch tn (encOrgName info))
          else None
      | None => None
      end in
    let score :=
      match nameSim with
      | Some sim => (score + wOrgName WEIGHTS * sim)%Q
      | None => score
      end in
    (* Practitioner NPI *)
    let hitPract :=
      sameTruthy (tPractitionerNpi targets) (encPractNpi info) in
    let score :=
      if hitPract then (score + wPractitionerNpi WEIGHTS)%Q else score in
    (* Specialty *)
    let hitSpec := sameTruthy (tSpecialtyCode targets) (encSpecialty info) in
    let score := if hitSpec then (score + wSpecialty WEIGHTS)%Q else score in
    (* Date within window *)
    let hitDate :=
      match encDate info, srOccurrencePeriod (serviceRequest referral) with
      | Some d, Some w => truthy d && inWindow d w
      | _, _ => false
      end in
    let score :=
      if hitDate then (score + wDateInWindow WEIGHTS)%Q else score in
    if geq score MIN_SCORE_THRESHOLD then
      Some (mkMatchResult
              (srId (serviceRequest referral))
              (taskId (task referral))
              score
              (confidenceOf score)
              (mkSignals hitOrgNpi
                 (match nameSim with Some sim => sim | None => 0%Q end)
                 hitPract hitSpec hitDate))
    else None.

(** The loop: results are pushed in the order of the referrals. *)
Fixpoint scoreAll (info : EncounterInfo) (l : list OpenReferral)
  : list MatchResult :=
  match l with
  | [] => []
  | r :: rest =>
      match scoreReferral info r with
      | Some m => m :: scoreAll info rest
      | None => scoreAll info rest
      end
  end.

(** [results.sort((a, b) => b.score - a.score)]: a stable sort by
    descending score.  An element moves past those that score strictly
    higher and stays before the others. *)
Fixpoint insertDesc (x : MatchResult) (l : list MatchResult)
  : list MatchResult :=
  match l with
  | [] => [x]
  | y :: r =>
      if Qle_bool (score y) (score x) then x :: y :: r
      else y :: insertDesc x r
  end.

Fixpoint sortDesc (l : list MatchResult) : list MatchResult :=
  match l with
  | [] => []
  | x :: r => insertDesc x (sortDesc r)
  end.

Definition matchEncounterToReferrals (encounter : Encounter)
    (openReferrals : list OpenReferral) (context : MatchContext)
  : list MatchResult :=
  match serviceProvider encounter with
  | None => []
  | Some sp =>
      sortDesc (scoreAll (encounterInfo encounter sp context) openReferrals)
  end.

End Engine.

(* ------------------------------------------------------------------ *)
(** ** store.ts *)
(* ------------------------------------------------------------------ *)

Module Store.
Import Text Fhir.

Record BrokerSession := mkBrokerSession {
  brokerId : option string;
  sourceId : option string;
  accessToken : option string;
  subscriptionId : option string;
  bsPatientId : string
}.

(** A server-sent event handed to [broadcast]. *)
Inductive Broadcast :=
| ToPatient (type encounterId : string) (encounter : Encounter)
    (patientId : string)
| ToPhysician (type encounterId : string) (encounter : Encounter)
    (matchResult : option Engine.MatchResult) (taskId : option string).

(** The process-wide collections the pipeline reads and writes, and the
    events it has broadcast so far. *)
Record t := mkStore {
  practitioners : JsMap.t Practitioner;
  organizations : JsMap.t Organization;
  practitionerRoles : JsMap.t PractitionerRole;
  serviceRequests : JsMap.t ServiceRequest;
  tasks : JsMap.t Task;
  encounters : JsMap.t Encounter;
  sharingPreferences : JsMap.t SharingPreference;
  routedEvents : list RoutedEvent;
  brokerSessions : JsMap.t BrokerSession;
  broadcasts : list Broadcast
}.

Definition empty : t :=
  mkStore [] [] [] [] [] [] [] [] [] [].

Definition withTasks (s : t) (x : JsMap.t Task) : t :=
  mkStore (practitioners s) (organizations s) (practitionerRoles s)
    (serviceRequests s) x (encounters s) (sharingPreferences s)
    (routedEvents s) (brokerSessions s) (broadcasts s).

Definition withEncounters (s : t) (x : JsMap.t Encounter) : t :=
  mkStore (practitioners s) (organizations s) (practitionerRoles s)
    (serviceRequests s) (tasks s) x (sharingPreferences s)
    (routedEvents s) (brokerSessions s) (broadcasts s).

Definition withRoutedEvents (s : t) (x : list RoutedEvent) : t :=
  mkStore (practitioners s) (organizations s) (practitionerRoles s)
    (serviceRequests s) (tasks s) (encounters s) (sharingPreferences s)
    x (brokerSessions s) (broadcasts s).

(** [broadcast(...)]: the event is appended to the log. *)
Definition broadcast (s : t) (b : Broadcast) : t :=
  mkStore (practitioners s) (organizations s) (practitionerRoles s)
    (serviceRequests s) (tasks s) (encounters s) (sharingPreferences s)
    (routedEvents s) (brokerSessions s) (broadcasts s ++ [b]).

Definition optEqb (o : option string) (x : string) : bool :=
  match o with Some y => String.eqb y x | None => false end.

Fixpoint resolveIn (sessions : JsMap.t BrokerSession) (ehrPatientId : string)
  : option string :=
  match sessions with
  | [] => None
  | (patientId, session) :: r =>
      if optEqb (sourceId session) ehrPatientId then Some patientId
      else resolveIn r ehrPatientId
  end.

Definition resolvePatientId (s : t) (ehrPatientId : string) : string :=
  match resolveIn (brokerSessions s) ehrPatientId with
  | Some patientId => patientId
  | None => ehrPatientId
  end.

Definition isOpen (st : TaskStatus) : bool :=
  negb (taskStatusEqb st TCompleted)
  && negb (taskStatusEqb st TCancelled)
  && negb (taskStatusEqb st TFailed).

Definition forPatient (task : Task) (patientId : string) : bool :=
  match for_ task with
  | Some r => String.eqb (reference r) (String.append "Patient/" patientId)
  | None => false
  end.

Definition focusId (task : Task) : string :=
  match focus task with
  | Some r => removeFirst "ServiceRequest/" (reference r)
  | None => EmptyString
  end.

Fixpoint openReferralsIn (srs : JsMap.t ServiceRequest)
    (l : JsMap.t Task) (patientId : string) : list Engine.OpenReferral :=
  match l with
  | [] => []
  | (_, task) :: r =>
      if forPatient task patientId && isOpen (status task) then
        match JsMap.get srs (focusId task) with
        | Some sr =>
            Engine.mkOpenReferral sr task :: openReferralsIn srs r patientId
        | None => openReferralsIn srs r patientId
        end
      else openReferralsIn srs r patientId
  end.

Definition getOpenReferrals (s : t) (patientId : string)
  : list Engine.OpenReferral :=
  openReferralsIn (serviceRequests s) (tasks s) patientId.

Definition prefKey (patientId physicianRef : string) : string :=
  String.append patientId (String.append ":" physicianRef).

Definition getSharingPreference (s : t) (patientId physicianRef : string)
  : option SharingPreference :=
  JsMap.get (sharingPreferences s) (prefKey patientId physicianRef).

Definition setSharingPreference (s : t) (pref : SharingPreference) : t :=
  mkStore (practitioners s) (organizations s) (practitionerRoles s)
    (serviceRequests s) (tasks s) (encounters s)
    (JsMap.set (sharingPreferences s)
       (prefKey (spPatientId pref) (spPhysicianRef pref)) pref)
    (routedEvents s) (brokerSessions s) (broadcasts s).

End Store.

(* ------------------------------------------------------------------ *)
(** ** portal/routing.ts: consent, routing and the task life cycle *)
(* ------------------------------------------------------------------ *)

Module Routing.
Import Text Fhir Engine Store.

Definition AUTO_LINK_THRESHOLD : Q := 70 # 100.

Record ProcessEncounterResult := mkResult {
  resEncounterId : string;
  resPatientId : string;
  matchResults : list MatchResult;
  bestMatch : option MatchResult;
  routed : bool;
  routedTo : option string;
  taskUpdated : option string;
  reason : string
}.

(** One reading of the wall clock: [Date.now()] and
    [new Date().toISOString()]. *)
Record Clock := mkClock {
  nowMs : N;
  nowIso : string
}.

Definition npiOf (ids : option (list Identifier)) : option string :=
  andThen (andThen ids (find (fun i => String.eqb (idSystem i) NPI_SYSTEM)))
          (fun i => Some (idValue i)).

Fixpoint specialtyIn (roles : JsMap.t PractitionerRole) (ref : string)
  : option string :=
  match roles with
  | [] => None
  | (_, role) :: r =>
      if String.eqb (reference (rolePractitioner role)) ref then
        andThen (andThen (andThen (andThen (roleSpecialty role)
                                     (@hd_error CodeableConcept))
                            coding)
                   (@hd_error Coding))
                (fun c => Some (code c))
      else specialtyIn r ref
  end.

Definition buildMatchContext (s : Store.t) : MatchContext :=
  mkMatchContext
    (Some (fun ref =>
       let id := removeFirst "Organization/" ref in
       andThen (JsMap.get (organizations s) id)
               (fun org => npiOf (orgIdentifier org))))
    (Some (fun ref =>
       let id := removeFirst "Practitioner/" ref in
       andThen (JsMap.get (practitioners s) id)
               (fun pract => npiOf (prIdentifier pract))))
    (Some (fun ref => specialtyIn (practitionerRoles s) ref)).

Definition TRACKING_SYSTEM : string :=
  "http://example.org/fhir/CodeSystem/referral-tracking-status".

Definition trackingStatus (c d : string) : CodeableConcept :=
  mkCodeableConcept (Some [mkCoding (Some TRACKING_SYSTEM) c (Some d)]) None.

Definition setLastModified (t : Task) (x : option string) : Task :=
  mkTask (taskId t) (status t) (intent t) (taskCode t) (focus t) (for_ t)
    (taskRequester t) (owner t) (authoredOn t) x (restriction t)
    (businessStatus t) (output t).

Definition setStatus (t : Task) (st : TaskStatus)
    (bs : option CodeableConcept) : Task :=
  mkTask (taskId t) st (intent t) (taskCode t) (focus t) (for_ t)
    (taskRequester t) (owner t) (authoredOn t) (lastModified t)
    (restriction t) bs (output t).

Definition setOutput (t : Task) (o : option (list TaskOutput)) : Task :=
  mkTask (taskId t) (status t) (intent t) (taskCode t) (focus t) (for_ t)
    (taskRequester t) (owner t) (authoredOn t) (lastModified t)
    (restriction t) (businessStatus t) o.

Definition matchedOutput (encounter : Encounter) : TaskOutput :=
  mkTaskOutput
    (mkCodeableConcept None (Some "Matched Encounter"))
    (Some (mkReference
             (String.append "Encounter/" (encId encounter))
             (Some (String.append (code (class encounter)) " encounter"))
             None)).

(** What [updateTaskForEncounter] does to the task object once the
    guard has let it through. *)
Definition advanceTask (task : Task) (encounter : Encounter) (now : string)
  : Task :=
  let task := setLastModified task (Some now) in
  match encStatus encounter with
  | EPlanned =>
      setStatus task TInProgress
        (Some (trackingStatus "appointment-scheduled"
                              "Appointment Scheduled"))
  | EInProgress | EArrived | ETriaged =>
      setStatus task TInProgress
        (Some (trackingStatus "encounter-in-progress"
                              "Encounter In Progress"))
  | EFinished =>
      let task :=
        setStatus task TCompleted
          (Some (trackingStatus "loop-closed" "Loop Closed")) in
      let out := match output task with Some o => o | None => [] end in
      setOutput task (Some (out ++ [matchedOutput encounter]))
  | EOnleave | ECancelled => task
  end.

(** [updateTaskForEncounter(taskId, encounter, _matchResult)] on the
    [tasks] map; [now] is the clock reading.  The task object is mutated
    in place, so its entry keeps its position. *)
Definition updateTaskForEncounter (tasks : JsMap.t Task) (taskId : string)
    (encounter : Encounter) (now : string) : JsMap.t Task :=
  match JsMap.get tasks taskId with
  | None => tasks
  | Some task =>
      if taskStatusEqb (status task) TCompleted
         || taskStatusEqb (status task) TFailed
      then tasks
      else JsMap.set tasks taskId (advanceTask task encounter now)
  end.

Definition dueDate (task : Task) : option string :=
  andThen (andThen (restriction task) restrPeriod) periodEnd.

Definition isOverdue (task : Task) (now : string) : bool :=
  match dueDate task with
  | Some d => truthy d && gt now d
  | None => false
  end.

Definition skipped (task : Task) : bool :=
  taskStatusEqb (status task) TCompleted
  || taskStatusEqb (status task) TFailed
  || taskStatusEqb (status task) TCancelled.

Definition markOverdue (task : Task) (now : string) : Task :=
  setLastModified
    (setStatus task TFailed (Some (trackingStatus "overdue" "Overdue")))
    (Some now).

(** [checkOverdueTasks()]: one pass over the [tasks] map in insertion
    order; returns the identifiers pushed and the map after the pass. *)
Fixpoint checkOverdueTasks (tasks : JsMap.t Task) (now : string)
  : list string * JsMap.t Task :=
  match tasks with
  | [] => ([], [])
  | (id, task) :: r =>
      let (ids, r') := checkOverdueTasks r now in
      if skipped task then (ids, (id, task) :: r')
      else if isOverdue task now
           then (id :: ids, (id, markOverdue task now) :: r')
           else (ids, (id, task) :: r')
  end.

(** [n.toFixed(2)] *)
Definition toFixed2 (x : Q) : string :=
  let d := Z.pos (Qden x) in
  let n := Z.to_N ((200 * Z.abs (Qnum x) + d) / (2 * d)) in
  let frac := (n mod 100)%N in
  String.append (if (Qnum x <? 0)%Z then "-" else EmptyString)
    (String.append (decimal (n / 100)%N)
       (String "."
          (String (digitChar (frac / 10)%N)
             (String (digitChar (frac mod 10)%N) EmptyString)))).

(** [l.findIndex(p)], with [None] for -1. *)
Fixpoint findIndex {A : Type} (p : A -> bool) (l : list A) : option nat :=
  match l with
  | [] => None
  | x :: r =>
      if p x then Some 0
      else match findIndex p r with Some i => Some (S i) | None => None end
  end.

(** [l[i] = x] for an index inside the array. *)
Fixpoint setAt {A : Type} (l : list A) (i : nat) (x : A) : list A :=
  match l, i with
  | [], _ => []
  | _ :: r, O => x :: r
  | y :: r, S j => y :: setAt r j x
  end.

Definition upsertRoutedEvent (events : list RoutedEvent) (event : RoutedEvent)
  : list RoutedEvent :=
  match findIndex
          (fun e => String.eqb (reEncounterId e) (reEncounterId event))
          events with
  | Some existingIdx => setAt events existingIdx event
  | None => events ++ [event]
  end.

(** The routing decision of step 6: [(routed, reason)]. *)
Definition decide (pref : option SharingPreference)
    (bestMatch : option MatchResult) : bool * string :=
  match pref with
  | None => (false, "No active sharing preference")
  | Some p =>
      if negb (active p) then (false, "No active sharing preference")
      else
        match mode p with
        | AllEncounters => (true, "Patient selected 'share all encounters'")
        | ReferralsOnly =>
            match bestMatch with
            | Some m =>
                (true,
                 String.append "Matched referral "
                   (String.append (serviceRequestId m)
                      (String.append " (score: "
                         (String.append (toFixed2 (score m)) ")"))))
            | None => (false, "No referral match found (referrals-only mode)")
            end
        end
  end.

Definition processEncounter (clock : Clock) (encounter : Encounter)
    (s : Store.t) : ProcessEncounterResult * Store.t :=
  let rawPatientId := removeFirst "Patient/" (reference (subject encounter)) in
  let patientId := resolvePatientId s rawPatientId in
  let encounter :=
    if negb (String.eqb patientId rawPatientId) then
      mkEncounter (encId encounter) (encMeta encounter)
        (encStatus encounter) (class encounter) (encType encounter)
        (mkReference (String.append "Patient/" patientId) None None)
        (participant encounter) (period encounter) (reasonCode encounter)
        (serviceProvider encounter)
    else encounter in
  (* 1. store the encounter *)
  let isUpdate := JsMap.has (encounters s) (encId encounter) in
  let s := withEncounters s
             (JsMap.set (encounters s) (encId encounter) encounter) in
  (* 2. broadcast to the patient portal *)
  let s := broadcast s
             (ToPatient
                (if isUpdate then "encounter-updated" else "encounter-stored")
                (encId encounter) encounter patientId) in
  (* 3. run the matching engine against the open referrals *)
  let openReferrals := getOpenReferrals s patientId in
  let context := buildMatchContext s in
  let matchResults :=
    matchEncounterToReferrals encounter openReferrals context in
  let bestMatch :=
    match matchResults with
    | m :: _ => if geq (score m) AUTO_LINK_THRESHOLD then Some m else None
    | [] => None
    end in
  (* 4. update the task of the best match *)
  let s :=
    match bestMatch with
    | Some m =>
        withTasks s
          (updateTaskForEncounter (tasks s) (mrTaskId m) encounter
             (nowIso clock))
    | None => s
    end in
  let taskUpdated :=
    match bestMatch with Some m => Some (mrTaskId m) | None => None end in
  (* 5. the requester of the first open referral *)
  let physicianRef :=
    match openReferrals with
    | r :: _ =>
        andThen (srRequester (serviceRequest r))
                (fun q => Some (reference q))
    | [] => None
    end in
  (* 6. sharing preference and decision *)
  let pref :=
    match physicianRef with
    | Some p => if truthy p then getSharingPreference s patientId p else None
    | None => None
    end in
  let (routed, reason) := decide pref bestMatch in
  (* 7. record the routed event and broadcast to the physician *)
  let s :=
    match physicianRef with
    | Some p =>
        if routed && truthy p then
          let event :=
            mkRoutedEvent
              (String.append "route-" (decimal (nowMs clock)))
              (encId encounter) patientId p
              (andThen bestMatch (fun m => Some (mrTaskId m)))
              (andThen bestMatch (fun m => Some (score m)))
              (nowIso clock) encounter in
          let s := withRoutedEvents s
                     (upsertRoutedEvent (routedEvents s) event) in
          broadcast s
            (ToPhysician
               (if isUpdate then "encounter-updated" else "encounter-routed")
               (encId encounter) encounter bestMatch taskUpdated)
        else s
    | None => s
    end in
  (mkResult (encId encounter) patientId matchResults bestMatch routed
     (if routed then physicianRef else None) taskUpdated reason,
   s).

(** A run of the pipeline over a list of deliveries, each with its own
    clock reading; the results are returned in delivery order. *)
Fixpoint processAll (l : list (Clock * Encounter)) (s : Store.t)
  : list ProcessEncounterResult * Store.t :=
  match l with
  | [] => ([], s)
  | (clock, encounter) :: rest =>
      let (r, s1) := processEncounter clock encounter s in
      let (rs, s2) := processAll rest s1 in
      (r :: rs, s2)
  end.

End Routing.

(* ------------------------------------------------------------------ *)
(** ** Sample data, after the seed of the test suite *)
(* ------------------------------------------------------------------ *)

Module Sample.
Import Fhir Engine Store Routing.

Definition ref (r : string) : Reference := mkReference r None None.

Definition orgValley : Organization :=
  mkOrganization "org-valley"
    (Some [mkIdentifier NPI_SYSTEM "1122334455"]) "Valley Cardiology".

Definition drSmith : Practitioner :=
  mkPractitioner "dr-smith" (Some [mkIdentifier NPI_SYSTEM "1234567890"]).

Definition drJohnson : Practitioner :=
  mkPractitioner "dr-johnson" (Some [mkIdentifier NPI_SYSTEM "9876543210"]).

Definition roleCardio : PractitionerRole :=
  mkPractitionerRole "role-cardio"
    (mkReference "Practitioner/dr-johnson" (Some "Dr. Sarah Johnson") None)
    (mkReference "Organization/org-valley" (Some "Valley Cardiology") None)
    (Some [mkCodeableConcept
             (Some [mkCoding (Some "http://nucc.org/provider-taxonomy")
                      "207RC0000X" (Some "Cardiovascular Disease")])
             None]).

Definition referral001 : ServiceRequest :=
  mkServiceRequest "referral-001"
    (ref "Patient/patient-001")
    (Some (mkReference "Practitioner/dr-smith" (Some "Dr. Robert Smith") None))
    (Some "2026-02-01T10:30:00Z")
    (Some (mkPeriod (Some "2026-02-01") (Some "2026-04-01")))
    (Some
       [ mkExtension
           "http://example.org/fhir/StructureDefinition/referral-origin-method"
           (Some "fax") None None None;
         mkExtension TARGET_URL None None None
           (Some
              [ mkExtension "organizationNpi" None (Some "1122334455")
                  None None;
                mkExtension "organizationName" None
                  (Some "Valley Cardiology") None None;
                mkExtension "practitionerNpi" None (Some "9876543210")
                  None None;
                mkExtension "specialty" None None
                  (Some (mkCoding (Some "http://nucc.org/provider-taxonomy")
                           "207RC0000X" (Some "Cardiovascular Disease")))
                  None ]) ]).

Definition task001 : Task :=
  mkTask "task-001" TRequested IOrder None
    (Some (ref "ServiceRequest/referral-001"))
    (Some (ref "Patient/patient-001"))
    (Some (mkReference "Practitioner/dr-smith" (Some "Dr. Robert Smith") None))
    (Some (mkReference "Organization/org-valley" (Some "Valley Cardiology")
             None))
    (Some "2026-02-01T10:30:00Z")
    (Some "2026-02-01T10:30:00Z")
    (Some (mkRestriction (Some (mkPeriod None (Some "2026-04-01")))))
    (Some (trackingStatus "awaiting-scheduling" "Awaiting Scheduling"))
    None.

Definition seeded : Store.t :=
  mkStore
    [("dr-smith", drSmith); ("dr-johnson", drJohnson)]
    [("org-valley", orgValley)]
    [("role-cardio", roleCardio)]
    [("referral-001", referral001)]
    [("task-001", task001)]
    [] [] [] [] [].

Definition referralsOnly : SharingPreference :=
  mkSharingPreference "patient-001" "Practitioner/dr-smith" ReferralsOnly
    "2026-02-01T12:00:00.000Z" true.

Definition allEncounters : SharingPreference :=
  mkSharingPreference "patient-001" "Practitioner/dr-smith" AllEncounters
    "2026-02-01T12:00:00.000Z" true.

Definition ambulatory : Coding :=
  mkCoding (Some "http://terminology.hl7.org/CodeSystem/v3-ActCode")
    "AMB" (Some "ambulatory").

(** An encounter at Valley Cardiology with Dr. Johnson. *)
Definition visit (id patient : string) (st : EncounterStatus) : Encounter :=
  mkEncounter id
    (Some (mkMeta (Some
       ["http://hl7.org/fhir/us/core/StructureDefinition/us-core-encounter"])))
    st ambulatory None
    (mkReference (String.append "Patient/" patient) (Some "Alice Rodriguez")
       None)
    (Some [mkParticipant (Some (ref "Practitioner/dr-johnson"))])
    (Some (mkPeriod (Some "2026-02-15T09:00:00Z") None))
    None
    (Some (mkReference "Organization/org-valley" (Some "Valley Cardiology")
             None)).

(** The same visit without a servicing organization. *)
Definition visitNoProvider (id patient : string) (st : EncounterStatus)
  : Encounter :=
  mkEncounter id None st ambulatory None
    (ref (String.append "Patient/" patient))
    (Some [mkParticipant (Some (ref "Practitioner/dr-johnson"))])
    (Some (mkPeriod (Some "2026-02-15T09:00:00Z") None))
    None None.

Definition clock1 : Clock := mkClock 1771146000000%N "2026-02-15T09:00:00.000Z".
Definition clock2 : Clock := mkClock 1771146060000%N "2026-02-15T09:01:00.000Z".

(** A broker session that maps the upstream identifier of the patient to
    the canonical one. *)
Definition mercySession : BrokerSession :=
  mkBrokerSession (Some "broker-1") (Some "mercy-a1b2c3d") None None
    "patient-001".

Definition withSession (s : Store.t) : Store.t :=
  mkStore (practitioners s) (organizations s) (practitionerRoles s)
    (serviceRequests s) (tasks s) (encounters s) (sharingPreferences s)
    (routedEvents s) [("patient-001", mercySession)] (broadcasts s).

(** The seeded store with a referrals-only preference for Dr. Smith. *)
Definition consented : Store.t := setSharingPreference seeded referralsOnly.

(** What the scorer returns for a finished visit of the seeded patient. *)
Definition visitResults : list MatchResult :=
  matchEncounterToReferrals (visit "enc-1" "patient-001" EFinished)
    (getOpenReferrals seeded "patient-001") (buildMatchContext seeded).

Definition visitTop : MatchResult :=
  mkMatchResult "referral-001" "task-001" ((35 # 100) + (20 # 100) * 1
    + (25 # 100) + (10 # 100) + (10 # 100))%Q High
    (mkSignals true 1 true true true).

(** The referrals, encounters and lookups of the scorer's unit tests. *)
Definition target (u : string) (v : option string) : list Extension :=
  match v with
  | Some x => [mkExtension u None (Some x) None None]
  | None => []
  end.

Definition targetSpecialty (v : option string) : list Extension :=
  match v with
  | Some x =>
      [mkExtension "specialty" None None
         (Some (mkCoding (Some "http://nucc.org/provider-taxonomy") x (Some x)))
         None]
  | None => []
  end.

Definition testReferral (id : string)
    (orgNpi orgName practNpi specialty : option string)
    (window : option Period) : OpenReferral :=
  let subs :=
    target "organizationNpi" orgNpi ++ target "organizationName" orgName
    ++ target "practitionerNpi" practNpi ++ targetSpecialty specialty in
  mkOpenReferral
    (mkServiceRequest id (ref "Patient/pat-1") None (Some "2025-01-15") window
       (match subs with
        | [] => None
        | _ => Some [mkExtension TARGET_URL None None None (Some subs)]
        end))
    (mkTask (String.append "task-" id) TRequested IOrder None
       (Some (ref (String.append "ServiceRequest/" id)))
       (Some (ref "Patient/pat-1")) None None (Some "2025-01-15") None None
       None (Some [])).

Definition testEncounter (providerRef providerDisplay : string)
    (participantRef : option string) (start : string) : Encounter :=
  mkEncounter "enc-test" None EFinished ambulatory None (ref "Patient/pat-1")
    (match participantRef with
     | Some r => Some [mkParticipant (Some (ref r))]
     | None => None
     end)
    (Some (mkPeriod (Some start) (Some "2025-02-10T10:00:00Z")))
    None
    (Some (mkReference providerRef (Some providerDisplay) None)).

Definition testContext : MatchContext :=
  mkMatchContext
    (Some (fun r =>
       if String.eqb r "Organization/org-valley" then Some "1122334455"
       else if String.eqb r "Organization/org-unrelated" then Some "9999999999"
       else None))
    (Some (fun r =>
       if String.eqb r "Practitioner/pract-smith" then Some "9876543210"
       else None))
    (Some (fun r =>
       if String.eqb r "Practitioner/pract-smith" then Some "207RC0000X"
       else None)).

(** What a test looks at in a result. *)
Definition summary (m : MatchResult) : string * Confidence * Q :=
  (serviceRequestId m, confidence m, Qred (score m)).

End Sample.

(* ------------------------------------------------------------------ *)
(** ** Notions used to state the properties *)
(* ------------------------------------------------------------------ *)

Module Notions.
Import Text Fhir Engine Store Routing.

(** An encounter status outside the set handled by the life cycle. *)
Definition unhandled (st : EncounterStatus) : bool :=
  match st with
  | EOnleave | ECancelled => true
  | _ => false
  end.

(** The patient identifier carried by the encounter, and the canonical
    one it resolves to. *)
Definition rawPatientId (e : Encounter) : string :=
  removeFirst "Patient/" (reference (subject e)).

Definition canonicalId (s : Store.t) (e : Encounter) : string :=
  resolvePatientId s (rawPatientId e).

Definition withSubject (e : Encounter) (r : Reference) : Encounter :=
  mkEncounter (encId e) (encMeta e) (encStatus e) (class e) (encType e) r
    (participant e) (period e) (reasonCode e) (serviceProvider e).

(** The encounter as the pipeline stores and scores it. *)
Definition persisted (s : Store.t) (e : Encounter) : Encounter :=
  if negb (String.eqb (canonicalId s e) (rawPatientId e))
  then withSubject e
         (mkReference (String.append "Patient/" (canonicalId s e)) None None)
  else e.

(** The first result, when it reaches the auto-link threshold. *)
Definition bestOf (results : list MatchResult) : option MatchResult :=
  match results with
  | m :: _ => if geq (score m) AUTO_LINK_THRESHOLD then Some m else None
  | [] => None
  end.

(** The requester of the first open referral. *)
Definition physicianOf (refs : list OpenReferral) : option string :=
  match refs with
  | r :: _ =>
      andThen (srRequester (serviceRequest r)) (fun q => Some (reference q))
  | [] => None
  end.

Definition prefOf (s : Store.t) (patientId : string)
    (physicianRef : option string) : option SharingPreference :=
  match physicianRef with
  | Some p => if truthy p then getSharingPreference s patientId p else None
  | None => None
  end.

Definition eventOf (clock : Clock) (e : Encounter) (patientId p : string)
    (best : option MatchResult) : RoutedEvent :=
  mkRoutedEvent (String.append "route-" (decimal (nowMs clock)))
    (encId e) patientId p
    (andThen best (fun m => Some (mrTaskId m)))
    (andThen best (fun m => Some (score m)))
    (nowIso clock) e.

(** The head of a list of results scores at least as high as every
    element. *)
Definition headIsTop (l : list MatchResult) : Prop :=
  match l with
  | [] => True
  | h :: _ => forall m, In m l -> (score m <= score h)%Q
  end.

(** A routed event for an encounter identifier is in the list. *)
Definition hasRoutedEvent (events : list RoutedEvent) (id : string) : bool :=
  existsb (fun ev => String.eqb (reEncounterId ev) id) events.

(** The decision of the most recent evaluation for an encounter
    identifier, in a list of results in delivery order. *)
Fixpoint lastDecision (id : string) (rs : list ProcessEncounterResult)
  : option bool :=
  match rs with
  | [] => None
  | r :: rest =>
      match lastDecision id rest with
      | Some d => Some d
      | None =>
          if String.eqb (resEncounterId r) id then Some (routed r) else None
      end
  end.

End Notions.

(* ------------------------------------------------------------------ *)
(** ** The recurrence behind the edit distance *)
(* ------------------------------------------------------------------ *)

Module EditDistance.


(** The recurrence that the dynamic programme tabulates, on the two
    prefixes read so far, most recent character first. *)
Fixpoint distance (ra : list ascii) : list ascii -> nat :=
  fix inner (rb : list ascii) : nat :=
    match ra, rb with
    | [], _ => List.length rb
    | _, [] => List.length ra
    | x :: ra', y :: rb' =>
        if Ascii.eqb x y then distance ra' rb'
        else 1 + Nat.min (distance ra' rb')
                   (Nat.min (distance ra' rb) (inner rb'))
    end.

(** The prefixes of [b] that properly extend [pb], shortest first, each
    with its most recent character first. *)
Fixpoint extensions (pb : list ascii) (b : string) : list (list ascii) :=
  match b with
  | EmptyString => []
  | String y b' => (y :: pb) :: extensions (y :: pb) b'
  end.

(** The characters of a string, last first, in front of [acc]. *)
Fixpoint reversed (acc : list ascii) (s : string) : list ascii :=
  match s with
  | EmptyString => acc
  | String c r => reversed (c :: acc) r
  end.

End EditDistance.

(* ------------------------------------------------------------------ *)
(** ** Character classes of the normalisation *)
(* ------------------------------------------------------------------ *)

Module Chars.

Import Text.


(** Every character of a string satisfies a test. *)
Fixpoint allChars (p : ascii -> bool) (s : string) : bool :=
  match s with
  | EmptyString => true
  | String c r => p c && allChars p r
  end.

(** Whitespace or one of the punctuation marks that [normalizeName]
    blanks out. *)
Definition blank (c : ascii) : bool := isSpace c || Fuzzy.isPunct c.

Definition notSpace (c : ascii) : bool := negb (isSpace c).

(** A character that [normalizeName] leaves alone: already lower case
    and no punctuation mark. *)
Definition settled (c : ascii) : bool :=
  Ascii.eqb (toLowerChar c) c && negb (Fuzzy.isPunct c).

Definition notStripped (t : string) : bool :=
  negb (includes Fuzzy.STRIP_TERMS t).

(** A string that is empty or starts with whitespace. *)
Definition startsBlankOrEnds (s : string) : Prop :=
  match s with
  | EmptyString => True
  | String d _ => isSpace d = true
  end.

End Chars.

(* ------------------------------------------------------------------ *)
(** ** Signals and weights *)
(* ------------------------------------------------------------------ *)

Module Weighted.

Import Text Fhir Engine.


(** A boolean signal as a number. *)
Definition indicator (b : bool) : Q := if b then 1%Q else 0%Q.

(** The weighted sum of the five signals of a result. *)
Definition weightedSum (g : Signals) : Q :=
  (wOrgNpi WEIGHTS * indicator (sigOrgNpi g)
   + wOrgName WEIGHTS * sigOrgName g
   + wPractitionerNpi WEIGHTS * indicator (sigPractitionerNpi g)
   + wSpecialty WEIGHTS * indicator (sigSpecialty g)
   + wDateInWindow WEIGHTS * indicator (sigDateInWindow g))%Q.

(** The referral names at least one of the three identifiers that make
    it matchable. *)
Definition matchable (r : OpenReferral) : bool :=
  let targets := getTargetIdentifiers (serviceRequest r) in
  truthyOpt (tOrgNpi targets) || truthyOpt (tOrgName targets)
  || truthyOpt (tPractitionerNpi targets).

End Weighted.

(* ------------------------------------------------------------------ *)
(** ** fhir/resources.ts: the referral and its tracking task *)
(* ------------------------------------------------------------------ *)

Module Resources.

Import Text Fhir Engine Store Routing.


Record MakeServiceRequestInput := mkServiceRequestInput {
  msrId : string;
  msrPatientId : string;
  msrRequesterId : string;
  msrRequesterDisplay : string;
  performerRoleId : option string;
  performerDisplay : option string;
  msrReasonCode : string;
  reasonDisplay : string;
  procedureCode : option string;
  procedureDisplay : option string;
  codeText : string;
  msrAuthoredOn : string;
  occurrenceStart : string;
  occurrenceEnd : string;
  notes : option string;
  originMethod : option string;
  targetOrgNpi : option string;
  targetOrgName : option string;
  targetPractitionerNpi : option string;
  targetSpecialtyCode : option string;
  targetSpecialtyDisplay : option string
}.

(** [if (v) list.push(f(v))] on an optional string. *)
Definition pushIf (v : option string) (f : string -> Extension)
  : list Extension :=
  match v with
  | Some x => if truthy x then [f x] else []
  | None => []
  end.

Definition ORIGIN_URL : string :=
  "http://example.org/fhir/StructureDefinition/referral-origin-method".

(** [makeServiceRequest(input)].  The fields of the resource that
    [ServiceRequest] does not carry (status, intent, category, code,
    performer, reasonCode, note) are not built. *)
Definition makeServiceRequest (input : MakeServiceRequestInput)
  : ServiceRequest :=
  let origin :=
    pushIf (originMethod input)
      (fun v => mkExtension ORIGIN_URL (Some v) None None None) in
  let targetExtensions :=
    pushIf (targetOrgNpi input)
      (fun v => mkExtension "organizationNpi" None (Some v) None None)
    ++ pushIf (targetOrgName input)
      (fun v => mkExtension "organizationName" None (Some v) None None)
    ++ pushIf (targetPractitionerNpi input)
      (fun v => mkExtension "practitionerNpi" None (Some v) None None)
    ++ pushIf (targetSpecialtyCode input)
      (fun v => mkExtension "specialty" None None
                  (Some (mkCoding (Some "http://nucc.org/provider-taxonomy")
                           v (targetSpecialtyDisplay input)))
                  None) in
  let extensions :=
    origin
    ++ (if 0 <? List.length targetExtensions
        then [mkExtension TARGET_URL None None None (Some targetExtensions)]
        else []) in
  mkServiceRequest (msrId input)
    (mkReference (String.append "Patient/" (msrPatientId input)) None None)
    (Some (mkReference (String.append "Practitioner/" (msrRequesterId input))
             (Some (msrRequesterDisplay input)) None))
    (Some (msrAuthoredOn input))
    (Some (mkPeriod (Some (occurrenceStart input))
             (Some (occurrenceEnd input))))
    (if 0 <? List.length extensions then Some extensions else None).

Record MakeTaskInput := mkTaskInput {
  mtId : string;
  mtServiceRequestId : string;
  mtPatientId : string;
  mtRequesterId : string;
  mtRequesterDisplay : option string;
  mtOwnerId : string;
  mtOwnerDisplay : option string;
  mtAuthoredOn : string;
  mtDueDate : string
}.

(** [makeTask(input)] *)
Definition makeTask (input : MakeTaskInput) : Task :=
  mkTask (mtId input) TRequested IOrder
    (Some (mkCodeableConcept
             (Some [mkCoding (Some "http://hl7.org/fhir/CodeSystem/task-code")
                      "fulfill" None])
             None))
    (Some (mkReference
             (String.append "ServiceRequest/" (mtServiceRequestId input))
             None None))
    (Some (mkReference (String.append "Patient/" (mtPatientId input))
             None None))
    (Some (mkReference (String.append "Practitioner/" (mtRequesterId input))
             (mtRequesterDisplay input) None))
    (Some (mkReference (String.append "Organization/" (mtOwnerId input))
             (mtOwnerDisplay input) None))
    (Some (mtAuthoredOn input))
    (Some (mtAuthoredOn input))
    (Some (mkRestriction (Some (mkPeriod None (Some (mtDueDate input))))))
    (Some (trackingStatus "awaiting-scheduling" "Awaiting Scheduling"))
    (Some []).

(** [serviceRequests.set(sr.id, sr); tasks.set(task.id, task)]: how the
    seed and the physician's referral form file a referral. *)
Definition fileReferral (s : Store.t) (sr : ServiceRequest) (task : Task)
  : Store.t :=
  mkStore (practitioners s) (organizations s) (practitionerRoles s)
    (JsMap.set (serviceRequests s) (srId sr) sr)
    (JsMap.set (tasks s) (taskId task) task)
    (encounters s) (sharingPreferences s) (routedEvents s)
    (brokerSessions s) (broadcasts s).

(** An optional string as a condition sees it: present and non-empty. *)
Definition given (v : option string) : option string :=
  if truthyOpt v then v else None.

End Resources.

(* ------------------------------------------------------------------ *)
(** ** Keys and identifiers *)
(* ------------------------------------------------------------------ *)

Module Keys.

Import Fhir Chars.


(** The keys of a map, in insertion order. *)
Definition keys {V : Type} (m : JsMap.t V) : list string := map fst m.

(** No colon in an identifier. *)
Definition colonFree (s : string) : bool :=
  allChars (fun c => negb (Ascii.eqb c ":"%char)) s.

(** A task whose status takes it out of the open referrals. *)
Definition closed (st : TaskStatus) : bool :=
  match st with
  | TCompleted | TFailed | TCancelled => true
  | _ => false
  end.

End Keys.

(* ------------------------------------------------------------------ *)
(** ** What the stores keep *)
(* ------------------------------------------------------------------ *)

Module Invariants.

Import Text Fhir Engine Store Routing Keys.


(** Every task is stored once, under its own identifier. *)
Definition ownKeys (tasks : JsMap.t Task) : Prop :=
  NoDup (keys tasks) /\ Forall (fun kt => taskId (snd kt) = fst kt) tasks.

(** What the stores look like when every write goes through
    [tasks.set(task.id, task)], [encounters.set(encounter.id, encounter)]
    and the upsert of routed events. *)
Definition consistent (s : Store.t) : Prop :=
  ownKeys (tasks s)
  /\ NoDup (keys (encounters s))
  /\ Forall (fun ke => encId (snd ke) = fst ke) (encounters s)
  /\ NoDup (map reEncounterId (routedEvents s)).

(** The store with other sharing preferences. *)
Definition withPreferences (s : Store.t) (x : JsMap.t SharingPreference)
  : Store.t :=
  mkStore (practitioners s) (organizations s) (practitionerRoles s)
    (serviceRequests s) (tasks s) (encounters s) x
    (routedEvents s) (brokerSessions s) (broadcasts s).

(** The sweep touches a task that is open and past its due date. *)
Definition due (now : string) (task : Task) : bool :=
  negb (skipped task) && isOverdue task now.

End Invariants.

(* ------------------------------------------------------------------ *)
(** ** shared/sse.ts: fan-out to the connected clients *)
(* ------------------------------------------------------------------ *)

Module Sse.

Import Text.


Inductive Channel := PatientChannel | PhysicianChannel.

Definition channelEqb (a b : Channel) : bool :=
  match a, b with
  | PatientChannel, PatientChannel | PhysicianChannel, PhysicianChannel => true
  | _, _ => false
  end.

(** The controller of a client's stream: the chunks enqueued so far, and
    whether the stream still takes chunks.  [enqueue] throws once it does
    not. *)
Record Controller := mkController {
  accepting : bool;
  chunks : list string
}.

Record SSEClient := mkClient {
  clientId : string;
  controller : Controller;
  channel : Channel;
  clientPatientId : option string
}.

(** [controller.enqueue(chunk)], with [None] for the exception. *)
Definition enqueue (c : Controller) (chunk : string) : option Controller :=
  if accepting c then Some (mkController true (chunks c ++ [chunk]))
  else None.

(** The two [continue] tests of the loop. *)
Definition passedOver (client : SSEClient) (ch : Channel)
    (patientId : option string) : bool :=
  negb (channelEqb (channel client) ch)
  || match patientId, clientPatientId client with
     | Some p, Some q => truthy p && truthy q && negb (String.eqb q p)
     | _, _ => false
     end.

Definition message (data : string) : string :=
  String.append "data: "
    (String.append data
       (String (ascii_of_nat 10) (String (ascii_of_nat 10) EmptyString))).

Definition deliver (client : SSEClient) (msg : string) : SSEClient :=
  mkClient (clientId client)
    (mkController true (chunks (controller client) ++ [msg]))
    (channel client) (clientPatientId client).

(** [broadcast(channel, event, patientId)] on the array of clients;
    [data] is the JSON text of the event.  The loop runs from the last
    client to the first and splices out a client whose [enqueue] throws,
    so the clients behind it keep their places. *)
Fixpoint broadcast (clients : list SSEClient) (ch : Channel) (data : string)
    (patientId : option string) : list SSEClient :=
  match clients with
  | [] => []
  | client :: rest =>
      let rest' := broadcast rest ch data patientId in
      if passedOver client ch patientId then client :: rest'
      else
        match enqueue (controller client) (message data) with
        | Some _ => deliver client (message data) :: rest'
        | None => rest'
        end
  end.

End Sse.

(* ------------------------------------------------------------------ *)
(** ** Further sample data *)
(* ------------------------------------------------------------------ *)

Module Cases.

Import Fhir Engine Store Routing Resources.


(** The referral of the seed, as the physician's form would submit it. *)
Definition referralInput : MakeServiceRequestInput :=
  mkServiceRequestInput "referral-001" "patient-001" "dr-smith"
    "Dr. Robert Smith" None None "49436004" "Atrial fibrillation" None None
    "Cardiology consultation" "2026-02-01T10:30:00Z" "2026-02-01"
    "2026-04-01" None (Some "fax") (Some "1122334455")
    (Some "Valley Cardiology") (Some "9876543210") (Some "207RC0000X")
    (Some "Cardiovascular Disease").

Definition taskInput : MakeTaskInput :=
  mkTaskInput "task-001" "referral-001" "patient-001" "dr-smith"
    (Some "Dr. Robert Smith") "org-valley" (Some "Valley Cardiology")
    "2026-02-01T10:30:00Z" "2026-04-01".

(** A second referral of the same patient, withdrawn. *)
Definition withdrawn : Task :=
  mkTask "task-009" TCancelled IOrder None
    (Some (Sample.ref "ServiceRequest/referral-001"))
    (Some (Sample.ref "Patient/patient-001"))
    None None (Some "2026-01-05T08:00:00Z") (Some "2026-01-06T08:00:00Z")
    (Some (mkRestriction (Some (mkPeriod None (Some "2026-03-01")))))
    None None.

Definition twoTasks : Store.t :=
  withTasks Sample.consented
    [("task-001", Sample.task001); ("task-009", withdrawn)].

(** Three connected clients: the portal of two patients and the
    physician's dashboard. *)
Definition alice : Sse.SSEClient :=
  Sse.mkClient "sse-1" (Sse.mkController true []) Sse.PatientChannel
    (Some "patient-001").

Definition bob : Sse.SSEClient :=
  Sse.mkClient "sse-2" (Sse.mkController true []) Sse.PatientChannel
    (Some "patient-002").

Definition dashboard : Sse.SSEClient :=
  Sse.mkClient "sse-3" (Sse.mkController true []) Sse.PhysicianChannel None.

End Cases.

(* ------------------------------------------------------------------ *)
(** * Properties *)
(* ------------------------------------------------------------------ *)

Import Text Fhir Engine Store Routing Notions.

(** ** The unit tests of the repository, replayed on the model *)

Example replay_levenshtein :
  Fuzzy.levenshteinDistance "hello" "hello" = 0
  /\ Fuzzy.levenshteinDistance "cat" "bat" = 1
  /\ Fuzzy.levenshteinDistance "kitten" "sitting" = 3
  /\ Fuzzy.levenshteinDistance "" "abc" = 3.
Proof. repeat split; reflexivity. Qed.

Example replay_normalizeName :
  Fuzzy.normalizeName "Valley Cardiology Associates LLC" = "valley cardiology"
  /\ Fuzzy.normalizeName "St. Mary's Hospital" = "st mary s hospital"
  /\ Fuzzy.normalizeName "LLC Medical" = "llc medical".
Proof. repeat split; reflexivity. Qed.

Example replay_fuzzyNameMatch :
  Fuzzy.fuzzyNameMatch "Valley Cardiology" "Valley Cardiology" = 1%Q
  /\ Fuzzy.fuzzyNameMatch "valley cardiology" "Valley Cardiology" = 1%Q
  /\ geq (Fuzzy.fuzzyNameMatch "Valley Cardiology"
            "Valley Cardiology Associates LLC") (7 # 10) = true
  /\ geq (Fuzzy.fuzzyNameMatch "Valley Cardiology" "Metro Orthopedic Group")
         (3 # 10) = false
  /\ Qred (Fuzzy.fuzzyNameMatch "St. Mary's Hospital" "St Marys Hospital")
     = (17 # 18)%Q
  /\ geq (Fuzzy.fuzzyNameMatch "Valley Cardiology Associates"
            "Valley Cardiology") (8 # 10) = true.
Proof. repeat split; reflexivity. Qed.

(** Organization identifier and name agree: 0.35 + 0.20, medium. *)
Example replay_identifier_and_name :
  map Sample.summary
    (matchEncounterToReferrals
       (Sample.testEncounter "Organization/org-valley" "Valley Cardiology"
          None "2025-02-10T09:00:00Z")
       [Sample.testReferral "sr-1" (Some "1122334455")
          (Some "Valley Cardiology") None None None]
       Sample.testContext)
  = [("sr-1", Medium, (11 # 20)%Q)].
Proof. reflexivity. Qed.

(** Every signal agrees: 1.00, high. *)
Example replay_full_match :
  map Sample.summary
    (matchEncounterToReferrals
       (Sample.testEncounter "Organization/org-valley" "Valley Cardiology"
          (Some "Practitioner/pract-smith") "2025-02-10T09:00:00Z")
       [Sample.testReferral "sr-1" (Some "1122334455")
          (Some "Valley Cardiology") (Some "9876543210") (Some "207RC0000X")
          (Some (mkPeriod (Some "2025-01-15") (Some "2025-06-15")))]
       Sample.testContext)
  = [("sr-1", High, 1%Q)].
Proof. reflexivity. Qed.

(** Only the name is targeted: 0.20 times the similarity, low. *)
Example replay_name_only :
  map Sample.summary
    (matchEncounterToReferrals
       (Sample.testEncounter "Organization/org-valley"
          "Valley Cardiology Associates LLC" None "2025-02-10T09:00:00Z")
       [Sample.testReferral "sr-1" None (Some "Valley Cardiology") None None
          None]
       emptyContext)
  = [("sr-1", Low, (1 # 5)%Q)].
Proof. reflexivity. Qed.

(** Nothing agrees: the result falls below the minimum and is dropped. *)
Example replay_unrelated :
  matchEncounterToReferrals
    (Sample.testEncounter "Organization/org-unrelated"
       "Metro Orthopedic Group" None "2025-02-10T09:00:00Z")
    [Sample.testReferral "sr-1" (Some "1122334455")
       (Some "Valley Cardiology") None None None]
    Sample.testContext
  = [].
Proof. reflexivity. Qed.

(** An encounter after the window loses the date signal. *)
Example replay_outside_window :
  map (fun m => (sigDateInWindow (signals m), Qred (score m)))
    (matchEncounterToReferrals
       (Sample.testEncounter "Organization/org-valley" "Valley Cardiology"
          None "2025-06-01T09:00:00Z")
       [Sample.testReferral "sr-1" (Some "1122334455")
          (Some "Valley Cardiology") None None
          (Some (mkPeriod (Some "2025-01-15") (Some "2025-02-15")))]
       Sample.testContext)
  = [(false, (11 # 20)%Q)].
Proof. reflexivity. Qed.

(** The stronger match comes first, whatever the order of the referrals. *)
Example replay_sorted :
  map serviceRequestId
    (matchEncounterToReferrals
       (Sample.testEncounter "Organization/org-valley" "Valley Cardiology"
          None "2025-02-10T09:00:00Z")
       [Sample.testReferral "sr-weak" None
          (Some "Valley Cardiology Associates") None None None;
        Sample.testReferral "sr-strong" (Some "1122334455")
          (Some "Valley Cardiology") None None None]
       Sample.testContext)
  = ["sr-strong"; "sr-weak"].
Proof. reflexivity. Qed.

(** A planned, then finished, visit drives the task to completion. *)
Example replay_lifecycle :
  let run :=
    processAll
      [(Sample.clock1, Sample.visit "enc-1" "patient-001" EPlanned);
       (Sample.clock2, Sample.visit "enc-1" "patient-001" EFinished)]
      Sample.consented in
  map routed (fst run) = [true; true]
  /\ map reEncounterId (routedEvents (snd run)) = ["enc-1"]
  /\ map fst (encounters (snd run)) = ["enc-1"]
  /\ andThen (JsMap.get (tasks (snd run)) "task-001")
       (fun t => Some (status t)) = Some TCompleted
  /\ map reason (fst run)
     = ["Matched referral referral-001 (score: 1.00)";
        "Matched referral referral-001 (score: 1.00)"].
Proof. vm_compute. repeat split; reflexivity. Qed.

(** ** The [tasks] map *)

Section JsMapFacts.
Context {V : Type}.

Lemma get_set_same (m : JsMap.t V) (k : string) (v : V) :
  JsMap.get (JsMap.set m k v) k = Some v.
Proof.
  induction m as [|[k' v'] m IH]; simpl.
  - now rewrite String.eqb_refl.
  - destruct (String.eqb k' k) eqn:E; simpl; rewrite E; auto.
Qed.

Lemma set_get_id (m : JsMap.t V) (k : string) (v : V) :
  JsMap.get m k = Some v -> JsMap.set m k v = m.
Proof.
  induction m as [|[k' v'] m IH]; simpl; [discriminate|].
  destruct (String.eqb k' k); intros H.
  - now inversion H.
  - now rewrite IH.
Qed.

End JsMapFacts.

(** ** Task life cycle *)

(** C2. A tracking record that is completed or failed is not touched by
    [updateTaskForEncounter]: the whole [tasks] map is returned as it was,
    so the status, the business status, the output list and the
    last-modified stamp of the record are the ones it had. *)
Theorem terminal_task_is_left_alone :
  forall (tasks : JsMap.t Task) (id : string) (task : Task)
         (encounter : Encounter) (now : string),
    JsMap.get tasks id = Some task ->
    status task = TCompleted \/ status task = TFailed ->
    let tasks' := updateTaskForEncounter tasks id encounter now in
    tasks' = tasks /\
    exists task',
      JsMap.get tasks' id = Some task' /\
      status task' = status task /\
      businessStatus task' = businessStatus task /\
      output task' = output task /\
      lastModified task' = lastModified task.
Proof.
  intros tasks id task encounter now Hget Hst tasks'.
  assert (E : tasks' = tasks).
  { unfold tasks', updateTaskForEncounter. rewrite Hget.
    destruct Hst as [-> | ->]; reflexivity. }
  split; [exact E|].
  exists task. rewrite E. auto.
Qed.

Lemma terminal_task_is_left_alone_witness :
  let done := setStatus Sample.task001 TCompleted None in
  let tasks := [("task-001", done)] in
  let tasks' :=
    updateTaskForEncounter tasks "task-001"
      (Sample.visit "enc-2" "patient-001" EFinished)
      "2026-03-01T00:00:00.000Z" in
  tasks' = tasks /\
  exists task',
    JsMap.get tasks' "task-001" = Some task' /\
    status task' = status done /\
    businessStatus task' = businessStatus done /\
    output task' = output done /\
    lastModified task' = lastModified done.
Proof.
  intros done tasks.
  apply (terminal_task_is_left_alone tasks "task-001" done).
  - reflexivity.
  - left. reflexivity.
Defined.

(** C4, as stated, fails: a requested record that meets a cancelled
    encounter gets a new last-modified stamp. *)
Lemma unhandled_status_restamps_the_record :
  let tasks := [("task-001", Sample.task001)] in
  let encounter := Sample.visit "enc-9" "patient-001" ECancelled in
  let tasks' :=
    updateTaskForEncounter tasks "task-001" encounter
      "2026-03-01T00:00:00.000Z" in
  status Sample.task001 = TRequested /\
  unhandled (encStatus encounter) = true /\
  tasks' <> tasks /\
  andThen (JsMap.get tasks "task-001") lastModified
    = Some "2026-02-01T10:30:00Z" /\
  andThen (JsMap.get tasks' "task-001") lastModified
    = Some "2026-03-01T00:00:00.000Z".
Proof.
  cbv zeta. repeat split; try reflexivity.
  intros H. discriminate H.
Qed.

(** C4, amended. When the record is in a non-terminal state (neither
    completed, failed nor cancelled) and the encounter status is outside
    the handled set, [updateTaskForEncounter] changes one field of one
    record: the last-modified stamp of the addressed record becomes the
    current time.  Its status, business status, output list and every
    other field stay as they were. *)
Theorem unhandled_status_only_restamps :
  forall (tasks : JsMap.t Task) (id : string) (task : Task)
         (encounter : Encounter) (now : string),
    JsMap.get tasks id = Some task ->
    status task <> TCompleted ->
    status task <> TFailed ->
    status task <> TCancelled ->
    unhandled (encStatus encounter) = true ->
    let tasks' := updateTaskForEncounter tasks id encounter now in
    tasks' = JsMap.set tasks id (setLastModified task (Some now)) /\
    exists task',
      JsMap.get tasks' id = Some task' /\
      lastModified task' = Some now /\
      status task' = status task /\
      businessStatus task' = businessStatus task /\
      output task' = output task /\
      taskId task' = taskId task /\
      intent task' = intent task /\
      taskCode task' = taskCode task /\
      focus task' = focus task /\
      for_ task' = for_ task /\
      taskRequester task' = taskRequester task /\
      owner task' = owner task /\
      authoredOn task' = authoredOn task /\
      restriction task' = restriction task.
Proof.
  intros tasks id task encounter now Hget Hc Hf Hx Hu tasks'.
  assert (E : tasks' = JsMap.set tasks id (setLastModified task (Some now))).
  { unfold tasks', updateTaskForEncounter. rewrite Hget.
    destruct (status task) eqn:Es; try congruence; simpl;
      unfold advanceTask; destruct (encStatus encounter);
      try discriminate Hu; reflexivity. }
  split; [exact E|].
  exists (setLastModified task (Some now)).
  rewrite E, get_set_same. simpl. repeat split; reflexivity.
Qed.

Lemma unhandled_status_only_restamps_witness :
  let tasks := [("task-001", Sample.task001)] in
  let encounter := Sample.visit "enc-9" "patient-001" EOnleave in
  let now := "2026-03-01T00:00:00.000Z" in
  let tasks' := updateTaskForEncounter tasks "task-001" encounter now in
  tasks' = JsMap.set tasks "task-001"
             (setLastModified Sample.task001 (Some now)) /\
  exists task',
    JsMap.get tasks' "task-001" = Some task' /\
    lastModified task' = Some now /\
    status task' = status Sample.task001 /\
    businessStatus task' = businessStatus Sample.task001 /\
    output task' = output Sample.task001 /\
    taskId task' = taskId Sample.task001 /\
    intent task' = intent Sample.task001 /\
    taskCode task' = taskCode Sample.task001 /\
    focus task' = focus Sample.task001 /\
    for_ task' = for_ Sample.task001 /\
    taskRequester task' = taskRequester Sample.task001 /\
    owner task' = owner Sample.task001 /\
    authoredOn task' = authoredOn Sample.task001 /\
    restriction task' = restriction Sample.task001.
Proof.
  intros tasks encounter now.
  apply (unhandled_status_only_restamps tasks "task-001" Sample.task001
           encounter now).
  - reflexivity.
  - simpl. discriminate.
  - simpl. discriminate.
  - simpl. discriminate.
  - reflexivity.
Defined.

(** ** Overdue sweep *)

Lemma marked_is_skipped (task : Task) (now : string) :
  skipped (markOverdue task now) = true.
Proof. reflexivity. Qed.

Lemma isOverdue_ignores_stamp (task : Task) (now : string) (x : option string) :
  isOverdue (setLastModified task x) now = isOverdue task now.
Proof. reflexivity. Qed.

Lemma sweep_again (tasks : JsMap.t Task) (now : string) :
  checkOverdueTasks (snd (checkOverdueTasks tasks now)) now
  = ([], snd (checkOverdueTasks tasks now)).
Proof.
  induction tasks as [|[id task] r IH]; simpl; [reflexivity|].
  destruct (checkOverdueTasks r now) as [ids r'] eqn:E. simpl in IH.
  destruct (skipped task) eqn:Hs; simpl.
  - now rewrite IH, Hs.
  - destruct (isOverdue task now) eqn:Ho; simpl.
    + now rewrite IH.
    + now rewrite IH, Hs, Ho.
Qed.

(** C5. [checkOverdueTasks] is idempotent at a fixed time: the pass that
    follows a pass, with the same clock reading, returns the empty list
    (so none of the identifiers just reported) and the [tasks] map it was
    given. *)
Theorem sweep_is_idempotent :
  forall (tasks : JsMap.t Task) (now : string),
    let first := checkOverdueTasks tasks now in
    let second := checkOverdueTasks (snd first) now in
    snd second = snd first /\
    fst second = [] /\
    forall id, In id (fst first) -> ~ In id (fst second).
Proof.
  intros tasks now first second.
  unfold second, first. rewrite sweep_again. simpl.
  repeat split. intros id _ [].
Qed.

Lemma sweep_is_idempotent_witness :
  let tasks := [("task-001", Sample.task001)] in
  let now := "2026-05-01T00:00:00.000Z" in
  let first := checkOverdueTasks tasks now in
  let second := checkOverdueTasks (snd first) now in
  fst first = ["task-001"] /\
  andThen (JsMap.get (snd first) "task-001") (fun t => Some (status t))
    = Some TFailed /\
  snd second = snd first /\
  fst second = [] /\
  ~ In "task-001" (fst second).
Proof.
  intros tasks now.
  destruct (sweep_is_idempotent tasks now) as [Hsame [Hnone Hnot]].
  split; [reflexivity|]. split; [reflexivity|].
  split; [exact Hsame|]. split; [exact Hnone|].
  apply Hnot. left. reflexivity.
Defined.

(** ** Scorer *)

(** C8. An encounter without a servicing organization gets the empty
    result list, whatever the referrals and the lookups are.  The scorer
    is a total function, and on this path it returns before any lookup is
    called. *)
Theorem no_service_provider_no_results :
  forall (encounter : Encounter) (openReferrals : list OpenReferral)
         (context : MatchContext),
    serviceProvider encounter = None ->
    matchEncounterToReferrals encounter openReferrals context = [].
Proof.
  intros encounter openReferrals context H.
  unfold matchEncounterToReferrals. now rewrite H.
Qed.

Lemma no_service_provider_no_results_witness :
  matchEncounterToReferrals
    (Sample.visitNoProvider "enc-3" "patient-001" EFinished)
    (getOpenReferrals Sample.seeded "patient-001")
    (buildMatchContext Sample.seeded) = [].
Proof.
  apply (no_service_provider_no_results
           (Sample.visitNoProvider "enc-3" "patient-001" EFinished)).
  reflexivity.
Defined.

(** ** Pipeline *)

(** Which collections the helpers of the store read. *)
Create Rewrite HintDb frame.

Section Frames.
Variable s : Store.t.

Lemma open_referrals_after_broadcast b pid :
  getOpenReferrals (broadcast s b) pid = getOpenReferrals s pid.
Proof. reflexivity. Qed.

Lemma open_referrals_after_encounters x pid :
  getOpenReferrals (withEncounters s x) pid = getOpenReferrals s pid.
Proof. reflexivity. Qed.

Lemma context_after_broadcast b :
  buildMatchContext (broadcast s b) = buildMatchContext s.
Proof. reflexivity. Qed.

Lemma context_after_encounters x :
  buildMatchContext (withEncounters s x) = buildMatchContext s.
Proof. reflexivity. Qed.

Lemma preference_after_broadcast b pid p :
  getSharingPreference (broadcast s b) pid p = getSharingPreference s pid p.
Proof. reflexivity. Qed.

Lemma preference_after_encounters x pid p :
  getSharingPreference (withEncounters s x) pid p
  = getSharingPreference s pid p.
Proof. reflexivity. Qed.

Lemma preference_after_tasks x pid p :
  getSharingPreference (withTasks s x) pid p = getSharingPreference s pid p.
Proof. reflexivity. Qed.

End Frames.

#[local] Hint Rewrite
  open_referrals_after_broadcast open_referrals_after_encounters
  context_after_broadcast context_after_encounters
  preference_after_broadcast preference_after_encounters
  preference_after_tasks : frame.

(** The steps of [processEncounter], named. *)
Lemma processEncounter_steps (clock : Clock) (e : Encounter) (s : Store.t) :
  let pid := canonicalId s e in
  let e' := persisted s e in
  let refs := getOpenReferrals s pid in
  let results := matchEncounterToReferrals e' refs (buildMatchContext s) in
  let best := bestOf results in
  let phys := physicianOf refs in
  let d := decide (prefOf s pid phys) best in
  let isUpdate := JsMap.has (encounters s) (encId e) in
  processEncounter clock e s =
  (mkResult (encId e) pid results best (fst d)
     (if fst d then phys else None)
     (andThen best (fun m => Some (mrTaskId m))) (snd d),
   mkStore (practitioners s) (organizations s) (practitionerRoles s)
     (serviceRequests s)
     (match best with
      | Some m => updateTaskForEncounter (tasks s) (mrTaskId m) e' (nowIso clock)
      | None => tasks s
      end)
     (JsMap.set (encounters s) (encId e) e')
     (sharingPreferences s)
     (match phys with
      | Some p =>
          if fst d && truthy p
          then upsertRoutedEvent (routedEvents s) (eventOf clock e' pid p best)
          else routedEvents s
      | None => routedEvents s
      end)
     (brokerSessions s)
     ((broadcasts s
       ++ [ToPatient
             (if isUpdate then "encounter-updated" else "encounter-stored")
             (encId e) e' pid])
      ++ match phys with
         | Some p =>
             if fst d && truthy p
             then [ToPhysician
                     (if isUpdate then "encounter-updated"
                      else "encounter-routed")
                     (encId e) e' best
                     (andThen best (fun m => Some (mrTaskId m)))]
             else []
         | None => []
         end)).
Proof.
  intros pid e' refs results best phys d isUpdate.
  assert (Hid : encId e' = encId e).
  { unfold e', persisted. destruct (negb _); reflexivity. }
  unfold processEncounter.
  change (removeFirst "Patient/" (reference (subject e))) with (rawPatientId e).
  change (resolvePatientId s (rawPatientId e)) with pid.
  fold (withSubject e (mkReference (String.append "Patient/" pid) None None)).
  change (if negb (String.eqb pid (rawPatientId e))
          then withSubject e
                 (mkReference (String.append "Patient/" pid) None None)
          else e) with e'.
  cbv zeta. rewrite Hid.
  autorewrite with frame.
  fold refs. fold results. fold (bestOf results). fold best.
  fold (physicianOf refs). fold phys.
  subst d isUpdate. clearbody phys best results refs e' pid.
  destruct phys as [p|], best as [m|]; cbn [prefOf];
    try destruct (truthy p); autorewrite with frame;
    match goal with
    | |- context [decide ?a ?b] => destruct (decide a b) as [r why]
    end;
    destruct r; unfold eventOf, broadcast, withRoutedEvents, withTasks,
      withEncounters; cbn; rewrite ?Hid, ?app_nil_r; reflexivity.
Qed.

(** C10. When resolution changes the patient identifier, the encounter
    stored under the encounter identifier has the subject
    [{reference: "Patient/<canonical>"}] and nothing else in it: a display
    (or an identifier) carried by the incoming subject is gone.  Every
    other field is the one of the incoming encounter. *)
Theorem resolved_encounter_is_stored_with_bare_subject :
  forall (clock : Clock) (e : Encounter) (s : Store.t),
    let raw := removeFirst "Patient/" (reference (subject e)) in
    let pid := resolvePatientId s raw in
    pid <> raw ->
    exists stored,
      JsMap.get (encounters (snd (processEncounter clock e s))) (encId e)
        = Some stored /\
      subject stored = mkReference (String.append "Patient/" pid) None None /\
      refDisplay (subject stored) = None /\
      encId stored = encId e /\
      encMeta stored = encMeta e /\
      encStatus stored = encStatus e /\
      class stored = class e /\
      encType stored = encType e /\
      participant stored = participant e /\
      period stored = period e /\
      reasonCode stored = reasonCode e /\
      serviceProvider stored = serviceProvider e.
Proof.
  intros clock e s raw pid Hne.
  rewrite processEncounter_steps. cbn [snd encounters].
  rewrite get_set_same. eexists. split; [reflexivity|].
  unfold persisted, canonicalId, rawPatientId. fold raw. fold pid.
  apply String.eqb_neq in Hne. rewrite Hne. cbn.
  repeat split; reflexivity.
Qed.

Lemma resolved_encounter_is_stored_with_bare_subject_witness :
  let e := Sample.visit "enc-7" "mercy-a1b2c3d" EPlanned in
  let s := Sample.withSession Sample.seeded in
  exists stored,
    JsMap.get (encounters (snd (processEncounter Sample.clock1 e s))) "enc-7"
      = Some stored /\
    subject stored = mkReference "Patient/patient-001" None None /\
    refDisplay (subject stored) = None /\
    encId stored = encId e /\
    encMeta stored = encMeta e /\
    encStatus stored = encStatus e /\
    class stored = class e /\
    encType stored = encType e /\
    participant stored = participant e /\
    period stored = period e /\
    reasonCode stored = reasonCode e /\
    serviceProvider stored = serviceProvider e.
Proof.
  intros e s.
  apply (resolved_encounter_is_stored_with_bare_subject Sample.clock1 e s).
  vm_compute. discriminate.
Defined.

Lemma nothing_to_score (e : Encounter) (context : MatchContext) :
  matchEncounterToReferrals e [] context = [].
Proof.
  unfold matchEncounterToReferrals. destruct (serviceProvider e); reflexivity.
Qed.

(** C9. With no open referral for the resolved patient there is no
    referring provider, so the encounter is not routed, the reason is
    "No active sharing preference", and the routed events are the ones
    there were; the sharing preferences recorded for the patient play no
    part. *)
Theorem no_open_referral_no_routing :
  forall (clock : Clock) (e : Encounter) (s : Store.t),
    let pid :=
      resolvePatientId s (removeFirst "Patient/" (reference (subject e))) in
    getOpenReferrals s pid = [] ->
    let out := processEncounter clock e s in
    routed (fst out) = false /\
    reason (fst out) = "No active sharing preference" /\
    routedTo (fst out) = None /\
    routedEvents (snd out) = routedEvents s.
Proof.
  intros clock e s pid Hnone out. unfold out.
  rewrite processEncounter_steps. cbn [fst snd routed reason routedTo routedEvents].
  fold (rawPatientId e) in pid. fold (canonicalId s e) in pid.
  change (canonicalId s e) with pid. rewrite Hnone.
  rewrite nothing_to_score. cbn. repeat split; reflexivity.
Qed.

Lemma no_open_referral_no_routing_witness :
  let closed :=
    withTasks Sample.seeded
      [("task-001", setStatus Sample.task001 TCompleted None)] in
  let s := setSharingPreference closed Sample.allEncounters in
  let e := Sample.visit "enc-5" "patient-001" EFinished in
  let out := processEncounter Sample.clock1 e s in
  (exists pref,
     getSharingPreference s "patient-001" "Practitioner/dr-smith" = Some pref
     /\ mode pref = AllEncounters /\ active pref = true) /\
  routed (fst out) = false /\
  reason (fst out) = "No active sharing preference" /\
  routedTo (fst out) = None /\
  routedEvents (snd out) = routedEvents s.
Proof.
  intros closed s e. split.
  - exists Sample.allEncounters. repeat split; reflexivity.
  - apply (no_open_referral_no_routing Sample.clock1 e s). reflexivity.
Defined.

(** ** Order of the results *)

Lemma in_insertDesc (x y : MatchResult) (l : list MatchResult) :
  In y (insertDesc x l) <-> y = x \/ In y l.
Proof.
  induction l as [|z l IH]; simpl.
  - intuition.
  - destruct (Qle_bool (score z) (score x)); simpl; [intuition|].
    rewrite IH. intuition.
Qed.

Lemma in_sortDesc (y : MatchResult) (l : list MatchResult) :
  In y (sortDesc l) <-> In y l.
Proof.
  induction l as [|x l IH]; simpl; [tauto|].
  rewrite in_insertDesc, IH. intuition.
Qed.

Lemma insertDesc_top (x : MatchResult) (l : list MatchResult) :
  headIsTop l -> headIsTop (insertDesc x l).
Proof.
  destruct l as [|h t]; simpl.
  - intros _ m [<- | []]. apply Qle_refl.
  - intros Hh. destruct (Qle_bool (score h) (score x)) eqn:E; simpl.
    + apply Qle_bool_iff in E.
      intros m [<- | Hm]; [apply Qle_refl|].
      apply Qle_trans with (score h); [apply Hh; exact Hm | exact E].
    + assert (Hlt : (score x < score h)%Q).
      { apply Qnot_le_lt. intros Hle. apply Qle_bool_iff in Hle. congruence. }
      intros m [<- | Hm]; [apply Qle_refl|].
      apply in_insertDesc in Hm. destruct Hm as [-> | Hm].
      * apply Qlt_le_weak, Hlt.
      * apply Hh. right. exact Hm.
Qed.

Lemma sortDesc_top (l : list MatchResult) : headIsTop (sortDesc l).
Proof.
  induction l as [|x l IH]; simpl; [exact I|].
  apply insertDesc_top, IH.
Qed.

Lemma results_top (e : Encounter) (refs : list OpenReferral)
    (context : MatchContext) :
  headIsTop (matchEncounterToReferrals e refs context).
Proof.
  unfold matchEncounterToReferrals.
  destruct (serviceProvider e); [apply sortDesc_top | exact I].
Qed.

(** The scorer does not read the subject of the encounter. *)
Lemma scorer_ignores_subject (e : Encounter) (r : Reference)
    (refs : list OpenReferral) (context : MatchContext) :
  matchEncounterToReferrals (withSubject e r) refs context
  = matchEncounterToReferrals e refs context.
Proof. reflexivity. Qed.

Lemma scorer_on_persisted (s : Store.t) (e : Encounter)
    (refs : list OpenReferral) (context : MatchContext) :
  matchEncounterToReferrals (persisted s e) refs context
  = matchEncounterToReferrals e refs context.
Proof.
  unfold persisted. destruct (negb _); [apply scorer_ignores_subject|reflexivity].
Qed.

(** ** Confidence tiers *)

Lemma in_scoreAll (info : EncounterInfo) (m : MatchResult)
    (l : list OpenReferral) :
  In m (scoreAll info l) -> exists r, In r l /\ scoreReferral info r = Some m.
Proof.
  induction l as [|r l IH]; simpl; [intros []|].
  destruct (scoreReferral info r) as [m'|] eqn:E.
  - intros [<- | H].
    + exists r. auto.
    + destruct (IH H) as [r' [? ?]]. exists r'. auto.
  - intros H. destruct (IH H) as [r' [? ?]]. exists r'. auto.
Qed.

Lemma scoreReferral_confidence (info : EncounterInfo) (r : OpenReferral)
    (m : MatchResult) :
  scoreReferral info r = Some m ->
  confidence m = confidenceOf (score m)
  /\ geq (score m) MIN_SCORE_THRESHOLD = true.
Proof.
  unfold scoreReferral.
  destruct (_ && _ && _); [discriminate|].
  match goal with
  | |- (if geq ?sc _ then _ else _) = _ -> _ =>
      destruct (geq sc MIN_SCORE_THRESHOLD) eqn:E; [|discriminate]
  end.
  intros H. inversion H; subst; clear H. cbn [confidence score]. auto.
Qed.

Lemma geq_true (x y : Q) : geq x y = true <-> (y <= x)%Q.
Proof. apply Qle_bool_iff. Qed.

Lemma geq_false (x y : Q) : geq x y = false <-> (x < y)%Q.
Proof.
  unfold geq. split.
  - intros H. apply Qnot_le_lt. intros Hle.
    apply Qle_bool_iff in Hle. congruence.
  - intros H. destruct (Qle_bool y x) eqn:E; [|reflexivity].
    apply Qle_bool_iff in E. exfalso. exact (Qlt_not_le _ _ H E).
Qed.

Lemma confidenceOf_tiers (x : Q) :
  ((7 # 10 <= x)%Q -> confidenceOf x = High) /\
  ((4 # 10 <= x)%Q /\ (x < 7 # 10)%Q -> confidenceOf x = Medium) /\
  ((x < 4 # 10)%Q -> confidenceOf x = Low).
Proof.
  assert (Hhi : (HIGH_CONFIDENCE == 7 # 10)%Q) by reflexivity.
  assert (Hmed : (MEDIUM_CONFIDENCE == 4 # 10)%Q) by reflexivity.
  unfold confidenceOf. repeat split.
  - intros H. rewrite <- Hhi in H. apply geq_true in H. now rewrite H.
  - intros [H1 H2]. rewrite <- Hhi in H2. rewrite <- Hmed in H1.
    apply geq_false in H2. apply geq_true in H1. now rewrite H2, H1.
  - intros H.
    assert (H' : (x < 7 # 10)%Q).
    { apply Qlt_trans with (4 # 10)%Q; [exact H | reflexivity]. }
    rewrite <- Hhi in H'. rewrite <- Hmed in H.
    apply geq_false in H, H'. now rewrite H', H.
Qed.

(** C6. In the output of the scorer the confidence tier is a function of
    the score: high from 0.70, medium from 0.40 to below 0.70, low below
    0.40. *)
Theorem confidence_follows_score :
  forall (encounter : Encounter) (openReferrals : list OpenReferral)
         (context : MatchContext) (m : MatchResult),
    In m (matchEncounterToReferrals encounter openReferrals context) ->
    ((7 # 10 <= score m)%Q -> confidence m = High) /\
    ((4 # 10 <= score m)%Q /\ (score m < 7 # 10)%Q -> confidence m = Medium) /\
    ((score m < 4 # 10)%Q -> confidence m = Low).
Proof.
  intros encounter openReferrals context m Hin.
  unfold matchEncounterToReferrals in Hin.
  destruct (serviceProvider encounter) as [sp|]; [|destruct Hin].
  apply in_sortDesc, in_scoreAll in Hin. destruct Hin as [r [_ Hr]].
  apply scoreReferral_confidence in Hr. destruct Hr as [-> _].
  apply confidenceOf_tiers.
Qed.

Lemma confidence_follows_score_witness :
  In Sample.visitTop Sample.visitResults /\
  (((7 # 10 <= score Sample.visitTop)%Q -> confidence Sample.visitTop = High) /\
   ((4 # 10 <= score Sample.visitTop)%Q /\ (score Sample.visitTop < 7 # 10)%Q ->
    confidence Sample.visitTop = Medium) /\
   ((score Sample.visitTop < 4 # 10)%Q -> confidence Sample.visitTop = Low)).
Proof.
  assert (Hin : In Sample.visitTop Sample.visitResults).
  { vm_compute. left. reflexivity. }
  split; [exact Hin|].
  exact (confidence_follows_score _ _ _ _ Hin).
Defined.

(** ** Routing decision *)

Lemma decide_routes_only_with_preference (pref : option SharingPreference)
    (best : option MatchResult) :
  fst (decide pref best) = true -> pref <> None.
Proof. destruct pref; [discriminate | simpl; discriminate]. Qed.

Lemma prefOf_some (s : Store.t) (pid : string) (phys : option string) :
  prefOf s pid phys <> None -> exists p, phys = Some p /\ truthy p = true.
Proof.
  destruct phys as [p|]; cbn [prefOf]; [|congruence].
  destruct (truthy p) eqn:E; [|congruence].
  intros _. exists p. split; [reflexivity | exact E].
Qed.

Lemma bestOf_some (results : list MatchResult) (m : MatchResult) :
  bestOf results = Some m <->
  exists rest, results = m :: rest /\ (7 # 10 <= score m)%Q.
Proof.
  unfold bestOf. destruct results as [|h t].
  - split; [discriminate | intros [rest [H _]]; discriminate].
  - destruct (geq (score h) AUTO_LINK_THRESHOLD) eqn:E.
    + apply geq_true in E. split.
      * intros H. inversion H; subst. exists t. split; [reflexivity|].
        apply Qle_trans with AUTO_LINK_THRESHOLD; [discriminate | exact E].
      * intros [rest [H _]]. inversion H; subst. reflexivity.
    + apply geq_false in E. split; [discriminate|].
      intros [rest [H Hle]]. inversion H; subst. exfalso.
      apply (Qlt_not_le _ _ E).
      apply Qle_trans with (7 # 10)%Q; [discriminate | exact Hle].
Qed.

(** C3. Under an active referrals-only preference for the requester of
    the first open referral, the encounter is routed exactly when the
    scorer has a top-scoring result and that result scores at least 0.70.
    Otherwise the outcome is the one of an empty result list: no best
    match, the reason "No referral match found", no task touched and no
    routed event recorded.  A provider reference is a non-empty string:
    the pipeline treats an empty requester reference as no requester. *)
Theorem referrals_only_routes_on_high_match :
  forall (clock : Clock) (e : Encounter) (s : Store.t)
         (first : OpenReferral) (rest : list OpenReferral)
         (requester : Reference) (pref : SharingPreference),
    let pid :=
      resolvePatientId s (removeFirst "Patient/" (reference (subject e))) in
    getOpenReferrals s pid = first :: rest ->
    srRequester (serviceRequest first) = Some requester ->
    truthy (reference requester) = true ->
    getSharingPreference s pid (reference requester) = Some pref ->
    active pref = true ->
    mode pref = ReferralsOnly ->
    let out := processEncounter clock e s in
    let results :=
      matchEncounterToReferrals e (getOpenReferrals s pid)
        (buildMatchContext s) in
    matchResults (fst out) = results /\
    (routed (fst out) = true <->
     exists top,
       In top results /\
       (forall m, In m results -> (score m <= score top)%Q) /\
       (7 # 10 <= score top)%Q) /\
    (routed (fst out) = false ->
     bestMatch (fst out) = None /\
     reason (fst out) = "No referral match found (referrals-only mode)" /\
     taskUpdated (fst out) = None /\
     tasks (snd out) = tasks s /\
     routedEvents (snd out) = routedEvents s).
Proof.
  intros clock e s first rest requester pref pid Hopen Hreq Htruthy Hpref
    Hactive Hmode out results.
  unfold out. rewrite processEncounter_steps.
  cbn [fst snd matchResults routed bestMatch reason taskUpdated tasks
       routedEvents].
  fold (rawPatientId e) in pid. fold (canonicalId s e) in pid.
  change (canonicalId s e) with pid.
  rewrite scorer_on_persisted. fold results.
  assert (Hphys : physicianOf (getOpenReferrals s pid)
                  = Some (reference requester)).
  { rewrite Hopen. simpl. now rewrite Hreq. }
  rewrite Hphys. cbn [prefOf]. rewrite Htruthy, Hpref.
  assert (Htop : headIsTop results) by apply results_top.
  unfold decide. rewrite Hactive, Hmode. cbn [negb].
  split; [reflexivity|].
  destruct (bestOf results) as [m|] eqn:Hbest; cbn [fst snd].
  - apply bestOf_some in Hbest. destruct Hbest as [tl [Hres Hscore]].
    split; [|discriminate].
    split; [intros _|reflexivity].
    exists m. rewrite Hres in Htop |- *. simpl in Htop.
    split; [left; reflexivity|]. split; [exact Htop | exact Hscore].
  - split.
    + split; [discriminate|].
      intros [top [Hin [Hmax Hscore]]]. exfalso.
      destruct results as [|h tl] eqn:Hres; [destruct Hin|].
      assert (Hh : bestOf (h :: tl) = Some h).
      { apply bestOf_some. exists tl. split; [reflexivity|].
        apply Qle_trans with (score top); [exact Hscore|].
        apply Htop. exact Hin. }
      congruence.
    + intros _. cbn [andb]. repeat split; reflexivity.
Qed.

Lemma referrals_only_routes_on_high_match_witness :
  let e := Sample.visit "enc-1" "patient-001" EFinished in
  let s := Sample.consented in
  let out := processEncounter Sample.clock1 e s in
  let results :=
    matchEncounterToReferrals e (getOpenReferrals s "patient-001")
      (buildMatchContext s) in
  matchResults (fst out) = results /\
  (routed (fst out) = true <->
   exists top,
     In top results /\
     (forall m, In m results -> (score m <= score top)%Q) /\
     (7 # 10 <= score top)%Q) /\
  (routed (fst out) = false ->
   bestMatch (fst out) = None /\
   reason (fst out) = "No referral match found (referrals-only mode)" /\
   taskUpdated (fst out) = None /\
   tasks (snd out) = tasks s /\
   routedEvents (snd out) = routedEvents s).
Proof.
  intros e s.
  apply (referrals_only_routes_on_high_match Sample.clock1 e s
           (mkOpenReferral Sample.referral001 Sample.task001) []
           (mkReference "Practitioner/dr-smith" (Some "Dr. Robert Smith") None)
           Sample.referralsOnly); reflexivity.
Defined.

(** ** Routed events *)

Lemma hasRoutedEvent_upsert (events : list RoutedEvent) (ev : RoutedEvent)
    (id : string) :
  hasRoutedEvent (upsertRoutedEvent events ev) id
  = hasRoutedEvent events id || String.eqb (reEncounterId ev) id.
Proof.
  unfold upsertRoutedEvent.
  induction events as [|x r IH]; simpl.
  - now rewrite orb_false_r.
  - destruct (String.eqb (reEncounterId x) (reEncounterId ev)) eqn:E; simpl.
    + apply String.eqb_eq in E. rewrite E.
      unfold hasRoutedEvent.
      destruct (String.eqb (reEncounterId ev) id), (existsb _ r);
        reflexivity.
    + destruct (findIndex _ r) as [i|]; unfold hasRoutedEvent in *;
        simpl; rewrite IH; now rewrite orb_assoc.
Qed.

(** One delivery adds the routed event of its encounter when it decides
    to route, and removes none. *)
Lemma hasRoutedEvent_step (clock : Clock) (e : Encounter) (s : Store.t)
    (id : string) :
  let out := processEncounter clock e s in
  hasRoutedEvent (routedEvents (snd out)) id
  = hasRoutedEvent (routedEvents s) id
    || (routed (fst out) && String.eqb (resEncounterId (fst out)) id).
Proof.
  cbv zeta. rewrite processEncounter_steps.
  cbn [fst snd routed resEncounterId routedEvents].
  set (pid := canonicalId s e).
  set (phys := physicianOf (getOpenReferrals s pid)).
  set (best := bestOf _).
  destruct (fst (decide (prefOf s pid phys) best)) eqn:Hd.
  - destruct (prefOf_some s pid phys
                (decide_routes_only_with_preference _ _ Hd)) as [p [-> Hp]].
    rewrite Hp. cbn [andb]. rewrite hasRoutedEvent_upsert.
    assert (Hid : encId (persisted s e) = encId e).
    { unfold persisted. destruct (negb _); reflexivity. }
    unfold eventOf. cbn [reEncounterId]. now rewrite Hid.
  - cbn [andb]. rewrite orb_false_r. destruct phys; reflexivity.
Qed.

Lemma hasRoutedEvent_run (l : list (Clock * Encounter)) (s : Store.t)
    (id : string) :
  let out := processAll l s in
  hasRoutedEvent (routedEvents (snd out)) id
  = hasRoutedEvent (routedEvents s) id
    || existsb (fun r => routed r && String.eqb (resEncounterId r) id)
         (fst out).
Proof.
  revert s. induction l as [|[clock e] l IH]; intros s; simpl.
  - now rewrite orb_false_r.
  - pose proof (hasRoutedEvent_step clock e s id) as Hstep. cbv zeta in Hstep.
    destruct (processEncounter clock e s) as [r s1]. simpl in Hstep.
    specialize (IH s1). cbv zeta in IH.
    destruct (processAll l s1) as [rs s2]. simpl in IH |- *.
    rewrite IH, Hstep. now rewrite orb_assoc.
Qed.

Lemma lastDecision_in (id : string) (rs : list ProcessEncounterResult)
    (d : bool) :
  lastDecision id rs = Some d ->
  exists r, In r rs /\ resEncounterId r = id /\ routed r = d.
Proof.
  induction rs as [|r rs IH]; simpl; [discriminate|].
  destruct (lastDecision id rs) as [d'|].
  - intros H. destruct (IH H) as [r' [? ?]]. exists r'. auto.
  - destruct (String.eqb (resEncounterId r) id) eqn:E; [|discriminate].
    intros H. inversion H. exists r. apply String.eqb_eq in E. auto.
Qed.

(** C1, as stated, fails.  A finished visit that matches the referral is
    delivered twice under a referrals-only preference.  The first delivery
    routes it and completes the task; the second finds no open referral
    and decides not to route, and the routed event of the first is still
    in the store. *)
Lemma routed_event_outlives_the_decision :
  let e := Sample.visit "enc-1" "patient-001" EFinished in
  let out :=
    processAll [(Sample.clock1, e); (Sample.clock2, e)] Sample.consented in
  routedEvents Sample.consented = [] /\
  map routed (fst out) = [true; false] /\
  lastDecision "enc-1" (fst out) = Some false /\
  hasRoutedEvent (routedEvents (snd out)) "enc-1" = true /\
  ~ (hasRoutedEvent (routedEvents (snd out)) "enc-1" = true <->
     lastDecision "enc-1" (fst out) = Some true).
Proof.
  vm_compute. repeat split.
  intros [H _]. specialize (H eq_refl). discriminate H.
Qed.

(** C1, amended.  After any sequence of deliveries, a routed event for an
    encounter identifier is in the store if and only if one was there
    before the sequence or some evaluation of the sequence for that
    identifier decided to route.  In particular it is there when the most
    recent evaluation for the identifier decided to route. *)
Theorem routed_event_iff_some_decision_routed :
  forall (l : list (Clock * Encounter)) (s : Store.t) (id : string),
    let out := processAll l s in
    (hasRoutedEvent (routedEvents (snd out)) id = true <->
     hasRoutedEvent (routedEvents s) id = true \/
     exists r, In r (fst out) /\ resEncounterId r = id /\ routed r = true)
    /\
    (lastDecision id (fst out) = Some true ->
     hasRoutedEvent (routedEvents (snd out)) id = true).
Proof.
  intros l s id out.
  assert (Hiff :
    hasRoutedEvent (routedEvents (snd out)) id = true <->
    hasRoutedEvent (routedEvents s) id = true \/
    exists r, In r (fst out) /\ resEncounterId r = id /\ routed r = true).
  { unfold out. rewrite hasRoutedEvent_run. cbv zeta.
    rewrite orb_true_iff, existsb_exists.
    split; (intros [H | [r [Hin H]]]; [left; exact H | right; exists r]).
    - apply andb_true_iff in H. destruct H as [Hr Hid].
      apply String.eqb_eq in Hid. auto.
    - destruct H as [Hid Hr]. split; [exact Hin|].
      apply andb_true_iff. split; [exact Hr | now apply String.eqb_eq]. }
  split; [exact Hiff|].
  intros Hlast. apply Hiff. right. apply lastDecision_in, Hlast.
Qed.

(** ** Name similarity *)

Lemma includes_In (l : list string) (x : string) :
  includes l x = true <-> In x l.
Proof.
  unfold includes. rewrite existsb_exists. split.
  - intros [y [Hy E]]. apply String.eqb_eq in E. now subst.
  - intros H. exists x. split; [exact H | apply String.eqb_refl].
Qed.

Lemma in_addAll (x : string) (l acc : list string) :
  In x (addAll acc l) <-> In x acc \/ In x l.
Proof.
  revert acc. induction l as [|y l IH]; intros acc; simpl; [tauto|].
  rewrite IH. destruct (includes acc y) eqn:E.
  - apply includes_In in E. split; [tauto|].
    intros [H | [<- | H]]; auto.
  - rewrite in_app_iff. simpl. tauto.
Qed.

Lemma NoDup_addAll (l acc : list string) :
  NoDup acc -> NoDup (addAll acc l).
Proof.
  revert acc. induction l as [|y l IH]; intros acc Hacc; simpl; [exact Hacc|].
  apply IH. destruct (includes acc y) eqn:E; [exact Hacc|].
  assert (Hy : ~ In y acc).
  { intros H. apply includes_In in H. congruence. }
  clear E IH. induction acc as [|z acc IHa]; simpl.
  - constructor; [intros [] | constructor].
  - inversion Hacc as [|? ? Hz Hnd]; subst. constructor.
    + rewrite in_app_iff. simpl. intros [H | [H | []]]; [tauto|].
      subst. apply Hy. now left.
    + apply IHa; [exact Hnd|]. intros H. apply Hy. now right.
Qed.

Lemma in_newSet (x : string) (l : list string) : In x (newSet l) <-> In x l.
Proof. unfold newSet. rewrite in_addAll. simpl. tauto. Qed.

Lemma NoDup_newSet (l : list string) : NoDup (newSet l).
Proof. apply NoDup_addAll. constructor. Qed.

Lemma intersection_le_union (setA setB : list string) :
  List.length (newSet (filter (includes setB) setA))
  <= List.length (newSet (setA ++ setB)).
Proof.
  apply NoDup_incl_length; [apply NoDup_newSet|].
  intros x Hx. apply (proj1 (in_newSet _ _)) in Hx.
  apply (proj1 (filter_In _ _ _)) in Hx.
  apply (proj2 (in_newSet _ _)). apply in_app_iff. tauto.
Qed.

Lemma ratio_bounds (i u : nat) :
  i <= u -> u <> 0 ->
  (0 <= Fuzzy.ofNat i / Fuzzy.ofNat u)%Q /\
  (Fuzzy.ofNat i / Fuzzy.ofNat u <= 1)%Q.
Proof.
  intros Hle Hu. unfold Fuzzy.ofNat.
  assert (Hpos : (0 < inject_Z (Z.of_nat u))%Q).
  { change 0%Q with (inject_Z 0). rewrite <- Zlt_Qlt. lia. }
  split.
  - apply Qle_shift_div_l; [exact Hpos|]. rewrite Qmult_0_l.
    change 0%Q with (inject_Z 0). rewrite <- Zle_Qle. lia.
  - apply Qle_shift_div_r; [exact Hpos|]. rewrite Qmult_1_l.
    rewrite <- Zle_Qle. lia.
Qed.

Lemma ratio_nonneg (i u : nat) :
  u <> 0 -> (0 <= Fuzzy.ofNat i / Fuzzy.ofNat u)%Q.
Proof.
  intros Hu. unfold Fuzzy.ofNat.
  apply Qle_shift_div_l.
  - change 0%Q with (inject_Z 0). rewrite <- Zlt_Qlt. lia.
  - rewrite Qmult_0_l. change 0%Q with (inject_Z 0). rewrite <- Zle_Qle. lia.
Qed.

Lemma tokenJaccard_bounds (a b : string) :
  (0 <= Fuzzy.tokenJaccard a b)%Q /\ (Fuzzy.tokenJaccard a b <= 1)%Q.
Proof.
  unfold Fuzzy.tokenJaccard.
  destruct (_ && _); [split; discriminate|].
  destruct (List.length (newSet (newSet (splitWords a)
                                  ++ newSet (splitWords b))) =? 0) eqn:E;
    [split; discriminate|].
  apply Nat.eqb_neq in E.
  apply ratio_bounds; [apply intersection_le_union | exact E].
Qed.

Lemma mathMax_bounds (x y : Q) :
  (0 <= x)%Q -> (x <= 1)%Q -> (y <= 1)%Q ->
  (0 <= Fuzzy.mathMax x y)%Q /\ (Fuzzy.mathMax x y <= 1)%Q.
Proof.
  intros H0 H1 Hy. unfold Fuzzy.mathMax.
  destruct (Qle_bool x y) eqn:E; [|split; assumption].
  apply Qle_bool_iff in E. split; [|exact Hy].
  apply Qle_trans with x; assumption.
Qed.

(** The edit distance never exceeds the longer of the two lengths, so the
    edit similarity is itself between 0 and 1. *)
Lemma fillRow_bound (ai : ascii) (b : string) :
  forall (prev : list nat) (left j0 i : nat),
    (forall k, nth k prev 0 <= Nat.max i (j0 + k)) ->
    left <= Nat.max (S i) j0 ->
    forall k, nth k (Fuzzy.fillRow ai b prev left) 0
              <= Nat.max (S i) (S (j0 + k)).
Proof.
  induction b as [|bj b IH]; intros prev left j0 i Hprev Hleft k.
  - destruct prev; destruct k; simpl; lia.
  - destruct prev as [|diag [|up rest]]; try (destruct k; simpl; lia).
    cbn [Fuzzy.fillRow].
    set (v := if Ascii.eqb ai bj then diag
              else 1 + Nat.min diag (Nat.min up left)).
    assert (Hdiag : diag <= Nat.max i j0).
    { specialize (Hprev 0). simpl in Hprev. now rewrite Nat.add_0_r in Hprev. }
    assert (Hv : v <= Nat.max (S i) (S j0)).
    { unfold v. destruct (Ascii.eqb ai bj); lia. }
    destruct k as [|k]; cbn [nth].
    + now rewrite Nat.add_0_r.
    + replace (S (j0 + S k)) with (S (S j0 + k)) by lia.
      apply IH; [|exact Hv].
      intros k'. specialize (Hprev (S k')). cbn [nth] in Hprev |- *.
      replace (S j0 + k') with (j0 + S k') by lia. exact Hprev.
Qed.

Lemma rows_bound (b : string) :
  forall (a : string) (i : nat) (prev : list nat),
    (forall k, nth k prev 0 <= Nat.max i k) ->
    forall k, nth k (Fuzzy.rows a b (S i) prev) 0
              <= Nat.max (i + String.length a) k.
Proof.
  induction a as [|ai a IH]; intros i prev Hprev k; cbn [Fuzzy.rows].
  - simpl. rewrite Nat.add_0_r. apply Hprev.
  - replace (i + String.length (String ai a))
      with (S i + String.length a) by (simpl; lia).
    apply IH. intros [|k']; cbn [nth]; [lia|].
    apply (fillRow_bound ai b prev (S i) 0 i).
    + intros j. apply Hprev.
    + lia.
Qed.

Lemma levenshteinDistance_bound (a b : string) :
  Fuzzy.levenshteinDistance a b
  <= Nat.max (String.length a) (String.length b).
Proof.
  unfold Fuzzy.levenshteinDistance.
  destruct (String.length a =? 0) eqn:Ea; [lia|].
  destruct (String.length b =? 0) eqn:Eb; [lia|].
  apply (rows_bound b a 0). intros k.
  destruct (Nat.lt_ge_cases k (S (String.length b))) as [Hk | Hk].
  - rewrite seq_nth by exact Hk. lia.
  - rewrite nth_overflow; [lia|]. now rewrite length_seq.
Qed.

(** *** Strings of code units *)









Lemma utf16_fillRow_bound (ai : N) (b : Utf16.wstring) :
  forall (prev : list nat) (left j0 i : nat),
    (forall k, nth k prev 0 <= Nat.max i (j0 + k)) ->
    left <= Nat.max (S i) j0 ->
    forall k, nth k (Utf16.fillRow ai b prev left) 0
              <= Nat.max (S i) (S (j0 + k)).
Proof.
  induction b as [|bj b IH]; intros prev left j0 i Hprev Hleft k.
  - destruct prev; destruct k; simpl; lia.
  - destruct prev as [|diag [|up rest]]; try (destruct k; simpl; lia).
    cbn [Utf16.fillRow].
    set (v := if N.eqb ai bj then diag
              else 1 + Nat.min diag (Nat.min up left)).
    assert (Hdiag : diag <= Nat.max i j0).
    { specialize (Hprev 0). simpl in Hprev. now rewrite Nat.add_0_r in Hprev. }
    assert (Hv : v <= Nat.max (S i) (S j0)).
    { unfold v. destruct (N.eqb ai bj); lia. }
    destruct k as [|k]; cbn [nth].
    + now rewrite Nat.add_0_r.
    + replace (S (j0 + S k)) with (S (S j0 + k)) by lia.
      apply IH; [|exact Hv].
      intros k'. specialize (Hprev (S k')). cbn [nth] in Hprev |- *.
      replace (S j0 + k') with (j0 + S k') by lia. exact Hprev.
Qed.

Lemma utf16_rows_bound (b : Utf16.wstring) :
  forall (a : Utf16.wstring) (i : nat) (prev : list nat),
    (forall k, nth k prev 0 <= Nat.max i k) ->
    forall k, nth k (Utf16.rows a b (S i) prev) 0
              <= Nat.max (i + List.length a) k.
Proof.
  induction a as [|ai a IH]; intros i prev Hprev k; cbn [Utf16.rows].
  - simpl. rewrite Nat.add_0_r. apply Hprev.
  - replace (i + List.length (ai :: a))
      with (S i + List.length a) by (simpl; lia).
    apply IH. intros [|k']; cbn [nth]; [lia|].
    apply (utf16_fillRow_bound ai b prev (S i) 0 i).
    + intros j. apply Hprev.
    + lia.
Qed.

Lemma utf16_levenshteinDistance_bound (a b : Utf16.wstring) :
  Utf16.levenshteinDistance a b
  <= Nat.max (List.length a) (List.length b).
Proof.
  unfold Utf16.levenshteinDistance.
  destruct (List.length a =? 0) eqn:Ea; [lia|].
  destruct (List.length b =? 0) eqn:Eb; [lia|].
  apply (utf16_rows_bound b a 0). intros k.
  destruct (Nat.lt_ge_cases k (S (List.length b))) as [Hk | Hk].
  - rewrite seq_nth by exact Hk. lia.
  - rewrite nth_overflow; [lia|]. now rewrite length_seq.
Qed.


(** *** The two models of fuzzy.ts agree on Latin-1 *)

Lemma units_char (c : ascii) :
  Utf16.simpleLower (N_of_ascii c) = N_of_ascii (toLowerChar c) /\
  Utf16.isSpace (N_of_ascii c) = isSpace c /\
  Utf16.isPunct (N_of_ascii c) = Fuzzy.isPunct c /\
  N.eqb (N_of_ascii c) Utf16.CAPITAL_SIGMA = false /\
  N.eqb (N_of_ascii c) Utf16.CAPITAL_I_WITH_DOT = false.
Proof.
  destruct c as [[] [] [] [] [] [] [] []]; vm_compute; repeat split.
Qed.

Lemma units_eqb_char (c d : ascii) :
  N.eqb (N_of_ascii c) (N_of_ascii d) = Ascii.eqb c d.
Proof.
  destruct (Ascii.eqb_spec c d) as [-> | Hne].
  - apply N.eqb_refl.
  - apply N.eqb_neq. intros H. apply Hne.
    rewrite <- (ascii_N_embedding c), <- (ascii_N_embedding d). now rewrite H.
Qed.

Lemma units_eqb (a b : string) :
  Utf16.eqb (Utf16.units a) (Utf16.units b) = String.eqb a b.
Proof.
  revert b. induction a as [|c a IH]; intros [|d b]; simpl; try reflexivity.
  now rewrite units_eqb_char, IH.
Qed.

Lemma units_length (s : string) :
  List.length (Utf16.units s) = String.length s.
Proof. induction s as [|c s IH]; simpl; congruence. Qed.

Lemma units_append (a b : string) :
  Utf16.units (String.append a b) = Utf16.units a ++ Utf16.units b.
Proof. induction a as [|c a IH]; simpl; congruence. Qed.

Lemma units_lowerFrom (s : string) (before : Utf16.wstring) :
  Utf16.lowerFrom before (Utf16.units s) = Utf16.units (toLowerCase s).
Proof.
  revert before. induction s as [|c s IH]; intros before; [reflexivity|].
  cbn [Utf16.units Utf16.lowerFrom toLowerCase].
  destruct (units_char c) as [Hl [_ [_ [-> ->]]]].
  rewrite Hl, IH. reflexivity.
Qed.

Lemma units_replaceClass (s : string) :
  Utf16.replaceClass Utf16.isPunct (Utf16.units s)
  = Utf16.units (replaceClass Fuzzy.isPunct s).
Proof.
  induction s as [|c s IH]; [reflexivity|].
  cbn [Utf16.units replaceClass]. unfold Utf16.replaceClass in *.
  cbn [map]. rewrite IH. destruct (units_char c) as [_ [_ [-> _]]].
  now destruct (Fuzzy.isPunct c).
Qed.

Lemma units_splitWords (s : string) :
  Utf16.splitWords (Utf16.units s) = map Utf16.units (splitWords s).
Proof.
  induction s as [|c s IH]; [reflexivity|].
  cbn [Utf16.units Utf16.splitWords splitWords].
  destruct (units_char c) as [_ [-> _]].
  destruct (isSpace c); [exact IH|].
  destruct s as [|d s']; [reflexivity|].
  cbn [Utf16.units] in *.
  destruct (units_char d) as [_ [-> _]].
  destruct (isSpace d).
  - cbn [map]. now rewrite IH.
  - rewrite IH. now destruct (splitWords (String d s')).
Qed.

Lemma units_join (l : list string) :
  Utf16.join (map Utf16.units l) = Utf16.units (join " " l).
Proof.
  induction l as [|x l IH]; [reflexivity|].
  destruct l as [|y l']; [reflexivity|].
  change (Utf16.join (map Utf16.units (x :: y :: l')))
    with (Utf16.units x ++ Utf16.SPACE :: Utf16.join (map Utf16.units (y :: l'))).
  rewrite IH.
  change (join " " (x :: y :: l'))
    with (String.append x (String.append " " (join " " (y :: l')))).
  now rewrite !units_append.
Qed.

Lemma units_includes (l : list string) (x : string) :
  Utf16.includes (map Utf16.units l) (Utf16.units x) = includes l x.
Proof.
  unfold Utf16.includes, includes.
  induction l as [|y l IH]; [reflexivity|].
  cbn [map existsb]. now rewrite units_eqb, IH.
Qed.

Lemma units_filter (p : Utf16.wstring -> bool) (q : string -> bool)
    (l : list string) :
  (forall x, p (Utf16.units x) = q x) ->
  filter p (map Utf16.units l) = map Utf16.units (filter q l).
Proof.
  intros H. induction l as [|x l IH]; [reflexivity|].
  cbn [map filter]. rewrite H. destruct (q x); cbn [map]; now rewrite IH.
Qed.

Lemma units_addAll (l acc : list string) :
  Utf16.addAll (map Utf16.units acc) (map Utf16.units l)
  = map Utf16.units (addAll acc l).
Proof.
  revert acc. induction l as [|x l IH]; intros acc; [reflexivity|].
  cbn [map Utf16.addAll addAll]. rewrite units_includes.
  destruct (includes acc x); [apply IH|].
  rewrite <- IH. now rewrite map_app.
Qed.

Lemma units_newSet (l : list string) :
  Utf16.newSet (map Utf16.units l) = map Utf16.units (newSet l).
Proof. exact (units_addAll l []). Qed.

Lemma units_normalizeName (name : string) :
  Utf16.normalizeName (Utf16.units name)
  = Utf16.units (Fuzzy.normalizeName name).
Proof.
  unfold Utf16.normalizeName, Fuzzy.normalizeName, Utf16.toLowerCase.
  rewrite units_lowerFrom, units_replaceClass, units_splitWords.
  unfold Utf16.STRIP_TERMS.
  rewrite (units_filter _ (fun t => negb (includes Fuzzy.STRIP_TERMS t)))
    by (intros x; now rewrite units_includes).
  rewrite length_map.
  destruct (0 <? List.length _); apply units_join.
Qed.

Lemma units_fillRow (ai : ascii) (b : string) :
  forall (prev : list nat) (left : nat),
    Utf16.fillRow (N_of_ascii ai) (Utf16.units b) prev left
    = Fuzzy.fillRow ai b prev left.
Proof.
  induction b as [|bj b IH]; intros prev left; [reflexivity|].
  cbn [Utf16.units Utf16.fillRow Fuzzy.fillRow].
  destruct prev as [|diag [|up rest]]; try reflexivity.
  now rewrite units_eqb_char, IH.
Qed.

Lemma units_rows (a b : string) :
  forall (i : nat) (prev : list nat),
    Utf16.rows (Utf16.units a) (Utf16.units b) i prev = Fuzzy.rows a b i prev.
Proof.
  induction a as [|ai a IH]; intros i prev; [reflexivity|].
  cbn [Utf16.units Utf16.rows Fuzzy.rows]. now rewrite units_fillRow, IH.
Qed.

Lemma units_levenshteinDistance (a b : string) :
  Utf16.levenshteinDistance (Utf16.units a) (Utf16.units b)
  = Fuzzy.levenshteinDistance a b.
Proof.
  unfold Utf16.levenshteinDistance, Fuzzy.levenshteinDistance.
  now rewrite !units_length, units_rows.
Qed.

Lemma units_tokenJaccard (a b : string) :
  Utf16.tokenJaccard (Utf16.units a) (Utf16.units b)
  = Fuzzy.tokenJaccard a b.
Proof.
  unfold Utf16.tokenJaccard, Fuzzy.tokenJaccard.
  rewrite !units_splitWords, !units_newSet.
  rewrite (units_filter _ (includes (newSet (splitWords b))))
    by (intros x; apply units_includes).
  rewrite <- map_app, !units_newSet, !length_map. reflexivity.
Qed.

(** On strings of Latin-1 characters the model on UTF-16 code units
    computes what the model on [string] computes. *)
Lemma fuzzyNameMatch_on_latin1 (a b : string) :
  Utf16.fuzzyNameMatch (Utf16.units a) (Utf16.units b)
  = Fuzzy.fuzzyNameMatch a b.
Proof.
  unfold Utf16.fuzzyNameMatch, Fuzzy.fuzzyNameMatch.
  rewrite !units_normalizeName, units_eqb, units_tokenJaccard,
    units_levenshteinDistance, !units_length.
  reflexivity.
Qed.

(** *** Lower-casing letter by letter *)









Lemma routed_event_iff_some_decision_routed_witness :
  let e := Sample.visit "enc-1" "patient-001" EPlanned in
  let out := processAll [(Sample.clock1, e)] Sample.consented in
  lastDecision "enc-1" (fst out) = Some true /\
  hasRoutedEvent (routedEvents (snd out)) "enc-1" = true.
Proof.
  intros e.
  assert (H : lastDecision "enc-1"
                (fst (processAll [(Sample.clock1, e)] Sample.consented))
              = Some true) by reflexivity.
  split; [exact H|].
  apply (proj2 (routed_event_iff_some_decision_routed
                  [(Sample.clock1, e)] Sample.consented "enc-1")).
  exact H.
Defined.

(* ------------------------------------------------------------------ *)
(** * Further properties *)
(* ------------------------------------------------------------------ *)

Import EditDistance Chars Weighted Resources Keys Invariants.

(** ** Edit distance *)

Lemma distance_nil_l rb : distance [] rb = List.length rb.
Proof. destruct rb; reflexivity. Qed.

Lemma distance_nil_r ra : distance ra [] = List.length ra.
Proof. destruct ra; reflexivity. Qed.

Lemma distance_cons x ra y rb :
  distance (x :: ra) (y :: rb)
  = if Ascii.eqb x y then distance ra rb
    else 1 + Nat.min (distance ra rb)
               (Nat.min (distance ra (y :: rb)) (distance (x :: ra) rb)).
Proof. reflexivity. Qed.

Lemma fillRow_distance (ai : ascii) (pa : list ascii) :
  forall (b : string) (pb : list ascii),
    Fuzzy.fillRow ai b
      (distance pa pb :: map (distance pa) (extensions pb b))
      (distance (ai :: pa) pb)
    = map (distance (ai :: pa)) (extensions pb b).
Proof.
  induction b as [|bj b IH]; intros pb; [reflexivity|].
  cbn [extensions map Fuzzy.fillRow].
  rewrite <- distance_cons. f_equal. apply IH.
Qed.

Lemma length_reversed (s : string) :
  forall acc, List.length (reversed acc s) = String.length s + List.length acc.
Proof.
  induction s as [|c s IH]; intros acc; simpl; [reflexivity|].
  rewrite IH. simpl. lia.
Qed.

Lemma lengths_extensions (b : string) :
  forall pb,
    map (@List.length ascii) (extensions pb b)
    = seq (S (List.length pb)) (String.length b).
Proof.
  induction b as [|y b IH]; intros pb; simpl; [reflexivity|].
  now rewrite IH.
Qed.

Lemma nth_extensions {A : Type} (f : list ascii -> A) (b : string) :
  forall pb d,
    nth (String.length b) (map f (pb :: extensions pb b)) d
    = f (reversed pb b).
Proof.
  induction b as [|y b IH]; intros pb d; [reflexivity|].
  cbn [String.length extensions map nth reversed]. apply (IH (y :: pb)).
Qed.

Lemma rows_distance (b : string) :
  forall (a : string) (pa : list ascii),
    Fuzzy.rows a b (S (List.length pa))
      (map (distance pa) ([] :: extensions [] b))
    = map (distance (reversed pa a)) ([] :: extensions [] b).
Proof.
  induction a as [|ai a IH]; intros pa; [reflexivity|].
  cbn [Fuzzy.rows reversed]. rewrite <- IH.
  cbn [List.length map]. f_equal.
  rewrite (distance_nil_r (ai :: pa)). cbn [List.length]. f_equal.
  pose proof (fillRow_distance ai pa b []) as H.
  rewrite (distance_nil_r (ai :: pa)) in H. exact H.
Qed.

Lemma levenshteinDistance_distance (a b : string) :
  Fuzzy.levenshteinDistance a b = distance (reversed [] a) (reversed [] b).
Proof.
  unfold Fuzzy.levenshteinDistance.
  destruct a as [|a0 a'] eqn:Ea.
  { simpl. now rewrite distance_nil_l, length_reversed, Nat.add_0_r. }
  destruct b as [|b0 b'] eqn:Eb.
  { cbn [String.length Nat.eqb]. rewrite distance_nil_r, length_reversed.
    simpl. lia. }
  rewrite <- Ea, <- Eb.
  replace (String.length a =? 0) with false by (subst; reflexivity).
  replace (String.length b =? 0) with false by (subst; reflexivity).
  assert (Hrow0 : seq 0 (S (String.length b))
                  = map (distance []) ([] :: extensions [] b)).
  { cbn [map seq]. f_equal.
    pose proof (lengths_extensions b []) as H. cbn [List.length] in H.
    rewrite <- H. apply map_ext. intros p. now rewrite distance_nil_l. }
  rewrite Hrow0.
  change 1 with (S (@List.length ascii [])).
  rewrite rows_distance.
  apply nth_extensions.
Qed.

Lemma distance_sym : forall ra rb, distance ra rb = distance rb ra.
Proof.
  induction ra as [|x ra IHa]; intros rb.
  - now rewrite distance_nil_l, distance_nil_r.
  - induction rb as [|y rb IHb].
    + now rewrite distance_nil_l, distance_nil_r.
    + rewrite !distance_cons, IHb, (IHa rb), (IHa (y :: rb)).
      rewrite (Ascii.eqb_sym y x).
      destruct (Ascii.eqb x y); lia.
Qed.

Lemma distance_refl : forall r, distance r r = 0.
Proof.
  induction r as [|x r IH]; [reflexivity|].
  now rewrite distance_cons, Ascii.eqb_refl.
Qed.

Lemma distance_lower : forall ra rb,
  List.length ra - List.length rb <= distance ra rb
  /\ List.length rb - List.length ra <= distance ra rb.
Proof.
  induction ra as [|x ra IHa]; intros rb.
  - rewrite distance_nil_l. simpl. lia.
  - induction rb as [|y rb IHb].
    + rewrite distance_nil_r. simpl. lia.
    + rewrite distance_cons.
      pose proof (IHa rb). pose proof (IHa (y :: rb)).
      cbn [List.length] in *.
      destruct (Ascii.eqb x y); lia.
Qed.

Lemma distance_zero : forall ra rb, distance ra rb = 0 -> ra = rb.
Proof.
  induction ra as [|x ra IHa]; intros rb.
  - rewrite distance_nil_l. destruct rb; [reflexivity | discriminate].
  - destruct rb as [|y rb]; [discriminate|].
    rewrite distance_cons.
    destruct (Ascii.eqb x y) eqn:E; [|discriminate].
    apply Ascii.eqb_eq in E. subst. intros H. f_equal. now apply IHa.
Qed.

Lemma reversed_spec (s : string) :
  forall acc, reversed acc s = rev (list_ascii_of_string s) ++ acc.
Proof.
  induction s as [|c s IH]; intros acc; simpl; [reflexivity|].
  rewrite IH, <- app_assoc. reflexivity.
Qed.

Lemma reversed_inj (a b : string) : reversed [] a = reversed [] b -> a = b.
Proof.
  rewrite !reversed_spec, !app_nil_r. intros H.
  apply (f_equal (@rev ascii)) in H. rewrite !rev_involutive in H.
  rewrite <- (string_of_list_ascii_of_string a),
          <- (string_of_list_ascii_of_string b).
  now rewrite H.
Qed.

(** X1. The edit distance does not depend on the order of its two arguments.
    *)
Theorem levenshteinDistance_symmetric :
  forall a b : string,
    Fuzzy.levenshteinDistance a b = Fuzzy.levenshteinDistance b a.
Proof.
  intros a b. rewrite !levenshteinDistance_distance. apply distance_sym.
Qed.

(** X2. The edit distance of two strings is zero exactly when they are the
    same string. *)
Theorem levenshteinDistance_zero_iff_equal :
  forall a b : string, Fuzzy.levenshteinDistance a b = 0 <-> a = b.
Proof.
  intros a b. rewrite levenshteinDistance_distance. split.
  - intros H. apply reversed_inj, distance_zero, H.
  - intros ->. apply distance_refl.
Qed.

Lemma levenshteinDistance_zero_iff_equal_witness :
  Fuzzy.levenshteinDistance "cardiology" "cardiology" = 0.
Proof.
  apply (proj2 (levenshteinDistance_zero_iff_equal "cardiology" "cardiology")).
  reflexivity.
Defined.

(** X3. The edit distance is at least the difference of the two lengths and
    at most the longer of them. *)
Theorem levenshteinDistance_between_lengths :
  forall a b : string,
    String.length a - String.length b <= Fuzzy.levenshteinDistance a b
    /\ String.length b - String.length a <= Fuzzy.levenshteinDistance a b
    /\ Fuzzy.levenshteinDistance a b
       <= Nat.max (String.length a) (String.length b).
Proof.
  intros a b. split; [|split].
  - rewrite levenshteinDistance_distance.
    pose proof (distance_lower (reversed [] a) (reversed [] b)) as [H _].
    rewrite !length_reversed in H. simpl in H. lia.
  - rewrite levenshteinDistance_distance.
    pose proof (distance_lower (reversed [] a) (reversed [] b)) as [_ H].
    rewrite !length_reversed in H. simpl in H. lia.
  - apply levenshteinDistance_bound.
Qed.

Lemma allChars_append p a b :
  allChars p (String.append a b) = allChars p a && allChars p b.
Proof.
  induction a as [|c a IH]; simpl; [reflexivity|].
  now rewrite IH, andb_assoc.
Qed.

Lemma append_empty_r (a : string) : String.append a EmptyString = a.
Proof. induction a as [|c a IH]; simpl; [reflexivity | now rewrite IH]. Qed.

(** *** Words *)

Lemma splitWords_word (w rest : string) :
  w <> EmptyString -> allChars notSpace w = true -> startsBlankOrEnds rest ->
  splitWords (String.append w rest) = w :: splitWords rest.
Proof.
  induction w as [|c w IH]; intros Hne Hw Hrest; [congruence|].
  cbn [allChars] in Hw. apply andb_true_iff in Hw. destruct Hw as [Hc Hw].
  unfold notSpace in Hc. apply negb_true_iff in Hc.
  destruct w as [|c2 w2].
  - cbn [String.append splitWords]. rewrite Hc.
    destruct rest as [|d rest']; [reflexivity|].
    simpl in Hrest. now rewrite Hrest.
  - assert (Hc2 : isSpace c2 = false).
    { cbn [allChars] in Hw. apply andb_true_iff in Hw.
      destruct Hw as [H _]. now apply negb_true_iff in H. }
    specialize (IH ltac:(discriminate) Hw Hrest).
    change (String.append (String c (String c2 w2)) rest)
      with (String c (String.append (String c2 w2) rest)).
    remember (String.append (String c2 w2) rest) as tail eqn:Et.
    cbn [splitWords]. rewrite Hc.
    destruct tail as [|d tail']; [discriminate Et|].
    assert (d = c2) by (simpl in Et; congruence). subst d.
    rewrite Hc2, IH. reflexivity.
Qed.

Lemma splitWords_words (s : string) :
  Forall (fun t => t <> EmptyString /\ allChars notSpace t = true)
    (splitWords s).
Proof.
  induction s as [|c s IH]; [constructor|].
  cbn [splitWords]. destruct (isSpace c) eqn:Ec; [exact IH|].
  assert (Hc : notSpace c = true) by (unfold notSpace; now rewrite Ec).
  destruct s as [|d s'].
  - constructor; [|constructor]. split; [discriminate|]. simpl. now rewrite Hc.
  - destruct (isSpace d) eqn:Ed.
    + constructor; [|exact IH]. split; [discriminate|]. simpl. now rewrite Hc.
    + destruct (splitWords (String d s')) as [|t ts].
      * constructor; [|constructor]. split; [discriminate|].
        simpl. now rewrite Hc.
      * inversion IH as [|? ? [Ht1 Ht2] Hts]; subst.
        constructor; [|exact Hts]. split; [discriminate|].
        simpl. now rewrite Hc, Ht2.
Qed.

Lemma splitWords_chars (p : ascii -> bool) (s : string) :
  allChars p s = true -> Forall (fun t => allChars p t = true) (splitWords s).
Proof.
  induction s as [|c s IH]; intros H; [constructor|].
  cbn [allChars] in H. apply andb_true_iff in H. destruct H as [Hc Hs].
  specialize (IH Hs). cbn [splitWords].
  destruct (isSpace c); [exact IH|].
  destruct s as [|d s'].
  - constructor; [|constructor]. simpl. now rewrite Hc.
  - destruct (isSpace d).
    + constructor; [|exact IH]. simpl. now rewrite Hc.
    + destruct (splitWords (String d s')) as [|t ts].
      * constructor; [|constructor]. simpl. now rewrite Hc.
      * inversion IH; subst. constructor; [|assumption].
        simpl. now rewrite Hc.
Qed.

Lemma splitWords_nil (s : string) :
  splitWords s = [] <-> allChars isSpace s = true.
Proof.
  induction s as [|c s IH]; [simpl; tauto|].
  cbn [splitWords allChars]. destruct (isSpace c) eqn:Ec; cbn [andb].
  - exact IH.
  - split; [|discriminate]. intros H. exfalso.
    destruct s as [|d s']; [discriminate|].
    destruct (isSpace d); [discriminate|].
    destruct (splitWords (String d s')); discriminate.
Qed.

Lemma splitWords_join (l : list string) :
  Forall (fun t => t <> EmptyString /\ allChars notSpace t = true) l ->
  splitWords (join " " l) = l.
Proof.
  induction l as [|t l IH]; intros H; [reflexivity|].
  inversion H as [|? ? [Hne Hw] Hl]; subst. specialize (IH Hl).
  destruct l as [|t2 l2].
  - cbn [join]. rewrite <- (append_empty_r t) at 1.
    rewrite splitWords_word; auto. simpl. exact I.
  - change (join " " (t :: t2 :: l2))
      with (String.append t (String.append " " (join " " (t2 :: l2)))).
    rewrite splitWords_word; auto; [|reflexivity].
    f_equal. exact IH.
Qed.

(** *** Normalisation *)

Lemma prepared_char (c : ascii) :
  let c' := if Fuzzy.isPunct (toLowerChar c) then " "%char else toLowerChar c in
  settled c' = true /\ isSpace c' = blank c.
Proof. destruct c as [[] [] [] [] [] [] [] []]; split; reflexivity. Qed.

Lemma prepared_settled (name : string) :
  allChars settled (replaceClass Fuzzy.isPunct (toLowerCase name)) = true.
Proof.
  induction name as [|c s IH]; [reflexivity|].
  cbn [toLowerCase replaceClass allChars].
  now rewrite (proj1 (prepared_char c)), IH.
Qed.

Lemma prepared_blank (name : string) :
  allChars isSpace (replaceClass Fuzzy.isPunct (toLowerCase name))
  = allChars blank name.
Proof.
  induction name as [|c s IH]; [reflexivity|].
  cbn [toLowerCase replaceClass allChars].
  now rewrite (proj2 (prepared_char c)), IH.
Qed.

Lemma settled_fixed (s : string) :
  allChars settled s = true ->
  replaceClass Fuzzy.isPunct (toLowerCase s) = s.
Proof.
  induction s as [|c s IH]; [reflexivity|].
  cbn [allChars toLowerCase replaceClass]. rewrite andb_true_iff.
  intros [Hc Hs]. unfold settled in Hc. apply andb_true_iff in Hc.
  destruct Hc as [Hl Hp]. apply Ascii.eqb_eq in Hl.
  apply negb_true_iff in Hp. now rewrite Hl, Hp, IH.
Qed.

Lemma allChars_join (p : ascii -> bool) (l : list string) :
  p " "%char = true ->
  Forall (fun t => allChars p t = true) l ->
  allChars p (join " " l) = true.
Proof.
  intros Hsp. induction l as [|t l IH]; intros H; [reflexivity|].
  inversion H; subst. destruct l as [|t2 l2]; [assumption|].
  change (join " " (t :: t2 :: l2))
    with (String.append t (String.append " " (join " " (t2 :: l2)))).
  rewrite !allChars_append. cbn [allChars]. rewrite Hsp.
  rewrite IH by assumption. now rewrite H2.
Qed.

Lemma join_empty (l : list string) :
  Forall (fun t => t <> EmptyString) l ->
  join " " l = EmptyString -> l = [].
Proof.
  destruct l as [|t l]; [reflexivity|]. intros H. inversion H; subst.
  destruct t as [|c t]; [congruence|].
  destruct l; simpl; discriminate.
Qed.

Lemma Forall_filter {A : Type} (P : A -> Prop) (f : A -> bool) (l : list A) :
  Forall P l -> Forall P (filter f l).
Proof.
  induction 1 as [|x l Hx Hl IH]; simpl; [constructor|].
  destruct (f x); [constructor|]; assumption.
Qed.

Lemma filter_twice {A : Type} (f : A -> bool) (l : list A) :
  filter f (filter f l) = filter f l.
Proof.
  induction l as [|x l IH]; simpl; [reflexivity|].
  destruct (f x) eqn:E; simpl; [rewrite E|]; now rewrite ?IH.
Qed.

(** The tokens that [normalizeName] joins. *)
Lemma normalizeName_tokens (name : string) :
  exists toks,
    Fuzzy.normalizeName name = join " " toks /\
    Forall (fun t => t <> EmptyString /\ allChars notSpace t = true) toks /\
    Forall (fun t => allChars settled t = true) toks /\
    (toks = [] <-> allChars blank name = true) /\
    (filter notStripped toks = toks \/ filter notStripped toks = []).
Proof.
  unfold Fuzzy.normalizeName.
  set (n := replaceClass Fuzzy.isPunct (toLowerCase name)).
  fold notStripped.
  pose proof (splitWords_words n) as Hw.
  pose proof (splitWords_chars settled n (prepared_settled name)) as Hs.
  pose proof (splitWords_nil n) as Hnil.
  unfold n in Hnil at 2. rewrite prepared_blank in Hnil.
  destruct (filter notStripped (splitWords n)) as [|t ts] eqn:Ef.
  - exists (splitWords n). cbn [List.length Nat.ltb Nat.leb].
    split; [reflexivity|]. split; [exact Hw|]. split; [exact Hs|].
    split; [exact Hnil|]. right. exact Ef.
  - exists (t :: ts). cbn [List.length Nat.ltb Nat.leb]. rewrite <- Ef.
    split; [reflexivity|]. split; [now apply Forall_filter|].
    split; [now apply Forall_filter|]. split.
    + split.
      * rewrite Ef. discriminate.
      * intros Hb. apply Hnil in Hb. rewrite Hb in Ef. discriminate.
    + left. apply filter_twice.
Qed.

Lemma filter_none {A : Type} (p : A -> bool) (l : list A) :
  Forall (fun x => p x = false) l -> filter p l = [].
Proof.
  induction 1 as [|x l Hx _ IH]; [reflexivity|].
  cbn [filter]. now rewrite Hx.
Qed.

(** X4. A name normalises to the empty string exactly when it consists of
    whitespace and of the punctuation marks that are blanked out.  A name
    whose tokens are all stop-list terms keeps them: its normal form is
    these tokens joined by single spaces, and splits into them again. *)
Theorem normalizeName_empty_iff_blank :
  forall name : string,
    (Fuzzy.normalizeName name = EmptyString
     <-> allChars blank name = true) /\
    let tokens := splitWords (replaceClass Fuzzy.isPunct (toLowerCase name)) in
    (Forall (fun t => includes Fuzzy.STRIP_TERMS t = true) tokens ->
     Fuzzy.normalizeName name = join " " tokens /\
     splitWords (Fuzzy.normalizeName name) = tokens).
Proof.
  intros name. split.
  - destruct (normalizeName_tokens name) as [toks [-> [Hw [_ [Hnil _]]]]].
    rewrite <- Hnil. split.
    + apply join_empty. eapply Forall_impl; [|exact Hw]. now intros t [H _].
    + now intros ->.
  - intros tokens Hstop.
    assert (E : Fuzzy.normalizeName name = join " " tokens).
    { unfold Fuzzy.normalizeName. fold tokens.
      rewrite filter_none; [reflexivity|].
      eapply Forall_impl; [|exact Hstop]. intros t Ht. cbv beta.
      now rewrite Ht. }
    split; [exact E|].
    rewrite E. apply splitWords_join. apply splitWords_words.
Qed.

Lemma normalizeName_empty_iff_blank_witness :
  Fuzzy.normalizeName " (-) ., " = EmptyString /\
  Fuzzy.normalizeName "LLC  Medical" = "llc medical" /\
  splitWords (Fuzzy.normalizeName "LLC  Medical") = ["llc"; "medical"].
Proof.
  split.
  - apply (proj1 (normalizeName_empty_iff_blank " (-) ., ")). reflexivity.
  - apply (proj2 (normalizeName_empty_iff_blank "LLC  Medical")).
    repeat constructor.
Defined.

Lemma normalizeName_twice (name : string) :
  Fuzzy.normalizeName (Fuzzy.normalizeName name) = Fuzzy.normalizeName name.
Proof.
  destruct (normalizeName_tokens name) as [toks [-> [Hw [Hs [_ Hf]]]]].
  unfold Fuzzy.normalizeName at 1.
  rewrite settled_fixed by (apply allChars_join; [reflexivity | exact Hs]).
  rewrite splitWords_join by exact Hw.
  fold notStripped.
  destruct Hf as [-> | ->].
  - destruct toks; reflexivity.
  - reflexivity.
Qed.

(** X5. Normalising a normalised name changes nothing, so the similarity of
    two names is the similarity of their normalised forms. *)
Theorem normalizeName_idempotent :
  forall a b : string,
    Fuzzy.normalizeName (Fuzzy.normalizeName a) = Fuzzy.normalizeName a /\
    Fuzzy.fuzzyNameMatch (Fuzzy.normalizeName a) (Fuzzy.normalizeName b)
    = Fuzzy.fuzzyNameMatch a b.
Proof.
  intros a b. split; [apply normalizeName_twice|].
  unfold Fuzzy.fuzzyNameMatch. now rewrite !normalizeName_twice.
Qed.

(** *** Token sets *)

Lemma same_elements_same_length (l1 l2 : list string) :
  NoDup l1 -> NoDup l2 -> (forall x, In x l1 <-> In x l2) ->
  List.length l1 = List.length l2.
Proof.
  intros H1 H2 H. apply Nat.le_antisymm.
  - apply NoDup_incl_length; [exact H1|]. intros x. apply H.
  - apply NoDup_incl_length; [exact H2|]. intros x. apply H.
Qed.

Lemma in_intersection (x : string) (setA setB : list string) :
  In x (newSet (filter (includes setB) setA)) <-> In x setA /\ In x setB.
Proof. now rewrite in_newSet, filter_In, includes_In. Qed.

Lemma in_union (x : string) (setA setB : list string) :
  In x (newSet (setA ++ setB)) <-> In x setA \/ In x setB.
Proof. now rewrite in_newSet, in_app_iff. Qed.

Lemma length_zero_iff_nil {A : Type} (l : list A) :
  (List.length l =? 0) = true <-> l = [].
Proof. destruct l; simpl; split; congruence. Qed.

Lemma newSet_nil (l : list string) : newSet l = [] <-> l = [].
Proof.
  split; [|now intros ->].
  destruct l as [|x l]; [reflexivity|]. intros H. exfalso.
  assert (Hin : In x (newSet (x :: l))) by (apply in_newSet; now left).
  now rewrite H in Hin.
Qed.

Lemma tokenJaccard_sym :
  forall a b : string, Fuzzy.tokenJaccard a b = Fuzzy.tokenJaccard b a.
Proof.
  intros a b. unfold Fuzzy.tokenJaccard.
  set (setA := newSet (splitWords a)). set (setB := newSet (splitWords b)).
  rewrite (andb_comm (List.length setB =? 0)).
  assert (Hi : List.length (newSet (filter (includes setB) setA))
               = List.length (newSet (filter (includes setA) setB))).
  { apply same_elements_same_length; try apply NoDup_newSet.
    intros x. rewrite !in_intersection. tauto. }
  assert (Hu : List.length (newSet (setA ++ setB))
               = List.length (newSet (setB ++ setA))).
  { apply same_elements_same_length; try apply NoDup_newSet.
    intros x. rewrite !in_union. tauto. }
  now rewrite Hi, Hu.
Qed.

Lemma ofNat_zero (n : nat) : (Fuzzy.ofNat n == 0)%Q <-> n = 0.
Proof.
  unfold Fuzzy.ofNat. change 0%Q with (inject_Z 0).
  rewrite inject_Z_injective. lia.
Qed.

Lemma ratio_one (i u : nat) :
  u <> 0 -> ((Fuzzy.ofNat i / Fuzzy.ofNat u == 1)%Q <-> i = u).
Proof.
  intros Hu.
  assert (Hnz : ~ (Fuzzy.ofNat u == 0)%Q) by (rewrite ofNat_zero; exact Hu).
  split.
  - intros H.
    assert (E : (Fuzzy.ofNat i == Fuzzy.ofNat u)%Q).
    { rewrite <- (Qmult_div_r (Fuzzy.ofNat i) (Fuzzy.ofNat u) Hnz), H.
      apply Qmult_1_r. }
    unfold Fuzzy.ofNat in E. rewrite inject_Z_injective in E. lia.
  - intros ->. unfold Qdiv. now apply Qmult_inv_r.
Qed.

Lemma ratio_zero (i u : nat) :
  u <> 0 -> ((Fuzzy.ofNat i / Fuzzy.ofNat u == 0)%Q <-> i = 0).
Proof.
  intros Hu.
  assert (Hnz : ~ (Fuzzy.ofNat u == 0)%Q) by (rewrite ofNat_zero; exact Hu).
  split.
  - intros H. apply ofNat_zero.
    rewrite <- (Qmult_div_r (Fuzzy.ofNat i) (Fuzzy.ofNat u) Hnz), H.
    apply Qmult_0_r.
  - intros ->. unfold Qdiv. apply Qmult_0_l.
Qed.

Lemma tokenJaccard_extreme_values :
  forall a b : string,
    ((Fuzzy.tokenJaccard a b == 1)%Q <->
     splitWords a <> [] /\
     forall t, In t (splitWords a) <-> In t (splitWords b)) /\
    ((Fuzzy.tokenJaccard a b == 0)%Q <->
     forall t, ~ (In t (splitWords a) /\ In t (splitWords b))).
Proof.
  intros a b. unfold Fuzzy.tokenJaccard.
  set (setA := newSet (splitWords a)). set (setB := newSet (splitWords b)).
  set (inter := newSet (filter (includes setB) setA)).
  set (union := newSet (setA ++ setB)).
  assert (HA : forall t, In t setA <-> In t (splitWords a))
    by (intros; apply in_newSet).
  assert (HB : forall t, In t setB <-> In t (splitWords b))
    by (intros; apply in_newSet).
  assert (HI : forall t, In t inter <-> In t setA /\ In t setB)
    by (intros; apply in_intersection).
  assert (HU : forall t, In t union <-> In t setA \/ In t setB)
    by (intros; apply in_union).
  destruct ((List.length setA =? 0) && (List.length setB =? 0)) eqn:Eboth.
  { apply andb_true_iff in Eboth. destruct Eboth as [Ea Eb].
    apply (proj1 (length_zero_iff_nil _)) in Ea.
    apply (proj1 (newSet_nil _)) in Ea.
    apply (proj1 (length_zero_iff_nil _)) in Eb.
    apply (proj1 (newSet_nil _)) in Eb. split.
    - split; [discriminate|]. intros [Hne _]. congruence.
    - split; [|reflexivity]. intros _ t [Hin _]. now rewrite Ea in Hin. }
  destruct (List.length union =? 0) eqn:Eu.
  { exfalso. apply (proj1 (length_zero_iff_nil _)) in Eu.
    apply andb_false_iff in Eboth. destruct Eboth as [E | E].
    - destruct setA as [|x r] eqn:Es; [discriminate|].
      assert (Hx : In x union) by (apply HU; left; now left).
      now rewrite Eu in Hx.
    - destruct setB as [|x r] eqn:Es; [discriminate|].
      assert (Hx : In x union) by (apply HU; right; now left).
      now rewrite Eu in Hx. }
  apply Nat.eqb_neq in Eu. split.
  - rewrite (ratio_one _ _ Eu). split.
    + intros Hlen.
      assert (Hincl : incl union inter).
      { apply NoDup_length_incl;
          [apply NoDup_newSet | rewrite Hlen; apply Nat.le_refl |].
        intros t Ht. apply HU. apply HI in Ht. tauto. }
      split.
      * intros Hnil. 
        destruct union as [|x r] eqn:Es; [now apply Eu|].
        assert (Hx : In x inter) by (apply Hincl; now left).
        apply HI in Hx. destruct Hx as [Hx _]. apply HA in Hx.
        now rewrite Hnil in Hx.
      * intros t. rewrite <- HA, <- HB. split; intros Ht.
        -- assert (H : In t inter) by (apply Hincl, HU; now left).
           now apply HI in H.
        -- assert (H : In t inter) by (apply Hincl, HU; now right).
           now apply HI in H.
    + intros [_ Hsame].
      apply same_elements_same_length; try apply NoDup_newSet.
      intros t. rewrite HI, HU, !HA, !HB. specialize (Hsame t). tauto.
  - rewrite (ratio_zero _ _ Eu). split.
    + intros Hlen t [Ha Hb].
      assert (H : In t inter) by (apply HI; rewrite HA, HB; tauto).
      destruct inter; [destruct H | discriminate].
    + intros Hno. destruct inter as [|x r] eqn:Es; [reflexivity|]. exfalso.
      assert (Hx : In x (x :: r)) by now left.
      apply (proj1 (HI x)) in Hx. rewrite HA, HB in Hx.
      exact (Hno x Hx).
Qed.

(** X6. The token similarity is symmetric; it is 1 exactly when the two
    strings have the same tokens and at least one, whatever their order and
    repetitions, and 0 exactly when they share no token. *)
Theorem tokenJaccard_symmetry_and_extremes :
  forall a b : string,
    Fuzzy.tokenJaccard a b = Fuzzy.tokenJaccard b a /\
    ((Fuzzy.tokenJaccard a b == 1)%Q <->
     splitWords a <> [] /\
     forall t, In t (splitWords a) <-> In t (splitWords b)) /\
    ((Fuzzy.tokenJaccard a b == 0)%Q <->
     forall t, ~ (In t (splitWords a) /\ In t (splitWords b))).
Proof.
  intros a b. split; [apply tokenJaccard_sym|].
  apply tokenJaccard_extreme_values.
Qed.

Lemma tokenJaccard_symmetry_and_extremes_witness :
  (Fuzzy.tokenJaccard "valley cardiology" "cardiology valley valley" == 1)%Q.
Proof.
  apply (proj2 (proj1 (proj2 (tokenJaccard_symmetry_and_extremes
                                "valley cardiology"
                                "cardiology valley valley")))).
  split; [discriminate|]. intros t. simpl. tauto.
Defined.

(** X7. The name similarity does not depend on the order of the two names.
    *)
Theorem fuzzyNameMatch_symmetric :
  forall a b : string, Fuzzy.fuzzyNameMatch a b = Fuzzy.fuzzyNameMatch b a.
Proof.
  intros a b. unfold Fuzzy.fuzzyNameMatch.
  rewrite (String.eqb_sym (Fuzzy.normalizeName b)).
  destruct (String.eqb (Fuzzy.normalizeName a) (Fuzzy.normalizeName b));
    [reflexivity|].
  rewrite (tokenJaccard_sym (Fuzzy.normalizeName b)).
  rewrite (Nat.max_comm (String.length (Fuzzy.normalizeName b))).
  rewrite !levenshteinDistance_distance.
  now rewrite (distance_sym (reversed [] (Fuzzy.normalizeName b))).
Qed.

Lemma fuzzyNameMatch_range (a b : string) :
  (0 <= Fuzzy.fuzzyNameMatch a b)%Q /\ (Fuzzy.fuzzyNameMatch a b <= 1)%Q.
Proof.
  unfold Fuzzy.fuzzyNameMatch.
  destruct (String.eqb _ _); [split; discriminate|].
  destruct (tokenJaccard_bounds (Fuzzy.normalizeName a)
              (Fuzzy.normalizeName b)) as [J0 J1].
  apply mathMax_bounds; [exact J0 | exact J1 |].
  destruct (Nat.max _ _ =? 0) eqn:E; [discriminate|].
  apply Nat.eqb_neq in E.
  pose proof (ratio_nonneg
    (Fuzzy.levenshteinDistance (Fuzzy.normalizeName a)
       (Fuzzy.normalizeName b)) _ E) as Hd.
  lra.
Qed.

(** What a pushed result says about the referral it was computed from. *)
Lemma scoreReferral_facts (info : EncounterInfo) (r : OpenReferral)
    (m : MatchResult) :
  scoreReferral info r = Some m ->
  serviceRequestId m = srId (serviceRequest r) /\
  mrTaskId m = taskId (task r) /\
  matchable r = true /\
  (score m == weightedSum (signals m))%Q /\
  (0 <= sigOrgName (signals m))%Q /\ (sigOrgName (signals m) <= 1)%Q.
Proof.
  unfold scoreReferral, matchable.
  set (targets := getTargetIdentifiers (serviceRequest r)).
  set (hitOrg := sameTruthy (tOrgNpi targets) (encOrgNpi info)).
  set (nameSim := match tOrgName targets with
                  | Some tn =>
                      if truthy tn && truthy (encOrgName info)
                      then Some (Fuzzy.fuzzyNameMatch tn (encOrgName info))
                      else None
                  | None => None
                  end).
  set (hitPract := sameTruthy (tPractitionerNpi targets) (encPractNpi info)).
  set (hitSpec := sameTruthy (tSpecialtyCode targets) (encSpecialty info)).
  set (hitDate := match encDate info,
                        srOccurrencePeriod (serviceRequest r) with
                  | Some d, Some w => truthy d && inWindow d w
                  | _, _ => false
                  end).
  assert (Hsim : forall sim, nameSim = Some sim ->
                             (0 <= sim)%Q /\ (sim <= 1)%Q).
  { intros sim. unfold nameSim.
    destruct (tOrgName targets) as [tn|]; [|discriminate].
    destruct (truthy tn && truthy (encOrgName info)); [|discriminate].
    intros H. inversion H. apply fuzzyNameMatch_range. }
  clearbody hitOrg nameSim hitPract hitSpec hitDate.
  destruct (negb (truthyOpt (tOrgNpi targets))
            && negb (truthyOpt (tOrgName targets))
            && negb (truthyOpt (tPractitionerNpi targets))) eqn:Eskip;
    [discriminate|].
  match goal with
  | |- (if geq ?sc _ then _ else _) = _ -> _ =>
      destruct (geq sc MIN_SCORE_THRESHOLD); [|discriminate]
  end.
  intros H. inversion H; subst; clear H.
  cbn [serviceRequestId mrTaskId score signals sigOrgName].
  split; [reflexivity|]. split; [reflexivity|]. split.
  { destruct (truthyOpt (tOrgNpi targets)), (truthyOpt (tOrgName targets)),
      (truthyOpt (tPractitionerNpi targets)); try reflexivity.
    discriminate Eskip. }
  unfold weightedSum, indicator, WEIGHTS.
  cbn [sigOrgNpi sigOrgName sigPractitionerNpi sigSpecialty sigDateInWindow
       wOrgNpi wOrgName wPractitionerNpi wSpecialty wDateInWindow].
  destruct nameSim as [sim|].
  - destruct (Hsim sim eq_refl) as [H0 H1].
    destruct hitOrg, hitPract, hitSpec, hitDate; (split; [ring | lra]).
  - destruct hitOrg, hitPract, hitSpec, hitDate; (split; [ring | lra]).
Qed.

Lemma in_results (e : Encounter) (refs : list OpenReferral)
    (context : MatchContext) (m : MatchResult) :
  In m (matchEncounterToReferrals e refs context) ->
  exists sp r,
    serviceProvider e = Some sp /\ In r refs /\
    scoreReferral (encounterInfo e sp context) r = Some m.
Proof.
  unfold matchEncounterToReferrals.
  destruct (serviceProvider e) as [sp|]; [|intros []].
  intros H. apply in_sortDesc, in_scoreAll in H.
  destruct H as [r [Hr Hs]]. exists sp, r. auto.
Qed.

(** X8. Every result of the scorer carries the identifiers of one of the
    referrals it was given, and of the task paired with it, and that
    referral names an organisation identifier, an organisation name or a
    practitioner identifier. *)
Theorem result_comes_from_a_matchable_referral :
  forall (e : Encounter) (refs : list OpenReferral) (context : MatchContext)
         (m : MatchResult),
    In m (matchEncounterToReferrals e refs context) ->
    exists r,
      In r refs /\
      serviceRequestId m = srId (serviceRequest r) /\
      mrTaskId m = taskId (task r) /\
      matchable r = true.
Proof.
  intros e refs context m H.
  destruct (in_results _ _ _ _ H) as [sp [r [_ [Hr Hs]]]].
  apply scoreReferral_facts in Hs. exists r. tauto.
Qed.

Lemma in_visitResults : In Sample.visitTop Sample.visitResults.
Proof.
  vm_compute. left. reflexivity.
Defined.

Lemma result_comes_from_a_matchable_referral_witness :
  exists r,
    In r (getOpenReferrals Sample.seeded "patient-001") /\
    serviceRequestId Sample.visitTop = srId (serviceRequest r) /\
    mrTaskId Sample.visitTop = taskId (task r) /\
    matchable r = true.
Proof.
  exact (result_comes_from_a_matchable_referral _ _ _ _ in_visitResults).
Defined.

(** X9. The score of a result is the weighted sum of the signals reported
    with it, and the reported name similarity lies between 0 and 1. *)
Theorem score_is_weighted_sum_of_signals :
  forall (e : Encounter) (refs : list OpenReferral) (context : MatchContext)
         (m : MatchResult),
    In m (matchEncounterToReferrals e refs context) ->
    (score m == weightedSum (signals m))%Q /\
    (0 <= sigOrgName (signals m))%Q /\ (sigOrgName (signals m) <= 1)%Q.
Proof.
  intros e refs context m H.
  destruct (in_results _ _ _ _ H) as [sp [r [_ [Hr Hs]]]].
  apply scoreReferral_facts in Hs. tauto.
Qed.

Lemma score_is_weighted_sum_of_signals_witness :
  (score Sample.visitTop == weightedSum (signals Sample.visitTop))%Q /\
  (0 <= sigOrgName (signals Sample.visitTop))%Q /\
  (sigOrgName (signals Sample.visitTop) <= 1)%Q.
Proof.
  exact (score_is_weighted_sum_of_signals _ _ _ _ in_visitResults).
Defined.

Lemma weightedSum_le_one (g : Signals) :
  (0 <= sigOrgName g)%Q -> (sigOrgName g <= 1)%Q ->
  (weightedSum g <= 1)%Q.
Proof.
  intros H0 H1. unfold weightedSum, indicator, WEIGHTS.
  cbn [wOrgNpi wOrgName wPractitionerNpi wSpecialty wDateInWindow].
  destruct (sigOrgNpi g), (sigPractitionerNpi g), (sigSpecialty g),
    (sigDateInWindow g); lra.
Qed.

(** X10. Every score in the output is at least the minimum threshold 0.10
    and at most 1. *)
Theorem score_between_threshold_and_one :
  forall (e : Encounter) (refs : list OpenReferral) (context : MatchContext)
         (m : MatchResult),
    In m (matchEncounterToReferrals e refs context) ->
    (1 # 10 <= score m)%Q /\ (score m <= 1)%Q.
Proof.
  intros e refs context m H.
  destruct (in_results _ _ _ _ H) as [sp [r [_ [Hr Hs]]]].
  destruct (scoreReferral_confidence _ _ _ Hs) as [_ Hmin].
  apply scoreReferral_facts in Hs.
  destruct Hs as [_ [_ [_ [Hsum [H0 H1]]]]]. split.
  - apply geq_true in Hmin. unfold MIN_SCORE_THRESHOLD in Hmin. lra.
  - rewrite Hsum. now apply weightedSum_le_one.
Qed.

Lemma score_between_threshold_and_one_witness :
  (1 # 10 <= score Sample.visitTop)%Q /\ (score Sample.visitTop <= 1)%Q.
Proof.
  exact (score_between_threshold_and_one _ _ _ _ in_visitResults).
Defined.

(** X11. A result of high confidence has an exact identifier match: the
    organisation identifier or the practitioner identifier. Name, specialty
    and date together never reach it. *)
Theorem high_confidence_needs_an_identifier :
  forall (e : Encounter) (refs : list OpenReferral) (context : MatchContext)
         (m : MatchResult),
    In m (matchEncounterToReferrals e refs context) ->
    confidence m = High ->
    sigOrgNpi (signals m) = true \/ sigPractitionerNpi (signals m) = true.
Proof.
  intros e refs context m H Hhigh.
  destruct (in_results _ _ _ _ H) as [sp [r [_ [Hr Hs]]]].
  destruct (scoreReferral_confidence _ _ _ Hs) as [Hc _].
  apply scoreReferral_facts in Hs.
  destruct Hs as [_ [_ [_ [Hsum [H0 H1]]]]].
  rewrite Hc in Hhigh. unfold confidenceOf in Hhigh.
  destruct (geq (score m) HIGH_CONFIDENCE) eqn:Eh.
  - apply geq_true in Eh. unfold HIGH_CONFIDENCE in Eh.
    rewrite Hsum in Eh. unfold weightedSum, indicator, WEIGHTS in Eh.
    cbn [wOrgNpi wOrgName wPractitionerNpi wSpecialty wDateInWindow] in Eh.
    destruct (sigOrgNpi (signals m)); [now left|].
    destruct (sigPractitionerNpi (signals m)); [now right|].
    exfalso.
    destruct (sigSpecialty (signals m)), (sigDateInWindow (signals m)); lra.
  - destruct (geq (score m) MEDIUM_CONFIDENCE); discriminate.
Qed.

Lemma high_confidence_needs_an_identifier_witness :
  sigOrgNpi (signals Sample.visitTop) = true
  \/ sigPractitionerNpi (signals Sample.visitTop) = true.
Proof.
  apply (high_confidence_needs_an_identifier _ _ _ _ in_visitResults).
  reflexivity.
Defined.

(** *** Order *)

Lemma insertDesc_sorted (x : MatchResult) (l : list MatchResult) :
  StronglySorted (fun a b => (score b <= score a)%Q) l ->
  StronglySorted (fun a b => (score b <= score a)%Q) (insertDesc x l).
Proof.
  induction 1 as [|y l Hl IH Hy]; simpl.
  - constructor; constructor.
  - destruct (Qle_bool (score y) (score x)) eqn:E.
    + apply Qle_bool_iff in E. constructor.
      * constructor; assumption.
      * constructor; [exact E|].
        rewrite Forall_forall in Hy |- *. intros z Hz.
        apply Qle_trans with (score y); [now apply Hy | exact E].
    + assert (Hlt : (score x < score y)%Q).
      { apply Qnot_le_lt. intros Hle. apply Qle_bool_iff in Hle. congruence. }
      constructor; [exact IH|].
      rewrite Forall_forall in Hy |- *. intros z Hz.
      apply in_insertDesc in Hz. destruct Hz as [-> | Hz].
      * now apply Qlt_le_weak.
      * now apply Hy.
Qed.

Lemma sortDesc_sorted (l : list MatchResult) :
  StronglySorted (fun a b => (score b <= score a)%Q) (sortDesc l).
Proof.
  induction l as [|x l IH]; simpl; [constructor|].
  now apply insertDesc_sorted.
Qed.

Lemma length_insertDesc (x : MatchResult) (l : list MatchResult) :
  List.length (insertDesc x l) = S (List.length l).
Proof.
  induction l as [|y l IH]; simpl; [reflexivity|].
  destruct (Qle_bool (score y) (score x)); simpl; [reflexivity|].
  now rewrite IH.
Qed.

Lemma length_sortDesc (l : list MatchResult) :
  List.length (sortDesc l) = List.length l.
Proof.
  induction l as [|x l IH]; simpl; [reflexivity|].
  now rewrite length_insertDesc, IH.
Qed.

Lemma length_scoreAll (info : EncounterInfo) (l : list OpenReferral) :
  List.length (scoreAll info l) <= List.length l.
Proof.
  induction l as [|r l IH]; simpl; [lia|].
  destruct (scoreReferral info r); simpl; lia.
Qed.

(** X12. The results are in order of non-increasing score, and there are no
    more of them than referrals. *)
Theorem results_are_sorted_by_score :
  forall (e : Encounter) (refs : list OpenReferral) (context : MatchContext),
    StronglySorted (fun a b => (score b <= score a)%Q)
      (matchEncounterToReferrals e refs context)
    /\ List.length (matchEncounterToReferrals e refs context)
       <= List.length refs.
Proof.
  intros e refs context. unfold matchEncounterToReferrals.
  destruct (serviceProvider e) as [sp|].
  - split; [apply sortDesc_sorted|].
    rewrite length_sortDesc. apply length_scoreAll.
  - split; [constructor | simpl; lia].
Qed.



(** X13. The target identifiers that makeServiceRequest writes into the
    extension are the ones getTargetIdentifiers reads back; an absent or
    empty target reads back as undefined. *)
Theorem target_identifiers_round_trip :
  forall input : MakeServiceRequestInput,
    getTargetIdentifiers (makeServiceRequest input)
    = mkTargets (given (targetOrgNpi input)) (given (targetOrgName input))
        (given (targetPractitionerNpi input))
        (given (targetSpecialtyCode input)).
Proof.
  intros input. unfold getTargetIdentifiers, makeServiceRequest, given.
  cbn [srExtension].
  destruct (originMethod input) as [[|? ?]|],
           (targetOrgNpi input) as [[|? ?]|],
           (targetOrgName input) as [[|? ?]|],
           (targetPractitionerNpi input) as [[|? ?]|],
           (targetSpecialtyCode input) as [[|? ?]|]; reflexivity.
Qed.


(** ** Maps *)

Section JsMapMore.
Context {V : Type}.

Lemma get_set_other (m : JsMap.t V) (k k' : string) (v : V) :
  k' <> k -> JsMap.get (JsMap.set m k v) k' = JsMap.get m k'.
Proof.
  intros Hne. induction m as [|[k0 v0] m IH]; simpl.
  - destruct (String.eqb k k') eqn:E; [|reflexivity].
    apply String.eqb_eq in E. congruence.
  - destruct (String.eqb k0 k) eqn:E; simpl.
    + apply String.eqb_eq in E. subst k0.
      destruct (String.eqb k k') eqn:E'; [|reflexivity].
      apply String.eqb_eq in E'. congruence.
    + now rewrite IH.
Qed.

Lemma keys_set (m : JsMap.t V) (k : string) (v : V) :
  keys (JsMap.set m k v) = if JsMap.has m k then keys m else keys m ++ [k].
Proof.
  unfold JsMap.has, keys. induction m as [|[k0 v0] m IH]; simpl; [reflexivity|].
  destruct (String.eqb k0 k) eqn:E; simpl; [reflexivity|].
  rewrite IH. destruct (JsMap.get m k); reflexivity.
Qed.

Lemma get_some_in (m : JsMap.t V) (k : string) (v : V) :
  JsMap.get m k = Some v -> In (k, v) m.
Proof.
  induction m as [|[k0 v0] m IH]; simpl; [discriminate|].
  destruct (String.eqb k0 k) eqn:E.
  - apply String.eqb_eq in E. intros H. inversion H. subst. now left.
  - intros H. right. now apply IH.
Qed.

Lemma get_none_keys (m : JsMap.t V) (k : string) :
  JsMap.get m k = None <-> ~ In k (keys m).
Proof.
  unfold keys. induction m as [|[k0 v0] m IH]; simpl; [tauto|].
  destruct (String.eqb k0 k) eqn:E.
  - apply String.eqb_eq in E. split; [discriminate | tauto].
  - apply String.eqb_neq in E. rewrite IH. tauto.
Qed.

Lemma in_get (m : JsMap.t V) (k : string) (v : V) :
  NoDup (keys m) -> In (k, v) m -> JsMap.get m k = Some v.
Proof.
  unfold keys. induction m as [|[k0 v0] m IH]; simpl; [tauto|].
  intros Hnd [H | H].
  - inversion H; subst. now rewrite String.eqb_refl.
  - inversion Hnd as [|? ? Hnot Hnd']; subst.
    destruct (String.eqb k0 k) eqn:E.
    + apply String.eqb_eq in E. subst. exfalso. apply Hnot.
      apply (in_map fst) in H. exact H.
    + now apply IH.
Qed.

Lemma in_set (m : JsMap.t V) (k : string) (v : V) :
  In (k, v) (JsMap.set m k v).
Proof.
  induction m as [|[k0 v0] m IH]; simpl; [now left|].
  destruct (String.eqb k0 k) eqn:E.
  - apply String.eqb_eq in E. subst. now left.
  - now right.
Qed.

Lemma NoDup_keys_set (m : JsMap.t V) (k : string) (v : V) :
  NoDup (keys m) -> NoDup (keys (JsMap.set m k v)).
Proof.
  intros H. rewrite keys_set. unfold JsMap.has.
  destruct (JsMap.get m k) eqn:E; [exact H|].
  apply get_none_keys in E.
  apply NoDup_app; [exact H | constructor; [tauto | constructor] |].
  intros x Hx [<- | []]. exact (E Hx).
Qed.

End JsMapMore.

(** ** Store helpers *)

Lemma optEqb_true (o : option string) (x : string) :
  optEqb o x = true <-> o = Some x.
Proof.
  unfold optEqb. destruct o as [y|]; [|split; discriminate].
  rewrite String.eqb_eq. split; congruence.
Qed.

Lemma resolveIn_some (l : JsMap.t BrokerSession) (id p : string) :
  resolveIn l id = Some p ->
  exists session, In (p, session) l /\ sourceId session = Some id.
Proof.
  induction l as [|[k sess] l IH]; simpl; [discriminate|].
  destruct (optEqb (sourceId sess) id) eqn:E.
  - intros H. inversion H; subst. exists sess.
    split; [now left | now apply optEqb_true].
  - intros H. destruct (IH H) as [x [Hin Hx]]. exists x. auto.
Qed.

Lemma resolveIn_none (l : JsMap.t BrokerSession) (id : string) :
  resolveIn l id = None ->
  forall p session, In (p, session) l -> sourceId session <> Some id.
Proof.
  induction l as [|[k sess] l IH]; simpl; [tauto|].
  destruct (optEqb (sourceId sess) id) eqn:E; [discriminate|].
  intros H p x [Hx | Hx].
  - inversion Hx; subst. intros Hs. apply optEqb_true in Hs. congruence.
  - now apply (IH H p).
Qed.

(** X14. resolvePatientId returns the key of a broker session whose source
    identifier is the argument, or the argument itself when no session
    carries it. *)
Theorem resolvePatientId_result :
  forall (s : Store.t) (ehrPatientId : string),
    (exists session,
       In (resolvePatientId s ehrPatientId, session) (brokerSessions s)
       /\ sourceId session = Some ehrPatientId)
    \/ (resolvePatientId s ehrPatientId = ehrPatientId
        /\ forall patientId session,
             In (patientId, session) (brokerSessions s) ->
             sourceId session <> Some ehrPatientId).
Proof.
  intros s id. unfold resolvePatientId.
  destruct (resolveIn (brokerSessions s) id) as [p|] eqn:E.
  - left. now apply resolveIn_some.
  - right. split; [reflexivity | now apply resolveIn_none].
Qed.

Lemma resolvePatientId_result_witness :
  resolvePatientId (Sample.withSession Sample.seeded) "local-17" = "local-17"
  /\ sourceId Sample.mercySession <> Some "local-17".
Proof.
  destruct (resolvePatientId_result (Sample.withSession Sample.seeded)
              "local-17") as [[session [Hin _]] | [Hsame Hno]].
  - simpl in Hin. destruct Hin as [H | []]. discriminate H.
  - split; [exact Hsame|].
    apply (Hno "patient-001"). simpl. left. reflexivity.
Defined.

Lemma in_openReferralsIn (srs : JsMap.t ServiceRequest) (l : JsMap.t Task)
    (pid : string) (r : OpenReferral) :
  In r (openReferralsIn srs l pid) <->
  exists k,
    In (k, task r) l /\ forPatient (task r) pid = true /\
    isOpen (status (task r)) = true /\
    JsMap.get srs (focusId (task r)) = Some (serviceRequest r).
Proof.
  induction l as [|[k t] l IH]; simpl.
  - split; [tauto | intros [k [[] _]]].
  - destruct (forPatient t pid && isOpen (status t)) eqn:E.
    + apply andb_true_iff in E. destruct E as [Ef Eo].
      destruct (JsMap.get srs (focusId t)) as [sr|] eqn:Eg.
      * simpl. rewrite IH. split.
        -- intros [<- | [k' [Hin H]]].
           ++ exists k. simpl. auto.
           ++ exists k'. auto.
        -- intros [k' [[Hin | Hin] [H1 [H2 H3]]]].
           ++ left. inversion Hin; subst. destruct r as [sr' t'].
              simpl in *. congruence.
           ++ right. exists k'. auto.
      * rewrite IH. split.
        -- intros [k' [Hin H]]. exists k'. auto.
        -- intros [k' [[Hin | Hin] [H1 [H2 H3]]]].
           ++ inversion Hin; subst. congruence.
           ++ exists k'. auto.
    + rewrite IH. split.
      * intros [k' [Hin H]]. exists k'. auto.
      * intros [k' [[Hin | Hin] [H1 [H2 H3]]]].
        -- inversion Hin; subst. rewrite H1, H2 in E. discriminate.
        -- exists k'. auto.
Qed.

Lemma isOpen_closed (st : TaskStatus) : isOpen st = negb (closed st).
Proof. destruct st; reflexivity. Qed.

Lemma in_getOpenReferrals :
  forall (s : Store.t) (patientId : string) (r : OpenReferral),
    In r (getOpenReferrals s patientId) <->
    exists k subject,
      In (k, task r) (tasks s) /\
      for_ (task r) = Some subject /\
      reference subject = String.append "Patient/" patientId /\
      closed (status (task r)) = false /\
      JsMap.get (serviceRequests s) (focusId (task r))
        = Some (serviceRequest r).
Proof.
  intros s pid r. unfold getOpenReferrals. rewrite in_openReferralsIn.
  rewrite isOpen_closed. unfold forPatient. split.
  - intros [k [Hin [Hf [Ho Hg]]]].
    destruct (for_ (task r)) as [subject|]; [|discriminate].
    exists k, subject. apply String.eqb_eq in Hf.
    apply negb_true_iff in Ho. auto.
  - intros [k [subject [Hin [Hf [Hr [Ho Hg]]]]]]. exists k.
    rewrite Hf, Hr, String.eqb_refl, Ho. auto.
Qed.

(** X15. getOpenReferrals returns exactly the tasks stored for the patient
    whose status is not completed, cancelled or failed and whose focus names
    a stored service request, each paired with that service request. *)
Theorem open_referrals_are_the_open_tasks_of_the_patient :
  forall (s : Store.t) (patientId : string) (r : OpenReferral),
    In r (getOpenReferrals s patientId) <->
    exists k subject,
      In (k, task r) (tasks s) /\
      for_ (task r) = Some subject /\
      reference subject = String.append "Patient/" patientId /\
      closed (status (task r)) = false /\
      JsMap.get (serviceRequests s) (focusId (task r))
        = Some (serviceRequest r).
Proof. exact in_getOpenReferrals. Qed.

Lemma open_referrals_are_the_open_tasks_of_the_patient_witness :
  In (mkOpenReferral Sample.referral001 Sample.task001)
     (getOpenReferrals Sample.seeded "patient-001").
Proof.
  apply (proj2 (open_referrals_are_the_open_tasks_of_the_patient
                  Sample.seeded "patient-001"
                  (mkOpenReferral Sample.referral001 Sample.task001))).
  exists "task-001", (Sample.ref "Patient/patient-001").
  repeat split; try reflexivity. simpl. left. reflexivity.
Defined.

(** *** Sharing preferences *)

Lemma prefKey_injective (p r p' r' : string) :
  colonFree p = true -> colonFree p' = true ->
  prefKey p r = prefKey p' r' -> p = p' /\ r = r'.
Proof.
  unfold prefKey, colonFree. revert p'.
  induction p as [|c p IH]; intros [|c' p'] Hp Hp'; simpl.
  - intros H. inversion H. auto.
  - intros H. inversion H; subst. simpl in Hp'. discriminate.
  - intros H. inversion H; subst. simpl in Hp. discriminate.
  - intros H. inversion H; subst. simpl in Hp, Hp'.
    apply andb_true_iff in Hp, Hp'.
    destruct (IH p' (proj2 Hp) (proj2 Hp') H2) as [-> ->]. auto.
Qed.

(** X16. A preference that was set is the one read back for its patient and
    provider, and it leaves the preference of every other pair alone, as
    long as patient identifiers contain no colon. *)
Theorem sharing_preference_round_trip :
  forall (s : Store.t) (pref : SharingPreference),
    getSharingPreference (setSharingPreference s pref)
      (spPatientId pref) (spPhysicianRef pref) = Some pref
    /\ forall patientId physicianRef,
         colonFree patientId = true ->
         colonFree (spPatientId pref) = true ->
         (patientId, physicianRef)
           <> (spPatientId pref, spPhysicianRef pref) ->
         getSharingPreference (setSharingPreference s pref)
           patientId physicianRef
         = getSharingPreference s patientId physicianRef.
Proof.
  intros s pref. unfold getSharingPreference, setSharingPreference.
  cbn [sharingPreferences]. split; [apply get_set_same|].
  intros p r Hp Hp' Hne. apply get_set_other. intros Hk.
  apply prefKey_injective in Hk; [|assumption|assumption].
  destruct Hk as [-> ->]. now apply Hne.
Qed.

Lemma sharing_preference_round_trip_witness :
  getSharingPreference (setSharingPreference Sample.seeded Sample.referralsOnly)
    "patient-001" "Practitioner/dr-smith" = Some Sample.referralsOnly
  /\ getSharingPreference
       (setSharingPreference Sample.seeded Sample.referralsOnly)
       "patient-002" "Practitioner/dr-smith"
     = getSharingPreference Sample.seeded "patient-002" "Practitioner/dr-smith".
Proof.
  destruct (sharing_preference_round_trip Sample.seeded Sample.referralsOnly)
    as [Hsame Hother].
  split; [exact Hsame|].
  apply Hother; [reflexivity | reflexivity |].
  intros H. discriminate H.
Defined.

(** *** Filing a referral *)

Lemma substring_all (s : string) : substring 0 (String.length s) s = s.
Proof. induction s as [|c s IH]; simpl; [reflexivity | now rewrite IH]. Qed.

Lemma removeFirst_unfold (pat s : string) :
  removeFirst pat s
  = if String.prefix pat s
    then substring (String.length pat) (String.length s - String.length pat) s
    else match s with
         | EmptyString => EmptyString
         | String c r => String c (removeFirst pat r)
         end.
Proof. destruct s; reflexivity. Qed.

Lemma removeFirst_prefix (pat s : string) :
  removeFirst pat (String.append pat s) = s.
Proof.
  assert (Hpre : String.prefix pat (String.append pat s) = true).
  { induction pat as [|c pat IH]; simpl; [destruct s; reflexivity|].
    destruct (ascii_dec c c); [exact IH | congruence]. }
  assert (Hsub : substring (String.length pat)
                   (String.length (String.append pat s) - String.length pat)
                   (String.append pat s) = s).
  { induction pat as [|c pat IH]; simpl.
    - rewrite Nat.sub_0_r. apply substring_all.
    - apply IH. simpl in Hpre.
      destruct (ascii_dec c c); [exact Hpre | congruence]. }
  rewrite removeFirst_unfold, Hpre. exact Hsub.
Qed.

(** X17. A service request and a task built by makeServiceRequest and
    makeTask for the same referral, and stored under their identifiers, are
    among the open referrals of the patient, with the requesting
    practitioner as the provider to consult for consent. *)
Theorem filed_referral_is_open :
  forall (s : Store.t) (i : MakeServiceRequestInput) (j : MakeTaskInput),
    mtServiceRequestId j = msrId i ->
    In (mkOpenReferral (makeServiceRequest i) (makeTask j))
       (getOpenReferrals
          (fileReferral s (makeServiceRequest i) (makeTask j))
          (mtPatientId j))
    /\ physicianOf [mkOpenReferral (makeServiceRequest i) (makeTask j)]
       = Some (String.append "Practitioner/" (msrRequesterId i)).
Proof.
  intros s i j Hid. split; [|reflexivity].
  apply in_getOpenReferrals.
  exists (mtId j), (mkReference (String.append "Patient/" (mtPatientId j))
                      None None).
  cbn [task serviceRequest]. split; [|split; [|split; [|split]]];
    try reflexivity.
  - apply (in_set (tasks s) (taskId (makeTask j)) (makeTask j)).
  - unfold focusId. cbn [makeTask focus reference fileReferral serviceRequests].
    rewrite removeFirst_prefix, Hid.
    apply (get_set_same (serviceRequests s) (srId (makeServiceRequest i))).
Qed.

Lemma filed_referral_is_open_witness :
  In (mkOpenReferral (makeServiceRequest Cases.referralInput)
        (makeTask Cases.taskInput))
     (getOpenReferrals
        (fileReferral Store.empty (makeServiceRequest Cases.referralInput)
           (makeTask Cases.taskInput))
        "patient-001").
Proof.
  apply (filed_referral_is_open Store.empty Cases.referralInput
           Cases.taskInput).
  reflexivity.
Defined.

(** ** Task updates *)

Lemma keys_set_present {V : Type} (m : JsMap.t V) (k : string) (v v' : V) :
  JsMap.get m k = Some v -> keys (JsMap.set m k v') = keys m.
Proof. intros H. rewrite keys_set. unfold JsMap.has. now rewrite H. Qed.

Lemma advanceTask_identity (task : Task) (e : Encounter) (now : string) :
  let task' := advanceTask task e now in
  taskId task' = taskId task /\ intent task' = intent task /\
  taskCode task' = taskCode task /\ focus task' = focus task /\
  for_ task' = for_ task /\ taskRequester task' = taskRequester task /\
  owner task' = owner task /\ authoredOn task' = authoredOn task /\
  restriction task' = restriction task.
Proof.
  unfold advanceTask. destruct (encStatus e); cbn; repeat split; reflexivity.
Qed.

(** X18. updateTaskForEncounter keeps the keys of the tasks map and their
    order, leaves every other task alone, does nothing for an unknown task,
    and keeps the identity of the task it updates. *)
Theorem update_touches_one_task :
  forall (tasks : JsMap.t Task) (id : string) (e : Encounter) (now : string),
    let tasks' := updateTaskForEncounter tasks id e now in
    keys tasks' = keys tasks /\
    (forall k, k <> id -> JsMap.get tasks' k = JsMap.get tasks k) /\
    (JsMap.get tasks id = None -> tasks' = tasks) /\
    (forall task, JsMap.get tasks id = Some task ->
       exists task',
         JsMap.get tasks' id = Some task' /\
         taskId task' = taskId task /\ focus task' = focus task /\
         for_ task' = for_ task /\ restriction task' = restriction task /\
         authoredOn task' = authoredOn task).
Proof.
  intros tasks id e now tasks'. unfold tasks', updateTaskForEncounter.
  destruct (JsMap.get tasks id) as [task|] eqn:Eg.
  - destruct (taskStatusEqb (status task) TCompleted
              || taskStatusEqb (status task) TFailed).
    + split; [reflexivity|]. split; [reflexivity|].
      split; [discriminate|].
      intros t H. inversion H; subst. exists t.
      repeat split; try reflexivity. exact Eg.
    + split; [now apply (keys_set_present _ _ task)|].
      split; [intros k Hk; now apply get_set_other|].
      split; [discriminate|].
      intros t H. inversion H; subst.
      exists (advanceTask t e now). rewrite get_set_same.
      pose proof (advanceTask_identity t e now) as Hid. cbv zeta in Hid.
      tauto.
  - split; [reflexivity|]. split; [reflexivity|].
    split; [reflexivity | discriminate].
Qed.

Lemma update_touches_one_task_witness :
  let tasks := tasks Cases.twoTasks in
  let tasks' :=
    updateTaskForEncounter tasks "task-001"
      (Sample.visit "enc-1" "patient-001" EPlanned)
      "2026-02-15T09:00:00.000Z" in
  keys tasks' = keys tasks
  /\ JsMap.get tasks' "task-009" = JsMap.get tasks "task-009".
Proof.
  intros tasks.
  destruct (update_touches_one_task tasks "task-001"
              (Sample.visit "enc-1" "patient-001" EPlanned)
              "2026-02-15T09:00:00.000Z") as [Hk [Ho _]].
  split; [exact Hk|]. apply Ho. discriminate.
Defined.

(** X19. A finished encounter completes an open task and appends one output
    entry for the encounter; after that no update changes the task any more.
    *)
Theorem finished_encounter_closes_for_good :
  forall (tasks : JsMap.t Task) (id : string) (task : Task)
         (e : Encounter) (now : string),
    JsMap.get tasks id = Some task ->
    status task <> TCompleted -> status task <> TFailed ->
    encStatus e = EFinished ->
    let tasks' := updateTaskForEncounter tasks id e now in
    (exists task',
       JsMap.get tasks' id = Some task' /\
       status task' = TCompleted /\
       output task'
       = Some (match output task with Some o => o | None => [] end
               ++ [matchedOutput e])) /\
    forall e' now', updateTaskForEncounter tasks' id e' now' = tasks'.
Proof.
  intros tasks id task e now Hg Hc Hf He tasks'.
  assert (E : tasks' = JsMap.set tasks id (advanceTask task e now)).
  { unfold tasks', updateTaskForEncounter. rewrite Hg.
    destruct (status task); try congruence; reflexivity. }
  assert (Hs : status (advanceTask task e now) = TCompleted)
    by (unfold advanceTask; now rewrite He).
  split.
  - exists (advanceTask task e now). rewrite E, get_set_same.
    split; [reflexivity|]. split; [exact Hs|].
    unfold advanceTask. now rewrite He.
  - intros e' now'. unfold updateTaskForEncounter at 1.
    rewrite E, get_set_same, Hs. reflexivity.
Qed.

Lemma finished_encounter_closes_for_good_witness :
  let tasks := [("task-001", Sample.task001)] in
  let e := Sample.visit "enc-1" "patient-001" EFinished in
  let tasks' := updateTaskForEncounter tasks "task-001" e
                  "2026-02-15T09:00:00.000Z" in
  updateTaskForEncounter tasks' "task-001"
    (Sample.visit "enc-2" "patient-001" EPlanned) "2026-02-16T09:00:00.000Z"
  = tasks'.
Proof.
  intros tasks e.
  apply (finished_encounter_closes_for_good tasks "task-001" Sample.task001 e
           "2026-02-15T09:00:00.000Z"); try reflexivity; discriminate.
Defined.

(** ** Overdue sweep *)

Lemma sweep_as_map (tasks : JsMap.t Task) (now : string) :
  checkOverdueTasks tasks now
  = (map fst (filter (fun kt => due now (snd kt)) tasks),
     map (fun kt => if due now (snd kt)
                    then (fst kt, markOverdue (snd kt) now) else kt) tasks).
Proof.
  induction tasks as [|[k t] r IH]; [reflexivity|].
  cbn [checkOverdueTasks]. rewrite IH. unfold due. cbn [fst snd filter map].
  destruct (skipped t); cbn [negb andb]; [reflexivity|].
  destruct (isOverdue t now); reflexivity.
Qed.

(** X20. The sweep returns the keys of exactly the tasks that are not
    completed, failed or cancelled and are past their due date; it marks
    those failed with the current time and leaves all others as they were,
    so that afterwards no open task is overdue. *)
Theorem sweep_marks_exactly_the_open_overdue_tasks :
  forall (tasks : JsMap.t Task) (now : string),
    let ids := fst (checkOverdueTasks tasks now) in
    let tasks' := snd (checkOverdueTasks tasks now) in
    keys tasks' = keys tasks /\
    (forall k, In k ids <->
       exists t, In (k, t) tasks /\ skipped t = false
                 /\ isOverdue t now = true) /\
    (forall k t, In (k, t) tasks -> skipped t = false ->
       isOverdue t now = true ->
       In (k, markOverdue t now) tasks'
       /\ status (markOverdue t now) = TFailed
       /\ lastModified (markOverdue t now) = Some now) /\
    (forall k t, In (k, t) tasks ->
       skipped t = true \/ isOverdue t now = false -> In (k, t) tasks') /\
    (forall k t', In (k, t') tasks' ->
       skipped t' = true \/ isOverdue t' now = false).
Proof.
  intros tasks now ids tasks'. unfold ids, tasks'. rewrite sweep_as_map.
  cbn [fst snd]. split; [|split; [|split; [|split]]].
  - unfold keys. rewrite map_map. apply map_ext.
    intros [k t]. simpl. destruct (due now t); reflexivity.
  - intros k. rewrite in_map_iff. split.
    + intros [[k' t] [<- Hin]]. apply filter_In in Hin.
      destruct Hin as [Hin Hd]. unfold due in Hd. cbn [snd] in Hd.
      apply andb_true_iff in Hd. destruct Hd as [Hs Ho].
      apply negb_true_iff in Hs. exists t. auto.
    + intros [t [Hin [Hs Ho]]]. exists (k, t). split; [reflexivity|].
      apply filter_In. split; [exact Hin|]. unfold due. cbn [snd].
      now rewrite Hs, Ho.
  - intros k t Hin Hs Ho. split; [|split; reflexivity].
    apply in_map_iff. exists (k, t). split; [|exact Hin].
    unfold due. cbn [fst snd]. now rewrite Hs, Ho.
  - intros k t Hin H. apply in_map_iff. exists (k, t). split; [|exact Hin].
    unfold due. cbn [snd]. destruct H as [-> | ->]; [reflexivity|].
    now rewrite andb_false_r.
  - intros k t' Hin. apply in_map_iff in Hin.
    destruct Hin as [[k0 t] [Heq Hin]]. cbn [fst snd] in Heq.
    destruct (due now t) eqn:Ed.
    + inversion Heq; subst. left. reflexivity.
    + inversion Heq; subst. unfold due in Ed.
      destruct (skipped t'); [now left | now right].
Qed.

Lemma sweep_marks_exactly_the_open_overdue_tasks_witness :
  In "task-001"
    (fst (checkOverdueTasks (tasks Cases.twoTasks) "2026-05-01T00:00:00.000Z"))
  /\ In ("task-009", Cases.withdrawn)
       (snd (checkOverdueTasks (tasks Cases.twoTasks)
               "2026-05-01T00:00:00.000Z")).
Proof.
  destruct (sweep_marks_exactly_the_open_overdue_tasks
              (tasks Cases.twoTasks) "2026-05-01T00:00:00.000Z")
    as [_ [Hids [_ [Hkept _]]]].
  split.
  - apply Hids. exists Sample.task001.
    repeat split; try reflexivity. simpl. left. reflexivity.
  - apply Hkept; [simpl; right; left; reflexivity | left; reflexivity].
Defined.

Lemma compare_refl (s : string) : String.compare s s = Eq.
Proof.
  induction s as [|c s IH]; [reflexivity|]. simpl.
  unfold Ascii.compare. now rewrite N.compare_refl.
Qed.

Lemma extension_is_greater (d x : string) :
  x <> EmptyString -> gt (String.append d x) d = true.
Proof.
  intros Hx. unfold gt, String.ltb.
  induction d as [|c d IH]; simpl.
  - destruct x; [congruence | reflexivity].
  - unfold Ascii.compare. rewrite N.compare_refl. exact IH.
Qed.

(** X21. Dates are compared as strings: an open task whose due date is a
    date without time is overdue at every timestamp that extends that date,
    and is not overdue when the clock reads the due date itself. *)
Theorem due_date_is_overdue_from_its_first_instant :
  forall (tasks : JsMap.t Task) (k : string) (task : Task)
         (date time : string),
    In (k, task) tasks ->
    skipped task = false ->
    dueDate task = Some date ->
    date <> EmptyString ->
    time <> EmptyString ->
    In k (fst (checkOverdueTasks tasks (String.append date time)))
    /\ ~ In k (fst (checkOverdueTasks [(k, task)] date)).
Proof.
  intros tasks k task date time Hin Hs Hd Hne Ht. split.
  - rewrite sweep_as_map. cbn [fst]. apply in_map_iff.
    exists (k, task). split; [reflexivity|]. apply filter_In.
    split; [exact Hin|]. unfold due, isOverdue. cbn [snd].
    rewrite Hs, Hd. cbn [negb andb].
    rewrite (extension_is_greater date time Ht).
    destruct date; [congruence | reflexivity].
  - rewrite sweep_as_map. cbn [fst filter snd]. unfold due, isOverdue.
    rewrite Hs, Hd. unfold gt, String.ltb. rewrite compare_refl.
    rewrite andb_false_r. simpl. tauto.
Qed.

Lemma due_date_is_overdue_from_its_first_instant_witness :
  In "task-001"
    (fst (checkOverdueTasks [("task-001", Sample.task001)]
            "2026-04-01T00:00:00.000Z"))
  /\ ~ In "task-001"
         (fst (checkOverdueTasks [("task-001", Sample.task001)] "2026-04-01")).
Proof.
  apply (due_date_is_overdue_from_its_first_instant
           [("task-001", Sample.task001)] "task-001" Sample.task001
           "2026-04-01" "T00:00:00.000Z");
    try reflexivity; try discriminate.
  simpl. left. reflexivity.
Defined.

(** ** Pipeline *)

Lemma update_keys (tasks : JsMap.t Task) (id : string) (e : Encounter)
    (now : string) :
  keys (updateTaskForEncounter tasks id e now) = keys tasks.
Proof.
  unfold updateTaskForEncounter.
  destruct (JsMap.get tasks id) as [task|] eqn:Eg; [|reflexivity].
  destruct (_ || _); [reflexivity|]. now apply (keys_set_present _ _ task).
Qed.

Lemma update_other (tasks : JsMap.t Task) (id k : string) (e : Encounter)
    (now : string) :
  k <> id ->
  JsMap.get (updateTaskForEncounter tasks id e now) k = JsMap.get tasks k.
Proof.
  intros Hk. unfold updateTaskForEncounter.
  destruct (JsMap.get tasks id) as [task|]; [|reflexivity].
  destruct (_ || _); [reflexivity|]. now apply get_set_other.
Qed.

Lemma Forall_set {V : Type} (P : string * V -> Prop) (m : JsMap.t V)
    (k : string) (v : V) :
  Forall P m -> P (k, v) -> Forall P (JsMap.set m k v).
Proof.
  intros Hm Hv. induction Hm as [|[k0 v0] m H0 Hm IH]; simpl.
  - constructor; [exact Hv | constructor].
  - destruct (String.eqb k0 k) eqn:E.
    + apply String.eqb_eq in E. subst. constructor; assumption.
    + constructor; assumption.
Qed.

Lemma update_ownKeys (tasks : JsMap.t Task) (id : string) (e : Encounter)
    (now : string) :
  ownKeys tasks -> ownKeys (updateTaskForEncounter tasks id e now).
Proof.
  intros [Hnd Hown]. split; [now rewrite update_keys|].
  unfold updateTaskForEncounter.
  destruct (JsMap.get tasks id) as [task|] eqn:Eg; [|exact Hown].
  destruct (_ || _); [exact Hown|].
  apply Forall_set; [exact Hown|]. cbn [fst snd].
  destruct (advanceTask_identity task e now) as [-> _].
  apply get_some_in in Eg. rewrite Forall_forall in Hown.
  exact (Hown _ Eg).
Qed.

(** The task that the pipeline advances is one of the open tasks. *)
Lemma best_match_task_is_open (s : Store.t) (e : Encounter) (pid : string)
    (context : MatchContext) (m : MatchResult) :
  ownKeys (tasks s) ->
  bestOf (matchEncounterToReferrals e (getOpenReferrals s pid) context)
  = Some m ->
  exists t, JsMap.get (tasks s) (mrTaskId m) = Some t
            /\ closed (status t) = false.
Proof.
  intros [Hnd Hown] Hbest.
  apply bestOf_some in Hbest. destruct Hbest as [rest [Hres _]].
  assert (Hin : In m (matchEncounterToReferrals e (getOpenReferrals s pid)
                        context)) by (rewrite Hres; now left).
  destruct (in_results _ _ _ _ Hin) as [sp [r [_ [Hr Hs]]]].
  apply scoreReferral_facts in Hs. destruct Hs as [_ [Hid _]].
  unfold getOpenReferrals in Hr. apply in_openReferralsIn in Hr.
  destruct Hr as [k [Hk [_ [Hopen _]]]].
  rewrite isOpen_closed in Hopen. apply negb_true_iff in Hopen.
  exists (task r). split; [|exact Hopen].
  rewrite Forall_forall in Hown. pose proof (Hown _ Hk) as Hkey.
  cbn [fst snd] in Hkey. rewrite Hid, Hkey. now apply in_get.
Qed.

(** X22. When every task is stored under its own identifier,
    processEncounter leaves each completed, failed or cancelled task as it
    is, although the guard of updateTaskForEncounter itself does not look at
    cancelled. *)
Theorem closed_tasks_survive_the_pipeline :
  forall (clock : Clock) (e : Encounter) (s : Store.t) (k : string)
         (t : Task),
    ownKeys (tasks s) ->
    JsMap.get (tasks s) k = Some t ->
    closed (status t) = true ->
    JsMap.get (tasks (snd (processEncounter clock e s))) k = Some t.
Proof.
  intros clock e s k t Hown Hg Hc.
  rewrite processEncounter_steps. cbn [snd tasks].
  destruct (bestOf _) as [m|] eqn:Hbest; [|exact Hg].
  destruct (best_match_task_is_open _ _ _ _ _ Hown Hbest) as [t0 [Hg0 Ho]].
  rewrite update_other; [exact Hg|].
  intros ->. rewrite Hg in Hg0. inversion Hg0; subst. congruence.
Qed.

Lemma ownKeys_twoTasks : ownKeys (tasks Cases.twoTasks).
Proof.
  split.
  - repeat constructor; simpl; intuition discriminate.
  - repeat constructor.
Defined.

Lemma closed_tasks_survive_the_pipeline_witness :
  JsMap.get
    (tasks (snd (processEncounter Sample.clock1
                   (Sample.visit "enc-1" "patient-001" EFinished)
                   Cases.twoTasks)))
    "task-009" = Some Cases.withdrawn.
Proof.
  apply closed_tasks_survive_the_pipeline;
    [exact ownKeys_twoTasks | reflexivity | reflexivity].
Defined.

Lemma ids_upsert (events : list RoutedEvent) (ev : RoutedEvent) :
  map reEncounterId (upsertRoutedEvent events ev)
  = if hasRoutedEvent events (reEncounterId ev)
    then map reEncounterId events
    else map reEncounterId events ++ [reEncounterId ev].
Proof.
  unfold upsertRoutedEvent, hasRoutedEvent.
  induction events as [|x r IH]; [reflexivity|]. cbn [findIndex existsb].
  destruct (String.eqb (reEncounterId x) (reEncounterId ev)) eqn:E.
  - apply String.eqb_eq in E. cbn. now rewrite E.
  - cbn [orb].
    destruct (findIndex _ r) as [i|]; cbn [setAt app map] in *;
      rewrite IH; destruct (existsb _ r); reflexivity.
Qed.

Lemma hasRoutedEvent_in (events : list RoutedEvent) (id : string) :
  hasRoutedEvent events id = true <-> In id (map reEncounterId events).
Proof.
  unfold hasRoutedEvent. rewrite existsb_exists, in_map_iff. split.
  - intros [x [Hx E]]. apply String.eqb_eq in E. exists x. auto.
  - intros [x [E Hx]]. exists x. split; [exact Hx | now apply String.eqb_eq].
Qed.

Lemma NoDup_upsert (events : list RoutedEvent) (ev : RoutedEvent) :
  NoDup (map reEncounterId events) ->
  NoDup (map reEncounterId (upsertRoutedEvent events ev)).
Proof.
  intros H. rewrite ids_upsert.
  destruct (hasRoutedEvent events (reEncounterId ev)) eqn:E; [exact H|].
  apply NoDup_app; [exact H | constructor; [tauto | constructor] |].
  intros x Hx [<- | []]. apply hasRoutedEvent_in in Hx. congruence.
Qed.

Lemma persisted_id (s : Store.t) (e : Encounter) :
  encId (persisted s e) = encId e.
Proof. unfold persisted. destruct (negb _); reflexivity. Qed.

Lemma processEncounter_consistent (clock : Clock) (e : Encounter)
    (s : Store.t) :
  consistent s -> consistent (snd (processEncounter clock e s)).
Proof.
  intros [Ht [He [Hek Hr]]]. rewrite processEncounter_steps.
  unfold consistent. cbn [snd tasks encounters routedEvents].
  split; [|split; [|split]].
  - destruct (bestOf _); [now apply update_ownKeys | exact Ht].
  - now apply NoDup_keys_set.
  - apply Forall_set; [exact Hek|]. cbn [fst snd]. apply persisted_id.
  - destruct (physicianOf _) as [p|]; [|exact Hr].
    destruct (_ && _); [now apply NoDup_upsert | exact Hr].
Qed.

(** X23. Any sequence of deliveries keeps every task and every encounter
    stored once under its own identifier and keeps at most one routed event
    per encounter identifier. *)
Theorem pipeline_keeps_the_stores_consistent :
  forall (l : list (Clock * Encounter)) (s : Store.t),
    consistent s -> consistent (snd (processAll l s)).
Proof.
  induction l as [|[clock e] l IH]; intros s H; [exact H|].
  cbn [processAll].
  pose proof (processEncounter_consistent clock e s H) as H1.
  destruct (processEncounter clock e s) as [r s1]. cbn [snd] in H1.
  specialize (IH s1 H1). destruct (processAll l s1) as [rs s2]. exact IH.
Qed.

Lemma consistent_twoTasks : consistent Cases.twoTasks.
Proof.
  split; [exact ownKeys_twoTasks|].
  repeat split; constructor.
Defined.

Lemma pipeline_keeps_the_stores_consistent_witness :
  consistent
    (snd (processAll
            [(Sample.clock1, Sample.visit "enc-1" "patient-001" EPlanned);
             (Sample.clock2, Sample.visit "enc-1" "patient-001" EFinished)]
            Cases.twoTasks)).
Proof.
  apply pipeline_keeps_the_stores_consistent. exact consistent_twoTasks.
Defined.

(** X24. The sharing preferences have no influence on the match results, the
    best match, the task that is updated, the tasks map or the stored
    encounter. *)
Theorem consent_does_not_steer_the_life_cycle :
  forall (clock : Clock) (e : Encounter) (s : Store.t)
         (prefs : JsMap.t SharingPreference),
    let out := processEncounter clock e s in
    let out' := processEncounter clock e (withPreferences s prefs) in
    matchResults (fst out') = matchResults (fst out) /\
    bestMatch (fst out') = bestMatch (fst out) /\
    taskUpdated (fst out') = taskUpdated (fst out) /\
    tasks (snd out') = tasks (snd out) /\
    encounters (snd out') = encounters (snd out).
Proof.
  intros clock e s prefs out out'. unfold out, out'.
  rewrite !processEncounter_steps.
  cbn [fst snd matchResults bestMatch taskUpdated tasks encounters].
  repeat split; reflexivity.
Qed.







(** X27. Under an active all-encounters preference for the requester of the
    first open referral the encounter is routed to that provider, matched or
    not. *)
Theorem all_encounters_routes_without_a_match :
  forall (clock : Clock) (e : Encounter) (s : Store.t)
         (first : OpenReferral) (rest : list OpenReferral)
         (requester : Reference) (pref : SharingPreference),
    let pid :=
      resolvePatientId s (removeFirst "Patient/" (reference (subject e))) in
    getOpenReferrals s pid = first :: rest ->
    srRequester (serviceRequest first) = Some requester ->
    truthy (reference requester) = true ->
    getSharingPreference s pid (reference requester) = Some pref ->
    active pref = true ->
    mode pref = AllEncounters ->
    let out := processEncounter clock e s in
    routed (fst out) = true /\
    routedTo (fst out) = Some (reference requester) /\
    reason (fst out) = "Patient selected 'share all encounters'" /\
    hasRoutedEvent (routedEvents (snd out)) (encId e) = true.
Proof.
  intros clock e s first rest requester pref pid Hopen Hreq Htruthy Hpref
    Hactive Hmode out.
  pose proof (hasRoutedEvent_step clock e s (encId e)) as Hstep.
  cbv zeta in Hstep. fold out in Hstep. rewrite Hstep. clear Hstep.
  unfold out. rewrite processEncounter_steps.
  cbn [fst snd routed routedTo reason resEncounterId].
  fold (rawPatientId e) in pid. fold (canonicalId s e) in pid.
  change (canonicalId s e) with pid.
  assert (Hphys : physicianOf (getOpenReferrals s pid)
                  = Some (reference requester)).
  { rewrite Hopen. simpl. now rewrite Hreq. }
  rewrite Hphys. cbn [prefOf]. rewrite Htruthy, Hpref.
  unfold decide. rewrite Hactive, Hmode. cbn [negb fst snd andb].
  rewrite String.eqb_refl, orb_true_r. repeat split.
Qed.

Lemma all_encounters_routes_without_a_match_witness :
  let e := Sample.visitNoProvider "enc-4" "patient-001" EArrived in
  let s := setSharingPreference Sample.seeded Sample.allEncounters in
  let out := processEncounter Sample.clock1 e s in
  matchResults (fst out) = [] /\
  routed (fst out) = true /\
  routedTo (fst out) = Some "Practitioner/dr-smith" /\
  reason (fst out) = "Patient selected 'share all encounters'" /\
  hasRoutedEvent (routedEvents (snd out)) "enc-4" = true.
Proof.
  intros e s. split; [reflexivity|].
  apply (all_encounters_routes_without_a_match Sample.clock1 e s
           (mkOpenReferral Sample.referral001 Sample.task001) []
           (mkReference "Practitioner/dr-smith" (Some "Dr. Robert Smith") None)
           Sample.allEncounters); reflexivity.
Defined.

(** X28. The delivered encounter is stored under its identifier with a
    subject that names the canonical patient; the encounters of other
    identifiers are untouched, and a known identifier adds no key. *)
Theorem delivered_encounter_is_upserted :
  forall (clock : Clock) (e : Encounter) (s : Store.t),
    let out := processEncounter clock e s in
    (exists stored,
       JsMap.get (encounters (snd out)) (encId e) = Some stored /\
       encId stored = encId e /\
       removeFirst "Patient/" (reference (subject stored))
       = resPatientId (fst out)) /\
    (forall k, k <> encId e ->
       JsMap.get (encounters (snd out)) k = JsMap.get (encounters s) k) /\
    keys (encounters (snd out))
    = if JsMap.has (encounters s) (encId e) then keys (encounters s)
      else keys (encounters s) ++ [encId e].
Proof.
  intros clock e s out. unfold out. rewrite processEncounter_steps.
  cbn [fst snd encounters resPatientId]. split; [|split].
  - exists (persisted s e). rewrite get_set_same.
    split; [reflexivity|]. split; [apply persisted_id|].
    unfold persisted.
    destruct (String.eqb (canonicalId s e) (rawPatientId e)) eqn:E;
      cbn [negb].
    + apply String.eqb_eq in E. now rewrite E.
    + cbn [withSubject subject reference]. apply removeFirst_prefix.
  - intros k Hk. now apply get_set_other.
  - apply keys_set.
Qed.

Lemma delivered_encounter_is_upserted_witness :
  let e1 := Sample.visit "enc-1" "mercy-a1b2c3d" EPlanned in
  let e2 := Sample.visit "enc-2" "mercy-a1b2c3d" EPlanned in
  let s1 := snd (processEncounter Sample.clock1 e1
                   (Sample.withSession Sample.seeded)) in
  let out := processEncounter Sample.clock2 e2 s1 in
  JsMap.get (encounters (snd out)) "enc-1" = JsMap.get (encounters s1) "enc-1"
  /\ keys (encounters (snd out)) = ["enc-1"; "enc-2"]
  /\ resPatientId (fst out) = "patient-001".
Proof.
  intros e1 e2 s1.
  destruct (delivered_encounter_is_upserted Sample.clock2 e2 s1)
    as [_ [Hother Hkeys]].
  split; [apply Hother; discriminate|].
  split; [rewrite Hkeys; reflexivity | reflexivity].
Defined.



Lemma broadcast_in (clients : list Sse.SSEClient) (ch : Sse.Channel)
    (data : string) (patientId : option string) (c' : Sse.SSEClient) :
  In c' (Sse.broadcast clients ch data patientId) <->
  (In c' clients /\ Sse.passedOver c' ch patientId = true)
  \/ exists c,
       In c clients /\ Sse.passedOver c ch patientId = false
       /\ Sse.accepting (Sse.controller c) = true
       /\ c' = Sse.deliver c (Sse.message data).
Proof.
  induction clients as [|x r IH]; cbn [Sse.broadcast].
  - split; [intros [] | intros [[[] _] | [c [[] _]]]].
  - destruct (Sse.passedOver x ch patientId) eqn:Ep.
    + cbn [In]. rewrite IH. split.
      * intros [H | [[H1 H2] | [c [H1 H2]]]].
        -- subst. left. auto.
        -- left. auto.
        -- right. exists c. tauto.
      * intros [[[H | H1] H2] | [c [[H | H1] H2]]].
        -- now left.
        -- right. left. auto.
        -- subst. destruct H2 as [H2 _]. congruence.
        -- right. right. exists c. auto.
    + unfold Sse.enqueue.
      destruct (Sse.accepting (Sse.controller x)) eqn:Ea.
      * cbn [In]. rewrite IH. split.
        -- intros [H | [[H1 H2] | [c [H1 H2]]]].
           ++ right. exists x. auto.
           ++ left. auto.
           ++ right. exists c. tauto.
        -- intros [[[H | H1] H2] | [c [[H | H1] [H2 [H3 H4]]]]].
           ++ subst. congruence.
           ++ right. left. auto.
           ++ subst. now left.
           ++ right. right. exists c. auto.
      * rewrite IH. cbn [In]. split.
        -- intros [[H1 H2] | [c [H1 H2]]]; [left; auto|].
           right. exists c. tauto.
        -- intros [[[H | H1] H2] | [c [[H | H1] [H2 [H3 H4]]]]].
           ++ subst. congruence.
           ++ left. auto.
           ++ subst. congruence.
           ++ right. exists c. auto.
Qed.

(** X29. A broadcast leaves the clients of the other channel alone, never
    reaches a client registered for a different patient, appends the message
    to every other client of the channel that still accepts chunks, and adds
    no client. *)
Theorem broadcast_reaches_only_its_audience :
  forall (clients : list Sse.SSEClient) (ch : Sse.Channel) (data : string)
         (patientId : option string),
    let clients' := Sse.broadcast clients ch data patientId in
    (forall c, In c clients -> Sse.channel c <> ch -> In c clients') /\
    (forall c p q, In c clients ->
       patientId = Some p -> Sse.clientPatientId c = Some q ->
       truthy p = true -> truthy q = true -> q <> p -> In c clients') /\
    (forall c, In c clients -> Sse.passedOver c ch patientId = false ->
       Sse.accepting (Sse.controller c) = true ->
       In (Sse.deliver c (Sse.message data)) clients') /\
    (forall c', In c' clients' ->
       In c' clients
       \/ exists c, In c clients /\ Sse.channel c = ch
                    /\ c' = Sse.deliver c (Sse.message data)) /\
    List.length clients' <= List.length clients.
Proof.
  intros clients ch data patientId clients'. unfold clients'.
  split; [|split; [|split; [|split]]].
  - intros c Hin Hch. apply broadcast_in. left. split; [exact Hin|].
    unfold Sse.passedOver.
    destruct (Sse.channel c), ch; try reflexivity; congruence.
  - intros c p q Hin -> Hq Hp Htq Hne. apply broadcast_in. left.
    split; [exact Hin|]. unfold Sse.passedOver. rewrite Hq, Hp, Htq.
    apply String.eqb_neq in Hne. rewrite Hne. cbn. apply orb_true_r.
  - intros c Hin Hp Ha. apply broadcast_in. right. exists c. auto.
  - intros c' Hin. apply broadcast_in in Hin.
    destruct Hin as [[H _] | [c [H1 [H2 [H3 H4]]]]]; [now left|].
    right. exists c. split; [exact H1|]. split; [|exact H4].
    unfold Sse.passedOver in H2. apply orb_false_iff in H2.
    destruct H2 as [H2 _]. apply negb_false_iff in H2.
    destruct (Sse.channel c), ch; try reflexivity; discriminate.
  - clear clients'. induction clients as [|x r IH]; [apply Nat.le_refl|].
    cbn [Sse.broadcast List.length]. cbv zeta.
    destruct (Sse.passedOver x ch patientId); cbn [List.length]; [lia|].
    destruct (Sse.enqueue _ _); cbn [List.length]; lia.
Qed.

Lemma broadcast_reaches_only_its_audience_witness :
  let clients := [Cases.alice; Cases.bob; Cases.dashboard] in
  let clients' :=
    Sse.broadcast clients Sse.PatientChannel "{}" (Some "patient-001") in
  In Cases.bob clients' /\ In Cases.dashboard clients'
  /\ In (Sse.deliver Cases.alice (Sse.message "{}")) clients'.
Proof.
  intros clients.
  destruct (broadcast_reaches_only_its_audience clients Sse.PatientChannel
              "{}" (Some "patient-001")) as [Hch [Hpat [Hdel _]]].
  split; [|split].
  - apply (Hpat Cases.bob "patient-001" "patient-002");
      try reflexivity; [simpl; tauto | discriminate].
  - apply Hch; [simpl; tauto | discriminate].
  - apply Hdel; [simpl; tauto | reflexivity | reflexivity].
Defined.

(** X30. When processEncounter reports a best match, it is the first of the
    match results, no result scores higher, its score is at least 0.70, its
    confidence is high, and its task is the one reported as updated. *)
Theorem best_match_is_the_high_confidence_head :
  forall (clock : Clock) (e : Encounter) (s : Store.t) (m : MatchResult),
    let out := processEncounter clock e s in
    bestMatch (fst out) = Some m ->
    (exists rest, matchResults (fst out) = m :: rest) /\
    confidence m = High /\
    (7 # 10 <= score m)%Q /\
    taskUpdated (fst out) = Some (mrTaskId m) /\
    (forall m', In m' (matchResults (fst out)) -> (score m' <= score m)%Q).
Proof.
  intros clock e s m out. unfold out. rewrite processEncounter_steps.
  cbn [fst bestMatch matchResults taskUpdated].
  set (results := matchEncounterToReferrals _ _ _).
  intros Hbest. rewrite Hbest. cbn [andThen].
  pose proof (results_top (persisted s e)
                (getOpenReferrals s (canonicalId s e))
                (buildMatchContext s)) as Htop.
  fold results in Htop.
  apply bestOf_some in Hbest. destruct Hbest as [rest [Hres Hscore]].
  assert (Hin : In m results) by (rewrite Hres; now left).
  split; [exists rest; exact Hres|]. split.
  - destruct (in_results _ _ _ _ Hin) as [sp [r [_ [_ Hs]]]].
    destruct (scoreReferral_confidence _ _ _ Hs) as [-> _].
    now apply (proj1 (confidenceOf_tiers (score m))).
  - split; [exact Hscore|]. split; [reflexivity|].
    rewrite Hres in Htop |- *. exact Htop.
Qed.

Lemma best_match_is_the_high_confidence_head_witness :
  let out := processEncounter Sample.clock1
               (Sample.visit "enc-1" "patient-001" EFinished)
               Sample.consented in
  (exists rest, matchResults (fst out) = Sample.visitTop :: rest) /\
  confidence Sample.visitTop = High /\
  (7 # 10 <= score Sample.visitTop)%Q /\
  taskUpdated (fst out) = Some (mrTaskId Sample.visitTop) /\
  (forall m', In m' (matchResults (fst out)) ->
              (score m' <= score Sample.visitTop)%Q).
Proof.
  intros out.
  apply (best_match_is_the_high_confidence_head Sample.clock1
           (Sample.visit "enc-1" "patient-001" EFinished) Sample.consented).
  reflexivity.
Defined.
